(** * Project Bonzooka: spatial index and zone generator

    A shallow embedding of [SpatialHash.js] and
    [runtime/world/MapGenerator.js], with the properties the design
    document states about them.

    JavaScript numbers are doubles.  Every finite double is a rational,
    so numbers are in [Q]; [NaN], the infinities and the sign of zero
    are left out.  Where a rounded result decides a cell, a count or a
    seed (the arithmetic of the spatial index, the star count, the zone
    seed) every operation rounds its exact result with [round], which
    is a parameter of the embedding with binary64 as its instance.  The
    positions and the densities of the generator are exact rationals.
    Counts, depths and integer caps are [Z]. *)

From Stdlib Require Import ZArith QArith Qround Qabs Qpower Lia Lqa Floats.
From stdpp Require Import base gmap list strings pretty.

(** ** JavaScript idioms shared by both modules *)

Module JS.
Local Open Scope Q_scope.

Definition Qlt_bool (a b : Q) : bool := negb (Qle_bool b a).

(** [v || d] on numbers: a missing field and [0] are both falsy. *)
Definition num_or (v : option Q) (d : Q) : Q :=
  match v with
  | Some q => if Qeq_bool q 0 then d else q
  | None => d
  end.

(** [(typeof v === 'number') ? v : d]. *)
Definition typeof_number {A} (v : option A) (d : A) : A :=
  match v with Some q => q | None => d end.

(** [ToInt32]: wrap-around into the signed 32-bit range. *)
Definition ToInt32 (z : Z) : Z :=
  ((z + 2 ^ 31) mod 2 ^ 32 - 2 ^ 31)%Z.

(** [a << n] on 32-bit integers. *)
Definition shl32 (a n : Z) : Z := ToInt32 (Z.shiftl (ToInt32 a) n).

(** [a ^ b] on 32-bit integers. *)
Definition xor32 (a b : Z) : Z := Z.lxor (ToInt32 a) (ToInt32 b).

(** [Set.prototype.add] on an insertion-ordered set. *)
Definition set_add `{EqDecision A} (e : A) (s : list A) : list A :=
  if decide (e ∈ s) then s else s ++ [e].

(** [Set.prototype.delete]. *)
Definition set_delete `{EqDecision A} (e : A) (s : list A) : list A :=
  filter (λ e', e' ≠ e) s.

(** The host's arithmetic on numbers: an operation returns [round] of
    its exact result. *)
Class Float := { round : Q → Q }.

Definition fadd `{Float} (a b : Q) : Q := round (a + b).
Definition fsub `{Float} (a b : Q) : Q := round (a - b).
Definition fmul `{Float} (a b : Q) : Q := round (a * b).
Definition fdiv `{Float} (a b : Q) : Q := round (a / b).

Infix "⊕" := fadd (at level 50, left associativity) : Q_scope.
Infix "⊖" := fsub (at level 50, left associativity) : Q_scope.
Infix "⊗" := fmul (at level 40, left associativity) : Q_scope.
Infix "⊘" := fdiv (at level 40, left associativity) : Q_scope.

(** What the properties below need of the rounding: it keeps the
    order, commutes with the sign, and is exact on the integers up to
    [2 ^ 53]. *)
Class FloatSpec `{Float} : Prop := {
  round_le a b : a <= b → round a <= round b;
  round_opp a : round (- a) == - round a;
  round_integer z : (Z.abs z ≤ 2 ^ 53)%Z → round (inject_Z z) == inject_Z z
}.

(** Arithmetic without rounding, to compare with. *)
Definition exact : Float := {| round q := q |}.

(** [ToInteger]: the fraction is cut off, towards zero. *)
Definition ToInteger (q : Q) : Z :=
  if Qle_bool 0 q then Qfloor q else Qceiling q.

(** [ToUint32], as [>>> 0] applies it. *)
Definition ToUint32 (z : Z) : Z := (z mod 2 ^ 32)%Z.

Definition Math_floor (q : Q) : Z := Qfloor q.
Definition Math_ceil (q : Q) : Z := Qceiling q.
Definition Math_maxZ (a b : Z) : Z := Z.max a b.
Definition Math_minZ (a b : Z) : Z := Z.min a b.
Definition Math_max (a b : Q) : Q := if Qle_bool a b then b else a.
Definition Math_min (a b : Q) : Q := if Qle_bool a b then a else b.
Definition Math_abs (a : Q) : Q := Qabs a.

End JS.

(** ** Doubles

    Round to nearest, ties to even, with 53 bits and the smallest
    exponent -1074.  Overflow to infinity is left out. *)

Module Binary64.
Import JS.
Local Open Scope Q_scope.

(** The binade of [q]: [2 ^ (mag q - 1) <= |q| < 2 ^ mag q]. *)
Definition mag (q : Q) : Z :=
  let k := (Z.log2 (Z.abs (Qnum q)) - Z.log2 (Zpos (Qden q)))%Z in
  if Qle_bool (2 ^ k) (Qabs q) then (k + 1)%Z else k.

(** The integer nearest to [q], the even one in a tie. *)
Definition nearest_even (q : Q) : Z :=
  let f := Qfloor q in
  match Qcompare (q - inject_Z f) (1 # 2) with
  | Lt => f
  | Gt => (f + 1)%Z
  | Eq => if Z.even f then f else (f + 1)%Z
  end.

(** The exponent of the last bit of the double nearest to [q]. *)
Definition fexp (q : Q) : Z := Z.max (mag q - 53) (-1074).

(** Rounding on the grid of step [2 ^ e]. *)
Definition on_grid (e : Z) (q : Q) : Q :=
  inject_Z (nearest_even (q / 2 ^ e)) * 2 ^ e.

Definition rnd64 (q : Q) : Q :=
  if Qeq_bool q 0 then 0 else Qred (on_grid (fexp q) q).

#[export] Instance binary64 : Float := {| round := rnd64 |}.

(** The value of a primitive double, to compare [rnd64] with the
    kernel's own binary64 arithmetic. *)
Definition of_float (f : float) : option Q :=
  match Prim2SF f with
  | S754_zero _ => Some 0
  | S754_finite s m e =>
      Some (Qred ((if s then -1 else 1) * inject_Z (Zpos m) * 2 ^ e))
  | _ => None
  end.

End Binary64.

(** ** SpatialHash.js *)

Module SpatialHash.
Import JS.
Local Open Scope Q_scope.

(** The fields of an entity object the index reads. *)
Record Entity := {
  x : Q;
  y : Q;
  radius : option Q;
  size : option Q;
  r : option Q
}.

(** Entities are objects: the index holds references, and the fields
    are read through the heap at the time of each call. *)
Definition ref := positive.
Definition Heap := ref → Entity.

Record Grid := {
  cellSize : Q;
  invCell : Q;
  cells : gmap Z (list ref);
  entityCells : gmap ref (list Z)
}.

Section index.
Context {fl : Float}.

Definition create (cellSize : Q) : Grid :=
  {| cellSize := cellSize;
     invCell := 1 ⊘ cellSize;
     cells := ∅;
     entityCells := ∅ |}.

Definition clear (grid : Grid) : Grid :=
  {| cellSize := cellSize grid;
     invCell := invCell grid;
     cells := ∅;
     entityCells := ∅ |}.

(** [(cx << 16) ^ cy]. *)
Definition cell_key (cx cy : Z) : Z := xor32 (shl32 cx 16) cy.

Definition _key (grid : Grid) (wx wy : Q) : Z :=
  let cx := Math_floor (wx ⊗ invCell grid) in
  let cy := Math_floor (wy ⊗ invCell grid) in
  cell_key cx cy.

(** The cells visited by
    [for (cx = minCX; cx <= maxCX; cx++) for (cy = minCY; cy <= maxCY; cy++)],
    in loop order. *)
Definition cell_range (minCX maxCX minCY maxCY : Z) : list (Z * Z) :=
  cx ← seqZ minCX (maxCX - minCX + 1)%Z;
  cy ← seqZ minCY (maxCY - minCY + 1)%Z;
  [(cx, cy)].

(** [entity.radius || entity.size || entity.r || d]. *)
Definition radius_or (entity : Entity) (d : Q) : Q :=
  num_or (radius entity) (num_or (size entity) (num_or (r entity) d)).

Definition _entityCells (grid : Grid) (entity : Entity) : list Z :=
  let r := radius_or entity 16 in
  let x := x entity in
  let y := y entity in
  let inv := invCell grid in
  let minCX := Math_floor ((x ⊖ r) ⊗ inv) in
  let maxCX := Math_floor ((x ⊕ r) ⊗ inv) in
  let minCY := Math_floor ((y ⊖ r) ⊗ inv) in
  let maxCY := Math_floor ((y ⊕ r) ⊗ inv) in
  (λ c, cell_key c.1 c.2) <$> cell_range minCX maxCX minCY maxCY.

(** One turn of the loop of [insert]. *)
Definition bucket_add (entity : ref) (cells : gmap Z (list ref)) (key : Z)
  : gmap Z (list ref) :=
  match cells !! key with
  | Some bucket => <[key := set_add entity bucket]> cells
  | None => <[key := set_add entity []]> cells
  end.

Definition insert (heap : Heap) (grid : Grid) (entity : ref) : Grid :=
  let keys := _entityCells grid (heap entity) in
  {| cellSize := cellSize grid;
     invCell := invCell grid;
     cells := foldl (bucket_add entity) (cells grid) keys;
     entityCells := <[entity := keys]> (entityCells grid) |}.

(** One turn of the loop of [remove]. *)
Definition bucket_delete (entity : ref) (cells : gmap Z (list ref)) (key : Z)
  : gmap Z (list ref) :=
  match cells !! key with
  | Some bucket =>
      let bucket' := set_delete entity bucket in
      if decide (length bucket' = 0%nat) then delete key cells
      else <[key := bucket']> cells
  | None => cells
  end.

Definition remove (grid : Grid) (entity : ref) : Grid :=
  match entityCells grid !! entity with
  | None => grid
  | Some keys =>
      {| cellSize := cellSize grid;
         invCell := invCell grid;
         cells := foldl (bucket_delete entity) (cells grid) keys;
         entityCells := delete entity (entityCells grid) |}
  end.

Definition update (heap : Heap) (grid : Grid) (entity : ref) : Grid :=
  insert heap (remove grid entity) entity.

Definition query (grid : Grid) (x y radius : Q) : list ref :=
  let inv := invCell grid in
  let minCX := Math_floor ((x ⊖ radius) ⊗ inv) in
  let maxCX := Math_floor ((x ⊕ radius) ⊗ inv) in
  let minCY := Math_floor ((y ⊖ radius) ⊗ inv) in
  let maxCY := Math_floor ((y ⊕ radius) ⊗ inv) in
  foldl (λ result c,
           match cells grid !! cell_key c.1 c.2 with
           | Some bucket => foldl (λ res ent, set_add ent res) result bucket
           | None => result
           end)
        [] (cell_range minCX maxCX minCY maxCY).

(** The narrow-phase test of [queryCircle]. *)
Definition in_circle (ent : Entity) (x0 y0 radius : Q) : bool :=
  let dx := x ent ⊖ x0 in
  let dy := y ent ⊖ y0 in
  let er := radius_or ent 0 in
  let dist2 := dx ⊗ dx ⊕ dy ⊗ dy in
  let maxDist := radius ⊕ er in
  Qle_bool dist2 (maxDist ⊗ maxDist).

Definition queryCircle (heap : Heap) (grid : Grid) (x y radius : Q) : list ref :=
  let candidates := query grid x y radius in
  filter (λ ent, in_circle (heap ent) x y radius = true) candidates.

Definition checkCollision (a b : Entity) : bool :=
  let dx := x a ⊖ x b in
  let dy := y a ⊖ y b in
  let ra := num_or (radius a) (num_or (r a) 16) in
  let rb := num_or (radius b) (num_or (r b) 16) in
  let dist2 := dx ⊗ dx ⊕ dy ⊗ dy in
  let minDist := ra ⊕ rb in
  Qle_bool dist2 (minDist ⊗ minDist).

Definition insertAll (heap : Heap) (grid : Grid) (entities : list ref) : Grid :=
  foldl (insert heap) grid entities.

(** The radius of an entity as the design document resolves it for
    the distance filter: the first of [radius], [size] and [r] that is
    set, and 0 when none is.  A field is set when it holds a number
    other than 0. *)
Definition field_set (v : option Q) : option Q :=
  match v with
  | Some q => if Qeq_bool q 0 then None else Some q
  | None => None
  end.

Definition resolved_radius (ent : Entity) : Q :=
  match field_set (radius ent), field_set (size ent), field_set (r ent) with
  | Some q, _, _ => q
  | None, Some q, _ => q
  | None, None, Some q => q
  | None, None, None => 0
  end.

(** The distance test of the design document, on the numbers
    themselves: the centre of the entity is no further from [(x0, y0)]
    than [radius] plus the entity's resolved radius. *)
Definition within_reach (ent : Entity) (x0 y0 radius : Q) : bool :=
  let reach := radius + resolved_radius ent in
  Qle_bool 0 reach &&
  Qle_bool ((x ent - x0) * (x ent - x0) + (y ent - y0) * (y ent - y0))
           (reach * reach).

(** The brute-force scan the index is compared with: every entity,
    filtered by that test. *)
Definition bruteForce (heap : Heap) (entities : list ref) (x y radius : Q)
  : list ref :=
  filter (λ ent, within_reach (heap ent) x y radius = true) entities.

(** The same scan with the test as [queryCircle] evaluates it. *)
Definition bruteForceRounded (heap : Heap) (entities : list ref)
    (x y radius : Q) : list ref :=
  filter (λ ent, in_circle (heap ent) x y radius = true) entities.

(** Grid states the operations can produce; entities may move between
    two calls, so every step reads its own heap. *)
Inductive reachable : Grid → Prop :=
| reach_create cs : reachable (create cs)
| reach_clear g : reachable g → reachable (clear g)
| reach_insert h g e : reachable g → reachable (insert h g e)
| reach_remove g e : reachable g → reachable (remove g e)
| reach_update h g e : reachable g → reachable (update h g e).

End index.

(** An entity is held by the grid when a bucket or the cell record
    mentions it. *)
Definition holds (grid : Grid) (entity : ref) : Prop :=
  is_Some (entityCells grid !! entity) ∨
  ∃ k bucket, cells grid !! k = Some bucket ∧ entity ∈ bucket.

(** No bucket of the grid is empty. *)
Definition no_empty_bucket (g : Grid) : Prop :=
  ∀ k b, cells g !! k = Some b → b ≠ [].

(** What one turn of [insert] and of [remove] does to the entry of
    its key. *)
Definition add_entry (e : ref) (o : option (list ref)) : option (list ref) :=
  Some (set_add e (default [] o)).

Definition delete_entry (e : ref) (o : option (list ref)) : option (list ref) :=
  match o with
  | Some b => if decide (length (set_delete e b) = 0%nat) then None
              else Some (set_delete e b)
  | None => None
  end.

(** The buckets and the cell records agree: an entity is in the bucket
    of a key exactly when its recorded cell list has that key. *)
Definition consistent (g : Grid) : Prop :=
  ∀ k e, (∃ b, cells g !! k = Some b ∧ e ∈ b) ↔
         (∃ keys, entityCells g !! e = Some keys ∧ k ∈ keys).

End SpatialHash.

(** ** runtime/world/MapGenerator.js *)

Module MapGenerator.
Import JS.
Local Open Scope string_scope.
Local Open Scope list_scope.
Local Open Scope Q_scope.

(** [SeededRandom.js] is imported by the generator and is not among
    the sources; the generator is written against its interface.
    [rng_index n] is the index [pick] reads in an array of length
    [n]. *)
Class SeededRandom := {
  rng : Type;
  rng_new : Z → rng;
  rng_range : Q → Q → rng → Q * rng;
  rng_int : Z → Z → rng → Z * rng;
  rng_index : nat → rng → nat * rng;
  rng_chance : Q → rng → bool * rng
}.

(** The part of the host's [Math] object that is not rational
    arithmetic. *)
Class JSMath := {
  Math_PI : Q;
  Math_cos : Q → Q;
  Math_sin : Q → Q;
  Math_hypot : Q → Q → Q
}.

(** Values of the open-ended properties of generated objects; a nested
    object is flattened into dotted property names. *)
Inductive JsVal :=
| VNull
| VBool (b : bool)
| VNum (q : Q)
| VStr (s : string)
| VStrs (l : list string).

Definition Props := list (string * JsVal).

Definition VOptStr (s : option string) : JsVal :=
  match s with Some s => VStr s | None => VNull end.

Module Point.
Record t := { x : Q; y : Q }.
End Point.

Module EnemySpawn.
Record t := {
  x : Q;
  y : Q;
  type : option string;
  patrol : option string;
  patrolRadius : option Q;
  active : bool;
  killed : bool;
  packId : option string;
  poiId : option string;
  props : Props
}.
End EnemySpawn.

Module EliteSpawn.
Record t := {
  x : Q;
  y : Q;
  type : option string;
  active : bool;
  killed : bool
}.
End EliteSpawn.

Module Obstacle.
Record t := {
  x : Q;
  y : Q;
  type : option string;
  radius : Q;
  rotation : option Q;
  destructible : bool;
  hp : option Q;
  damage : option Q;
  props : Props
}.
End Obstacle.

Module Decoration.
Record t := {
  x : Q;
  y : Q;
  type : option string;
  alpha : Q;
  rotation : Q;
  scale : Q;
  props : Props
}.
End Decoration.

Module Star.
Record t := { x : Q; y : Q; size : Q; brightness : Q; twinkle : bool }.
End Star.

Module Wisp.
Record t := {
  x : Q; y : Q; width : Q; height : Q;
  color : string; alpha : Q; rotation : Q
}.
End Wisp.

Module Parallax.
Record t := {
  background_color : string;
  background_stars : list Star.t;
  background_scrollSpeed : Q;
  midground_stars : list Star.t;
  midground_scrollSpeed : Q;
  foreground_objects : list Wisp.t;
  foreground_scrollSpeed : Q;
  particles_scrollSpeed : Q
}.
End Parallax.

Module POIEnemy.
Record t := {
  x : Q;
  y : Q;
  type : option string;
  patrol : string;
  patrolRadius : Q;
  props : Props
}.
End POIEnemy.

Module POI.
Record t := {
  id : string;
  type : string;
  x : Q;
  y : Q;
  radius : Q;
  icon : string;
  label : string;
  reward : option Props;
  enemies : list POIEnemy.t;
  obstacles : list Obstacle.t;
  triggered : bool;
  cleared : bool;
  collected : bool;
  props : Props
}.
End POI.

Module Objective.
Record t := {
  type : string;
  label : string;
  icon : string;
  desc : string;
  progress : Q;
  target : Q;
  complete : bool;
  exitLocked : bool;
  bonusLoot_scrap : Q;
  bonusLoot_cells : Q;
  generators : list Obstacle.t;
  props : Props
}.
End Objective.

Module BranchType.
Record t := {
  id : string;
  label : string;
  icon : string;
  color : string;
  desc : string;
  modifiers : Z;
  lootMult : Q;
  isVault : bool
}.
End BranchType.

Module BranchExit.
Record t := {
  route : BranchType.t;
  x : Q;
  y : Q;
  radius : Q
}.
End BranchExit.

Module BossSpawn.
Record t := { x : Q; y : Q; type : option string }.
End BossSpawn.

Module Zone.
Record t := {
  seed : Z;
  width : Q;
  height : Q;
  biome : option string;
  isBossZone : bool;
  spawn : Point.t;
  exit : option Point.t;
  enemySpawns : list EnemySpawn.t;
  eliteSpawns : list EliteSpawn.t;
  bossSpawn : option BossSpawn.t;
  obstacles : list Obstacle.t;
  decorations : list Decoration.t;
  parallax : Parallax.t;
  pois : list POI.t;
  resourceNodes : list Obstacle.t;
  objective : option Objective.t;
  branchExits : option (list BranchExit.t)
}.
End Zone.

(** [State.data.config.exploration]: every field may be absent. *)
Module Tune.
Record t := {
  enemyDensityMult : option Q;
  eliteDensityMult : option Q;
  mapScale : option Q;
  maxEnemySpawnsPerZone : option Z;
  enemySpawnMinDistFromSpawn : option Q;
  enemySpawnMinDistFromExit : option Q;
  enemySpawnMinDistBetween : option Q;
  maxEliteSpawnsPerZone : option Z;
  maxObstaclesPerZone : option Z;
  maxDecorationsPerZone : option Z;
  maxStarsBackground : option Q;
  maxStarsMidground : option Q
}.
Definition empty : t :=
  {| enemyDensityMult := None; eliteDensityMult := None; mapScale := None;
     maxEnemySpawnsPerZone := None; enemySpawnMinDistFromSpawn := None;
     enemySpawnMinDistFromExit := None; enemySpawnMinDistBetween := None;
     maxEliteSpawnsPerZone := None; maxObstaclesPerZone := None;
     maxDecorationsPerZone := None; maxStarsBackground := None;
     maxStarsMidground := None |}.
End Tune.

(** [State.data.packs]. *)
Module PackMember.
Record t := { type : option string; min : option Z; max : option Z }.
End PackMember.

Module PackTemplate.
Record t := {
  id : option string;
  weight : option Q;
  members : list PackMember.t;
  types : list string
}.
End PackTemplate.

Module Packs.
Record t := {
  templates : list PackTemplate.t;
  packChance : option Q;
  packSizeMin : option Z;
  packSizeMax : option Z;
  maxPacksPerZone : option Z;
  memberSpacing : option Q;
  minDistFromSpawn : option Q;
  minDistFromExit : option Q
}.
End Packs.

(** The act (tier) configuration handed to [generate]. *)
Inductive RangeSpec :=
| RangeArr (lo hi : Z)
| RangeNum (v : Q)
| RangeNone.

Module GenCfg.
Record t := {
  enemyDensity : option Q;
  eliteDensity : option Q;
  obstacleDensity : option Q;
  width : RangeSpec;
  height : RangeSpec
}.
Definition empty : t :=
  {| enemyDensity := None; eliteDensity := None; obstacleDensity := None;
     width := RangeNone; height := RangeNone |}.
End GenCfg.

Module Nebula.
Record t := { enabled : bool; count : option Z; color : option string }.
End Nebula.

Module BossCfg.
Record t := {
  arenaWidth : option Q;
  arenaHeight : option Q;
  type : option string
}.
End BossCfg.

(** [enemies.pool], [enemies.elitePool], [enemies.bossPool],
    [parallax.bgColor] and [parallax.nebula] are held flat. *)
Module ActConfig.
Record t := {
  generation : option GenCfg.t;
  biome : option string;
  pool : option (list string);
  elitePool : option (list string);
  bossPool : option (list string);
  bgColor : option string;
  nebula : option Nebula.t;
  boss : option BossCfg.t
}.
End ActConfig.

Module Options.
Record t := {
  depth : option Z;
  mods : option (list string);
  difficulty : option string
}.
End Options.

(** The two globals the generator reads. *)
Module State.
Record t := { exploration : Tune.t; packs : option Packs.t }.
End State.

(** A row of the weighted table of resource-node kinds. *)
Module NodeType.
Record t := {
  type : string; glow : string; resource : string; mult : Q
}.
End NodeType.

Section generator.
Context `{SeededRandom} `{JSMath} {fl : Float}.

(** Calls on the generator instance thread its state. *)
Definition Rand (A : Type) : Type := rng → A * rng.

Definition ret {A} (a : A) : Rand A := λ s, (a, s).

Definition bind {A B} (m : Rand A) (f : A → Rand B) : Rand B :=
  λ s, let (a, s') := m s in f a s'.

Notation "x <- m ;; k" := (bind m (λ x, k))
  (at level 20, m at level 99, k at level 200, only parsing).

Definition range (a b : Q) : Rand Q := rng_range a b.
Definition int (a b : Z) : Rand Z := rng_int a b.
Definition chance (p : Q) : Rand bool := rng_chance p.

Definition pick {A} (l : list A) : Rand (option A) :=
  i <- rng_index (length l) ;; ret (l !! i).

(** [for (let i = i0; i < i0 + n; i++) out.push(body(i))]. *)
Fixpoint for_n {A} (n : nat) (i : Z) (body : Z → Rand A) : Rand (list A) :=
  match n with
  | O => ret []
  | S n' =>
      a <- body i ;;
      rest <- for_n n' (i + 1)%Z body ;;
      ret (a :: rest)
  end.

(** [for (let i = 0; i < count; i++) out.push(body(i))]. *)
Definition for_count {A} (count : Z) (body : Z → Rand A) : Rand (list A) :=
  for_n (Z.to_nat count) 0%Z body.

Definition is_str (v : option string) (s : string) : bool :=
  bool_decide (v = Some s).

(** [v || d] on strings: a missing field and [''] are both falsy. *)
Definition str_or (v : option string) (d : string) : string :=
  match v with
  | Some s => if bool_decide (s = EmptyString) then d else s
  | None => d
  end.

(** [v || d] on arrays: only a missing field is falsy. *)
Definition arr_or {A} (v : option (list A)) (d : list A) : list A :=
  default d v.

(** [options.depth || 1]. *)
Definition depth_or (v : option Z) : Z :=
  match v with
  | Some d => if (d =? 0)%Z then 1%Z else d
  | None => 1%Z
  end.

Definition has (mods : list string) (m : string) : bool :=
  bool_decide (m ∈ mods).

Definition Q_of (z : Z) : Q := inject_Z z.

(** [Math.hypot(dx, dy) || 1]. *)
Definition hypot_or_1 (dx dy : Q) : Q :=
  let len := Math_hypot dx dy in
  if Qeq_bool len 0 then 1 else len.

Definition TWO_PI : Q := Math_PI * 2.

(** *** Spawn and exit *)

Definition generateSpawnPoint (w h : Q) : Rand Point.t :=
  edge <- pick ["bottom"; "left"; "right"] ;;
  let margin := 100 in
  if is_str edge "bottom" then
    x <- range margin (w - margin) ;;
    ret {| Point.x := x; Point.y := h - margin |}
  else if is_str edge "left" then
    y <- range margin (h - margin) ;;
    ret {| Point.x := margin; Point.y := y |}
  else if is_str edge "right" then
    y <- range margin (h - margin) ;;
    ret {| Point.x := w - margin; Point.y := y |}
  else
    ret {| Point.x := w / 2; Point.y := h - margin |}.

Definition generateExitPoint (spawn : Point.t) (w h : Q) : Rand Point.t :=
  let margin := 100 in
  if Qlt_bool (h / 2) (Point.y spawn) then
    x <- range margin (w - margin) ;;
    ret {| Point.x := x; Point.y := margin |}
  else if Qlt_bool (Point.x spawn) (w / 2) then
    y <- range margin (h - margin) ;;
    ret {| Point.x := w - margin; Point.y := y |}
  else
    y <- range margin (h - margin) ;;
    ret {| Point.x := margin; Point.y := y |}.

(** *** Enemy spawns *)

Definition too_close (x y minDistBetween : Q) (spawns : list EnemySpawn.t) : bool :=
  existsb (λ s, Qlt_bool (Math_hypot (x - EnemySpawn.x s) (y - EnemySpawn.y s))
                         minDistBetween)
          spawns.

(** The placement loop: [fuel] turns are left of the [count * 3]
    attempts. *)
Fixpoint enemy_spawn_loop (fuel : nat) (pool : list string) (count : Z)
    (w h : Q) (spawn exit : Point.t)
    (minDistFromSpawn minDistFromExit minDistBetween : Q)
    (spawns : list EnemySpawn.t) : Rand (list EnemySpawn.t) :=
  match fuel with
  | O => ret spawns
  | S fuel' =>
      let continue :=
        enemy_spawn_loop fuel' pool count w h spawn exit
          minDistFromSpawn minDistFromExit minDistBetween in
      if (Z.of_nat (length spawns) <? count)%Z then
        x <- range 100 (w - 100) ;;
        y <- range 100 (h - 100) ;;
        let distSpawn := Math_hypot (x - Point.x spawn) (y - Point.y spawn) in
        let distExit := Math_hypot (x - Point.x exit) (y - Point.y exit) in
        if Qlt_bool distSpawn minDistFromSpawn then continue spawns
        else if Qlt_bool distExit minDistFromExit then continue spawns
        else if too_close x y minDistBetween spawns then continue spawns
        else
          type <- pick pool ;;
          patrol <- pick ["static"; "circle"; "line"; "wander"] ;;
          patrolRadius <- int 50 150 ;;
          continue (spawns ++ [
            {| EnemySpawn.x := x;
               EnemySpawn.y := y;
               EnemySpawn.type := type;
               EnemySpawn.patrol := patrol;
               EnemySpawn.patrolRadius := Some (Q_of patrolRadius);
               EnemySpawn.active := false;
               EnemySpawn.killed := false;
               EnemySpawn.packId := None;
               EnemySpawn.poiId := None;
               EnemySpawn.props := [] |}])
      else ret spawns
  end.

Definition generateEnemySpawns (tune : Tune.t) (pool : list string)
    (density w h : Q) (spawn exit : Point.t) : Rand (list EnemySpawn.t) :=
  let maxSpawns := typeof_number (Tune.maxEnemySpawnsPerZone tune) 120%Z in
  let countRaw := Math_floor (w * h * density) in
  let count := Math_maxZ 0 (Math_minZ countRaw maxSpawns) in
  let minDistFromSpawn := typeof_number (Tune.enemySpawnMinDistFromSpawn tune) 300 in
  let minDistFromExit := typeof_number (Tune.enemySpawnMinDistFromExit tune) 200 in
  let minDistBetween := typeof_number (Tune.enemySpawnMinDistBetween tune) 150 in
  enemy_spawn_loop (Z.to_nat (count * 3)) pool count w h spawn exit
    minDistFromSpawn minDistFromExit minDistBetween [].

(** *** Elite spawns *)

Definition generateEliteSpawns (tune : Tune.t) (pool : list string)
    (density w h : Q) : Rand (list EliteSpawn.t) :=
  let maxElites := typeof_number (Tune.maxEliteSpawnsPerZone tune) 8%Z in
  let countRaw := Math_floor (w * h * density) in
  let count := Math_maxZ 1 (Math_minZ countRaw maxElites) in
  for_count count (λ _,
    x <- range 200 (w - 200) ;;
    y <- range 200 (h - 200) ;;
    type <- pick pool ;;
    ret {| EliteSpawn.x := x;
           EliteSpawn.y := y;
           EliteSpawn.type := type;
           EliteSpawn.active := false;
           EliteSpawn.killed := false |}).

(** *** Pack director *)

(** [tmp = idx[i]; idx[i] = idx[j]; idx[j] = tmp].  An index outside
    the array does not occur when [int] keeps to its inclusive
    range; the sparse array JavaScript would build there is not
    modelled and the array is left as it is. *)
Definition swap (i j : nat) (idx : list nat) : list nat :=
  match idx !! i, idx !! j with
  | Some a, Some b => <[j := a]> (<[i := b]> idx)
  | _, _ => idx
  end.

(** [for (let i = idx.length - 1; i > 0; i--)], entered with [i]. *)
Fixpoint shuffle_loop (i : nat) (idx : list nat) : Rand (list nat) :=
  match i with
  | O => ret idx
  | S i' =>
      j <- int 0 (Z.of_nat i) ;;
      shuffle_loop i' (swap i (Z.to_nat j) idx)
  end.

Definition template_weight (t : PackTemplate.t) : Q :=
  typeof_number (PackTemplate.weight t) 1.

Fixpoint pickTemplate_walk (ts : list PackTemplate.t) (r : Q)
  : option PackTemplate.t :=
  match ts with
  | [] => None
  | t :: ts' =>
      let r' := r - template_weight t in
      if Qle_bool r' 0 then Some t else pickTemplate_walk ts' r'
  end.

Definition pickTemplate (templates : list PackTemplate.t)
  : Rand (option PackTemplate.t) :=
  let total := foldl (λ total t, total + template_weight t) 0 templates in
  r <- range 0 total ;;
  ret (match pickTemplate_walk templates r with
       | Some t => Some t
       | None => head templates
       end).

(** [for (const mm of tpl.members)]: the member types accumulated so
    far are threaded through. *)
Fixpoint memberTypes_loop (members : list PackMember.t)
    (memberTypes : list (option string)) : Rand (list (option string)) :=
  match members with
  | [] => ret memberTypes
  | mm :: members' =>
      let mi := typeof_number (PackMember.min mm) 1%Z in
      let ma := typeof_number (PackMember.max mm) mi in
      cnt <- int mi ma ;;
      memberTypes_loop members'
        (memberTypes ++ replicate (Z.to_nat cnt) (PackMember.type mm))
  end.

Definition build_memberTypes (tpl : option PackTemplate.t)
  : Rand (option (list (option string))) :=
  match tpl with
  | Some t =>
      match PackTemplate.members t with
      | [] => ret None
      | members =>
          memberTypes <- memberTypes_loop members [] ;;
          ret (if (length memberTypes <? 1)%nat then None else Some memberTypes)
      end
  | None => ret None
  end.

(** [for (let kk = k + 1; kk < idx.length && consumed < size; kk++)]
    over the indices after position [k]. *)
Fixpoint consume (rest : list nat) (used : list nat) (consumed size : Z)
  : list nat :=
  match rest with
  | [] => used
  | j :: rest' =>
      if (consumed <? size)%Z then
        if bool_decide (j ∈ used) then consume rest' used consumed size
        else consume rest' (set_add j used) (consumed + 1)%Z size
      else used
  end.

(** [!type] on a type tag. *)
Definition no_type (type : option string) : bool :=
  match type with
  | Some s => bool_decide (s = EmptyString)
  | None => true
  end.

Definition pack_member (pool : list string) (spacing : Q)
    (anchor : EnemySpawn.t) (tpl : option PackTemplate.t)
    (memberTypes : option (list (option string))) (size : Z) (m : Z)
  : Rand EnemySpawn.t :=
  angle <- range 0 TWO_PI ;;
  dist <- range 30 spacing ;;
  let px := EnemySpawn.x anchor + Math_cos angle * dist in
  let py := EnemySpawn.y anchor + Math_sin angle * dist in
  type <- match memberTypes with
          | Some mt =>
              if (Z.of_nat (length mt) =? size)%Z
              then ret (mjoin (mt !! Z.to_nat m))
              else match tpl with
                   | Some t =>
                       match PackTemplate.types t with
                       | [] => ret None
                       | types => pick types
                       end
                   | None => ret None
                   end
          | None =>
              match tpl with
              | Some t =>
                  match PackTemplate.types t with
                  | [] => ret None
                  | types => pick types
                  end
              | None => ret None
              end
          end ;;
  type <- (if no_type type then pick pool else ret type) ;;
  ret {| EnemySpawn.x := px;
         EnemySpawn.y := py;
         EnemySpawn.type := type;
         EnemySpawn.patrol := EnemySpawn.patrol anchor;
         EnemySpawn.patrolRadius := EnemySpawn.patrolRadius anchor;
         EnemySpawn.active := false;
         EnemySpawn.killed := false;
         EnemySpawn.packId :=
           Some (str_or (tpl ≫= PackTemplate.id) "pack");
         EnemySpawn.poiId := None;
         EnemySpawn.props := [] |}.

Section pack_loop.
Variables (packsData : Packs.t) (spawns : list EnemySpawn.t)
          (pool : list string) (spawnPt exitPt : Point.t).

Let packChance := typeof_number (Packs.packChance packsData) 0.7.
Let minSize := typeof_number (Packs.packSizeMin packsData) 3%Z.
Let maxSize := typeof_number (Packs.packSizeMax packsData) 5%Z.
Let maxPacksPerZone := typeof_number (Packs.maxPacksPerZone packsData) 6%Z.
Let spacing := typeof_number (Packs.memberSpacing packsData) 120.
Let minDistFromSpawn := typeof_number (Packs.minDistFromSpawn packsData) 350.
Let minDistFromExit := typeof_number (Packs.minDistFromExit packsData) 250.

Definition validAnchor (p : EnemySpawn.t) : bool :=
  let ds := Math_hypot (EnemySpawn.x p - Point.x spawnPt)
                       (EnemySpawn.y p - Point.y spawnPt) in
  let de := Math_hypot (EnemySpawn.x p - Point.x exitPt)
                       (EnemySpawn.y p - Point.y exitPt) in
  Qle_bool minDistFromSpawn ds && Qle_bool minDistFromExit de.

(** [for (let k = 0; k < idx.length && packsMade < maxPacksPerZone; k++)]:
    [rest] is [idx] from position [k] on. *)
Fixpoint pack_loop (rest : list nat) (used : list nat)
    (out : list EnemySpawn.t) (packsMade : Z)
  : Rand (list nat * list EnemySpawn.t) :=
  match rest with
  | [] => ret (used, out)
  | i :: rest' =>
      if (packsMade <? maxPacksPerZone)%Z then
        if bool_decide (i ∈ used) then pack_loop rest' used out packsMade
        else
          match spawns !! i with
          | None => pack_loop rest' used out packsMade
          | Some anchor =>
              if negb (validAnchor anchor)
              then pack_loop rest' used out packsMade
              else
                roll <- range 0 1 ;;
                if Qlt_bool packChance roll
                then pack_loop rest' used out packsMade
                else
                  tpl <- pickTemplate (Packs.templates packsData) ;;
                  memberTypes <- build_memberTypes tpl ;;
                  size <- match memberTypes with
                          | Some mt => ret (Z.of_nat (length mt))
                          | None => int minSize maxSize
                          end ;;
                  let used := set_add i used in
                  let used := consume rest' used 1 size in
                  members <- for_count size
                    (pack_member pool spacing anchor tpl memberTypes size) ;;
                  pack_loop rest' used (out ++ members) (packsMade + 1)%Z
          end
      else ret (used, out)
  end.

Definition applyPackDirector_body : Rand (list EnemySpawn.t) :=
  if (Z.of_nat (length spawns) <? minSize)%Z then ret spawns
  else
    let idx := seq 0 (length spawns) in
    idx <- shuffle_loop (length idx - 1) idx ;;
    r <- pack_loop idx [] [] 0%Z ;;
    let (used, out) := r : list nat * list EnemySpawn.t in
    let singles :=
      omap (λ i, if bool_decide (i ∈ used) then None else spawns !! i)
           (seq 0 (length spawns)) in
    ret (out ++ singles).
End pack_loop.

Definition applyPackDirector (packsData : option Packs.t)
    (spawns : list EnemySpawn.t) (pool : list string)
    (spawnPt exitPt : Point.t) : Rand (list EnemySpawn.t) :=
  match packsData with
  | None => ret spawns
  | Some packsData =>
      match Packs.templates packsData with
      | [] => ret spawns
      | _ => applyPackDirector_body packsData spawns pool spawnPt exitPt
      end
  end.

(** *** Obstacles *)

(** [for (let i = i0; i < i0 + n && cond(acc); i++) acc = body(i, acc)]. *)
Fixpoint for_while {S} (n : nat) (i : Z) (cond : S → bool)
    (body : Z → S → Rand S) (acc : S) : Rand S :=
  match n with
  | O => ret acc
  | S n' =>
      if cond acc then
        acc' <- body i acc ;;
        for_while n' (i + 1)%Z cond body acc'
      else ret acc
  end.

Definition for_acc {S} (count : Z) (body : Z → S → Rand S) (acc : S) : Rand S :=
  for_while (Z.to_nat count) 0%Z (λ _, true) body acc.

Definition wall_asteroid (w h : Q) (budget : Z)
    (baseX baseY jitterX jitterY perpX perpY corridorWidth side : Q)
    (walls : list Obstacle.t) : Rand (list Obstacle.t) :=
  r1 <- range 20 120 ;;
  let offset := corridorWidth * 0.5 + r1 in
  spread <- range (-40) 40 ;;
  r2 <- range (-20) 20 ;;
  let px := baseX + jitterX + perpX * offset * side + r2 in
  r3 <- range (-20) 20 ;;
  let py := baseY + jitterY + perpY * offset * side + r3 in
  if Qlt_bool px 50 || Qlt_bool (w - 50) px
     || Qlt_bool py 50 || Qlt_bool (h - 50) py
  then ret walls
  else
    radius <- int 20 55 ;;
    rotation <- range 0 TWO_PI ;;
    hp <- int 30 60 ;;
    ret (walls ++ [
      {| Obstacle.x := px; Obstacle.y := py;
         Obstacle.type := Some "asteroid";
         Obstacle.radius := Q_of radius;
         Obstacle.rotation := Some rotation;
         Obstacle.destructible := true;
         Obstacle.hp := Some (Q_of hp);
         Obstacle.damage := None;
         Obstacle.props := [] |}]).

Definition wall_segment (w h : Q) (budget : Z) (perCorridor segments : Z)
    (sx sy ex ey corridorWidth : Q) (s : Z)
    (walls : list Obstacle.t) : Rand (list Obstacle.t) :=
  let t := Q_of s / Q_of segments in
  let baseX := sx + (ex - sx) * t in
  let baseY := sy + (ey - sy) * t in
  let dx := ex - sx in
  let dy := ey - sy in
  let len := hypot_or_1 dx dy in
  let perpX := - dy / len in
  let perpY := dx / len in
  jitterX <- range (-80) 80 ;;
  jitterY <- range (-80) 80 ;;
  let asteroidsPerSide :=
    Math_floor (Q_of perCorridor / Q_of segments / 2) in
  let side_loop (side : Q) :=
    for_while (Z.to_nat asteroidsPerSide) 0%Z
      (λ walls, (Z.of_nat (length walls) <? budget)%Z)
      (λ _, wall_asteroid w h budget baseX baseY jitterX jitterY
              perpX perpY corridorWidth side) in
  walls <- side_loop (-1) walls ;;
  side_loop 1 walls.

Definition corridor (w h : Q) (budget perCorridor : Z)
    (walls : list Obstacle.t) : Rand (list Obstacle.t) :=
  startEdge <- pick ["top"; "bottom"; "left"; "right"] ;;
  let m := 150 in
  ends <- (if is_str startEdge "top" then
             sx <- range m (w - m) ;; ex <- range m (w - m) ;;
             ret (sx, m, ex, h - m)
           else if is_str startEdge "bottom" then
             sx <- range m (w - m) ;; ex <- range m (w - m) ;;
             ret (sx, h - m, ex, m)
           else if is_str startEdge "left" then
             sy <- range m (h - m) ;; ey <- range m (h - m) ;;
             ret (m, sy, w - m, ey)
           else
             sy <- range m (h - m) ;; ey <- range m (h - m) ;;
             ret (w - m, sy, m, ey)) ;;
  let '(sx, sy, ex, ey) := ends : Q * Q * Q * Q in
  segments <- int 8 15 ;;
  corridorWidth <- range 100 200 ;;
  for_acc (segments + 1)
    (wall_segment w h budget perCorridor segments sx sy ex ey corridorWidth)
    walls.

(** [Math.floor(budget / corridorCount)]; a zero divisor does not
    occur when [int(2, 4)] keeps to its range. *)
Definition _generateCorridorWalls (w h : Q) (budget : Z)
  : Rand (list Obstacle.t) :=
  corridorCount <- int 2 4 ;;
  let perCorridor := Math_floor (Q_of budget / Q_of corridorCount) in
  for_acc corridorCount (λ _, corridor w h budget perCorridor) [].

Definition mine_damage (type : option string) (depth : Z) : Q :=
  if is_str type "mine"
  then Q_of (8 + Math_floor (Q_of depth * 0.25))
  else 0.

Definition rock_hp (type : option string) : Rand Q :=
  if is_str type "asteroid" then (hp <- int 25 60 ;; ret (Q_of hp))
  else ret (if is_str type "mine" then 6 else 12).

Definition cluster_rock (mods : list string) (depth : Z)
    (cx cy clusterRadius : Q) : Rand Obstacle.t :=
  a <- range 0 TWO_PI ;;
  d <- range 0 clusterRadius ;;
  let typePool :=
    if has mods "MINEFIELD" then ["asteroid"; "debris"; "mine"; "mine"]
    else ["asteroid"; "debris"; "asteroid"] in
  type <- pick typePool ;;
  radius <- (if is_str type "asteroid" then int 20 60 else int 12 25) ;;
  rotation <- range 0 TWO_PI ;;
  hp <- rock_hp type ;;
  ret {| Obstacle.x := cx + Math_cos a * d;
         Obstacle.y := cy + Math_sin a * d;
         Obstacle.type := type;
         Obstacle.radius := Q_of radius;
         Obstacle.rotation := Some rotation;
         Obstacle.destructible := true;
         Obstacle.hp := Some hp;
         Obstacle.damage := Some (mine_damage type depth);
         Obstacle.props := [] |}.

(** The cluster phase threads the obstacle list and [clusterUsed]. *)
Definition cluster (mods : list string) (depth : Z) (w h : Q)
    (clusterBudget : Z) (st : list Obstacle.t * Z)
  : Rand (list Obstacle.t * Z) :=
  cx <- range 200 (w - 200) ;;
  cy <- range 200 (h - 200) ;;
  clusterSize <- int 8 20 ;;
  clusterRadius <- range 80 200 ;;
  for_while (Z.to_nat clusterSize) 0%Z
    (λ st, (st.2 <? clusterBudget)%Z)
    (λ _ st,
       o <- cluster_rock mods depth cx cy clusterRadius ;;
       ret (st.1 ++ [o], (st.2 + 1)%Z))
    st.

Definition scatter_rock (mods : list string) (depth : Z) (w h : Q)
  : Rand Obstacle.t :=
  let typePool :=
    if has mods "MINEFIELD" then ["asteroid"; "debris"; "mine"; "mine"]
    else ["asteroid"; "debris"] in
  type <- pick typePool ;;
  x <- range 100 (w - 100) ;;
  y <- range 100 (h - 100) ;;
  radius <- (if is_str type "asteroid" then int 25 70 else int 15 30) ;;
  rotation <- range 0 TWO_PI ;;
  hp <- rock_hp type ;;
  ret {| Obstacle.x := x;
         Obstacle.y := y;
         Obstacle.type := type;
         Obstacle.radius := Q_of radius;
         Obstacle.rotation := Some rotation;
         Obstacle.destructible := true;
         Obstacle.hp := Some hp;
         Obstacle.damage := Some (mine_damage type depth);
         Obstacle.props := [] |}.

(** The chaos pass over one obstacle: [if (obs.hp) ...; if mine ...]. *)
Definition chaos_scale (obs : Obstacle.t) : Obstacle.t :=
  let hp := match Obstacle.hp obs with
            | Some v => if Qeq_bool v 0 then Some v
                        else Some (Q_of (Math_ceil (v * 2.5)))
            | None => None
            end in
  let mine := is_str (Obstacle.type obs) "mine" in
  {| Obstacle.x := Obstacle.x obs;
     Obstacle.y := Obstacle.y obs;
     Obstacle.type := Obstacle.type obs;
     Obstacle.radius := Obstacle.radius obs;
     Obstacle.rotation := Obstacle.rotation obs;
     Obstacle.destructible := Obstacle.destructible obs;
     Obstacle.hp := hp;
     Obstacle.damage :=
       if mine
       then Some (Q_of (Math_ceil (default 0 (Obstacle.damage obs) * 1.5)))
       else Obstacle.damage obs;
     Obstacle.props :=
       if mine
       then Obstacle.props obs ++ [("hunting", VBool true); ("huntSpeed", VNum 40)]
       else Obstacle.props obs |}.

Definition poison_area (depth : Z) (w h : Q) : Rand Obstacle.t :=
  x <- range 200 (w - 200) ;;
  y <- range 200 (h - 200) ;;
  radius <- int 80 160 ;;
  ret {| Obstacle.x := x;
         Obstacle.y := y;
         Obstacle.type := Some "poison_area";
         Obstacle.radius := Q_of radius;
         Obstacle.rotation := Some 0;
         Obstacle.destructible := false;
         Obstacle.hp := None;
         Obstacle.damage := None;
         Obstacle.props :=
           [("dotDamage", VNum (Q_of (3 + Math_floor (Q_of depth * 0.1))));
            ("glow", VStr "#44ff00")] |}.

Definition generateObstacles (tune : Tune.t) (density w h : Q)
    (options : Options.t) : Rand (list Obstacle.t) :=
  let maxObs := typeof_number (Tune.maxObstaclesPerZone tune) 1200%Z in
  let depth := depth_or (Options.depth options) in
  let mods := arr_or (Options.mods options) [] in
  let countRaw := Math_floor (w * h * density) in
  let budgetTotal := Math_minZ countRaw maxObs in
  let corridorBudget := Math_floor (Q_of budgetTotal * 0.4) in
  corridorObs <- _generateCorridorWalls w h corridorBudget ;;
  let obstacles := corridorObs in
  let clusterBudget := Math_floor (Q_of budgetTotal * 0.3) in
  clusterCount <- int 3 6 ;;
  st <- for_while (Z.to_nat clusterCount) 0%Z
          (λ st : list Obstacle.t * Z, (st.2 <? clusterBudget)%Z)
          (λ _, cluster mods depth w h clusterBudget)
          (obstacles, 0%Z) ;;
  let obstacles := st.1 in
  let scatterBudget := (budgetTotal - Z.of_nat (length obstacles))%Z in
  scattered <- for_count scatterBudget (λ _, scatter_rock mods depth w h) ;;
  let obstacles := obstacles ++ scattered in
  let diff := str_or (Options.difficulty options) "normal" in
  if bool_decide (diff = "chaos") then
    let obstacles := chaos_scale <$> obstacles in
    poisonCount <- int 3 5 ;;
    poison <- for_count poisonCount (λ _, poison_area depth w h) ;;
    ret (obstacles ++ poison)
  else ret obstacles.

Definition generateBossArenaObstacles (w h : Q) : Rand (list Obstacle.t) :=
  pillarCount <- int 2 4 ;;
  for_count pillarCount (λ i,
    let angle := Q_of i / Q_of pillarCount * Math_PI * 2 in
    dist <- range 200 350 ;;
    ret {| Obstacle.x := w / 2 + Math_cos angle * dist;
           Obstacle.y := h / 2 + Math_sin angle * dist;
           Obstacle.type := Some "pillar";
           Obstacle.radius := 40;
           Obstacle.rotation := None;
           Obstacle.destructible := false;
           Obstacle.hp := None;
           Obstacle.damage := None;
           Obstacle.props := [] |}).

(** *** Decorations *)

(** [table[biome] || table['space']] for the three biome tables. *)
Definition by_biome {A} (biome : option string) (space asteroid station : A) : A :=
  if is_str biome "asteroid" then asteroid
  else if is_str biome "station" then station
  else space.

Definition _getLandmarkTypes (biome : option string) : list string :=
  if is_str biome "asteroid" then
    ["rock_formation"; "ice_cluster"; "ancient_marker"; "dead_ship"; "mining_rig"]
  else if is_str biome "station" then
    ["station_hull"; "antenna_array"; "cargo_pod"; "solar_panel"; "dead_ship"]
  else
    ["gas_cloud"; "dead_ship"; "ancient_marker"; "comet_trail"; "beacon_ruins"].

Definition palettes : list (string * list string) :=
  [("star_bright", ["#ffffff"; "#ffffcc"; "#ccddff"]);
   ("star_dim", ["#666688"; "#556677"; "#445566"]);
   ("star_colored", ["#ff8866"; "#66aaff"; "#ffcc44"; "#88ff88"; "#ff66aa"]);
   ("sparkle", ["#ffffff"; "#aaddff"; "#ffddaa"]);
   ("rock_small", ["#667788"; "#556677"; "#445566"]);
   ("rock_tiny", ["#778899"; "#556677"; "#445566"]);
   ("ice_shard", ["#88ccff"; "#aaddff"; "#66bbee"]);
   ("metal_flake", ["#8899aa"; "#99aabb"; "#778899"]);
   ("panel_fragment", ["#556677"; "#667788"; "#445566"]);
   ("wire_coil", ["#887744"; "#776633"; "#665522"]);
   ("light_flicker", ["#ffcc00"; "#ff8800"; "#00aaff"]);
   ("spark", ["#ffdd44"; "#ff8844"; "#ffffff"])].

Definition _getDecoColor (type : option string) (biome : option string)
  : Rand (option string) :=
  let palette :=
    match type with
    | Some t =>
        match list_find (λ p, p.1 = t) palettes with
        | Some (_, (_, colors)) => colors
        | None => ["#888888"]
        end
    | None => ["#888888"]
    end in
  pick palette.

Definition dust_cloud (biome : option string) (w h : Q) : Rand Decoration.t :=
  x <- range 0 w ;;
  y <- range 0 h ;;
  width <- range 400 900 ;;
  height <- range 250 600 ;;
  color <- pick (by_biome biome
                   ["#221144"; "#112244"; "#110033"; "#001122"]
                   ["#332211"; "#221100"; "#1a1a00"; "#112211"]
                   ["#111122"; "#0a0a1a"; "#1a1122"; "#0a1122"]) ;;
  alpha <- range 0.06 0.15 ;;
  rotation <- range 0 TWO_PI ;;
  ret {| Decoration.x := x; Decoration.y := y;
         Decoration.type := Some "dust_cloud";
         Decoration.alpha := alpha;
         Decoration.rotation := rotation;
         Decoration.scale := 1;
         Decoration.props :=
           [("width", VNum width); ("height", VNum height);
            ("color", VOptStr color)] |}.

Definition nebula_patch (biome : option string) (w h : Q) : Rand Decoration.t :=
  x <- range 100 (w - 100) ;;
  y <- range 100 (h - 100) ;;
  radius <- range 150 400 ;;
  color <- pick (by_biome biome
                   ["#4400aa"; "#aa0044"; "#0044aa"; "#006644"]
                   ["#664400"; "#446600"; "#884400"; "#226622"]
                   ["#004488"; "#440088"; "#006688"; "#880044"]) ;;
  alpha <- range 0.04 0.12 ;;
  rotation <- range 0 TWO_PI ;;
  ret {| Decoration.x := x; Decoration.y := y;
         Decoration.type := Some "nebula_patch";
         Decoration.alpha := alpha;
         Decoration.rotation := rotation;
         Decoration.scale := 1;
         Decoration.props :=
           [("radius", VNum radius); ("color", VOptStr color)] |}.

Definition landmark (landmarkTypes : list string) (w h : Q) : Rand Decoration.t :=
  type <- pick landmarkTypes ;;
  x <- range 200 (w - 200) ;;
  y <- range 200 (h - 200) ;;
  scale <- range 0.7 1.5 ;;
  rotation <- range 0 TWO_PI ;;
  alpha <- range 0.4 0.8 ;;
  variant <- int 0 3 ;;
  ret {| Decoration.x := x; Decoration.y := y;
         Decoration.type := type;
         Decoration.alpha := alpha;
         Decoration.rotation := rotation;
         Decoration.scale := scale;
         Decoration.props := [("variant", VNum (Q_of variant))] |}.

(** [type.includes('dim')]: of the small types only ['star_dim']
    contains it. *)
Definition includes_dim (type : option string) : bool :=
  is_str type "star_dim".

Definition small_decoration (smallPool : list string) (biome : option string)
    (w h : Q) : Rand Decoration.t :=
  type <- pick smallPool ;;
  x <- range 0 w ;;
  y <- range 0 h ;;
  scale <- range 0.3 1.2 ;;
  rotation <- range 0 TWO_PI ;;
  alpha <- (if includes_dim type then range 0.15 0.4 else range 0.4 0.9) ;;
  color <- _getDecoColor type biome ;;
  size <- range 1 4 ;;
  ret {| Decoration.x := x; Decoration.y := y;
         Decoration.type := type;
         Decoration.alpha := alpha;
         Decoration.rotation := rotation;
         Decoration.scale := scale;
         Decoration.props :=
           [("color", VOptStr color); ("size", VNum size)] |}.

Definition generateDecorations (tune : Tune.t) (biome : option string)
    (w h : Q) : Rand (list Decoration.t) :=
  let maxDec := typeof_number (Tune.maxDecorationsPerZone tune) 3000%Z in
  dustCount <- int 4 8 ;;
  dust <- for_count dustCount (λ _, dust_cloud biome w h) ;;
  let decorations := dust in
  nebulaCount <- int 2 5 ;;
  nebulae <- for_count nebulaCount (λ _, nebula_patch biome w h) ;;
  let decorations := decorations ++ nebulae in
  landmarkCount <- int 3 6 ;;
  let landmarkTypes := _getLandmarkTypes biome in
  landmarks <- for_count landmarkCount (λ _, landmark landmarkTypes w h) ;;
  let decorations := decorations ++ landmarks in
  let smallPool :=
    by_biome biome
      ["star_bright"; "star_dim"; "star_colored"; "sparkle"]
      ["rock_small"; "rock_tiny"; "ice_shard"; "metal_flake"]
      ["panel_fragment"; "wire_coil"; "light_flicker"; "spark"] in
  let smallCount :=
    Math_minZ (maxDec - Z.of_nat (length decorations))
              (Math_floor (w * h * 0.0004)) in
  small <- for_count smallCount (λ _, small_decoration smallPool biome w h) ;;
  ret (decorations ++ small).

(** *** Parallax *)

Definition generateStarfield (w h density : Q) (maxCount : Q)
  : Rand (list Star.t) :=
  let countRaw := Math_floor (w ⊗ h ⊗ density) in
  let cap := if Qlt_bool 0 maxCount then Some (Math_floor maxCount) else None in
  let count := match cap with
               | Some c => if (c =? 0)%Z then countRaw else Math_minZ countRaw c
               | None => countRaw
               end in
  for_count count (λ _,
    x <- range 0 w ;;
    y <- range 0 h ;;
    size <- range 0.5 2 ;;
    brightness <- range 0.3 1 ;;
    twinkle <- chance 0.3 ;;
    ret {| Star.x := x; Star.y := y; Star.size := size;
           Star.brightness := brightness; Star.twinkle := twinkle |}).

Definition generateNebulaWisps (w h : Q) (nebulaConfig : option Nebula.t)
  : Rand (list Wisp.t) :=
  match nebulaConfig with
  | None => ret []
  | Some cfg =>
      if negb (Nebula.enabled cfg) then ret []
      else
        count <- match Nebula.count cfg with
                 | Some c => if (c =? 0)%Z then int 3 8 else ret c
                 | None => int 3 8
                 end ;;
        let color := str_or (Nebula.color cfg) "#4400aa" in
        for_count count (λ _,
          x <- range 0 w ;;
          y <- range 0 h ;;
          width <- range 200 500 ;;
          height <- range 100 300 ;;
          alpha <- range 0.05 0.15 ;;
          rotation <- range 0 TWO_PI ;;
          ret {| Wisp.x := x; Wisp.y := y;
                 Wisp.width := width; Wisp.height := height;
                 Wisp.color := color; Wisp.alpha := alpha;
                 Wisp.rotation := rotation |})
  end.

Definition generateParallax (tune : Tune.t) (actConfig : ActConfig.t)
    (w h : Q) : Rand Parallax.t :=
  let maxBgStars := typeof_number (Tune.maxStarsBackground tune) 1800 in
  let maxMidStars := typeof_number (Tune.maxStarsMidground tune) 1200 in
  bg <- generateStarfield (w ⊗ 1.5) (h ⊗ 1.5) (round 0.0003) maxBgStars ;;
  mid <- generateStarfield (w ⊗ round 1.3) (h ⊗ round 1.3) (round 0.0002)
           maxMidStars ;;
  wisps <- generateNebulaWisps w h (ActConfig.nebula actConfig) ;;
  ret {| Parallax.background_color :=
           str_or (ActConfig.bgColor actConfig) "#0a0a15";
         Parallax.background_stars := bg;
         Parallax.background_scrollSpeed := 0.1;
         Parallax.midground_stars := mid;
         Parallax.midground_scrollSpeed := 0.3;
         Parallax.foreground_objects := wisps;
         Parallax.foreground_scrollSpeed := 0.6;
         Parallax.particles_scrollSpeed := 0.9 |}.

(** *** Points of interest *)

Definition _generatePathPoints (spawn exit : Point.t) (w h : Q) (count : Z)
  : Rand (list Point.t) :=
  let margin := 200 in
  for_count count (λ i,
    let t := Q_of (i + 1) / Q_of (count + 1) in
    let baseX := Point.x spawn + (Point.x exit - Point.x spawn) * t in
    let baseY := Point.y spawn + (Point.y exit - Point.y spawn) * t in
    let perpX := - (Point.y exit - Point.y spawn) in
    let perpY := Point.x exit - Point.x spawn in
    let perpLen := hypot_or_1 perpX perpY in
    let maxOffset := Math_min w h * 0.3 in
    offset <- range (- maxOffset) maxOffset ;;
    let x := baseX + (perpX / perpLen) * offset in
    let y := baseY + (perpY / perpLen) * offset in
    let x := Math_max margin (Math_min (w - margin) x) in
    let y := Math_max margin (Math_min (h - margin) y) in
    ret {| Point.x := x; Point.y := y |}).

Definition _getPOITypesForTier (depth : Z) : list string :=
  ["guard_post"; "treasure_cache"; "ore_deposit"]
  ++ (if (5 <=? depth)%Z then ["ambush_zone"; "salvage_wreck"] else [])
  ++ (if (10 <=? depth)%Z then ["elite_den"; "crystal_cavern"] else [])
  ++ (if (20 <=? depth)%Z then ["defense_beacon"; "void_rift"] else [])
  ++ (if (50 <=? depth)%Z then ["ancient_vault"] else []).

(** [for (let i = 0; i < rng.int(lo, hi); i++)]: the bound is drawn
    again before every turn.  [fuel] counts the tests left; [hi + 1]
    of them are enough when [int] keeps to its inclusive range. *)
Fixpoint for_int_bound {S} (fuel : nat) (i lo hi : Z)
    (body : Z → S → Rand S) (acc : S) : Rand S :=
  match fuel with
  | O => ret acc
  | S fuel' =>
      n <- int lo hi ;;
      if (i <? n)%Z then
        acc' <- body i acc ;;
        for_int_bound fuel' (i + 1)%Z lo hi body acc'
      else ret acc
  end.

Definition for_redrawn {S} (lo hi : Z) (body : Z → S → Rand S) (acc : S)
  : Rand S :=
  for_int_bound (Z.to_nat (hi + 1)) 0%Z lo hi body acc.

Definition poi_enemy (x y : Q) (type : option string) (patrol : string)
    (patrolRadius : Q) (props : Props) : POIEnemy.t :=
  {| POIEnemy.x := x; POIEnemy.y := y; POIEnemy.type := type;
     POIEnemy.patrol := patrol; POIEnemy.patrolRadius := patrolRadius;
     POIEnemy.props := props |}.

(** An obstacle of a POI recipe: destructible, with hit points and a
    rotation. *)
Definition poi_obstacle (x y : Q) (type : string) (radius hp rotation : Q)
    (props : Props) : Obstacle.t :=
  {| Obstacle.x := x; Obstacle.y := y; Obstacle.type := Some type;
     Obstacle.radius := radius; Obstacle.rotation := Some rotation;
     Obstacle.destructible := true; Obstacle.hp := Some hp;
     Obstacle.damage := None; Obstacle.props := props |}.

Definition poi (id type : string) (cx cy radius : Q) (icon label : string)
    (reward : option Props) (enemies : list POIEnemy.t)
    (obstacles : list Obstacle.t) (triggered cleared : bool) (props : Props)
  : POI.t :=
  {| POI.id := id; POI.type := type; POI.x := cx; POI.y := cy;
     POI.radius := radius; POI.icon := icon; POI.label := label;
     POI.reward := reward; POI.enemies := enemies;
     POI.obstacles := obstacles; POI.triggered := triggered;
     POI.cleared := cleared; POI.collected := false; POI.props := props |}.

(** Icon glyphs are presentation only and are written by name. *)
Definition _createPOI (type : option string) (cx cy : Q) (depth : Z)
    (actConfig : ActConfig.t) (index : Z) : Rand (option POI.t) :=
  let pool := arr_or (ActConfig.pool actConfig) ["grunt"] in
  let elitePool := arr_or (ActConfig.elitePool actConfig) ["commander"] in
  let id := "poi_" +:+ pretty index +:+ "_" +:+ default "undefined" type in
  if is_str type "guard_post" then
    guardCount <- int 4 6 ;;
    radius <- int 100 160 ;;
    enemies <- for_count guardCount (λ i,
      let a := Q_of i / Q_of guardCount * Math_PI * 2 in
      type <- pick pool ;;
      ret (poi_enemy (cx + Math_cos a * Q_of radius)
                     (cy + Math_sin a * Q_of radius) type "circle" 40 [])) ;;
    obstacles <- for_count 3 (λ _,
      a <- range 0 TWO_PI ;;
      r <- int 20 35 ;;
      rotation <- range 0 TWO_PI ;;
      ret (poi_obstacle (cx + Math_cos a * (Q_of radius * 0.5))
                        (cy + Math_sin a * (Q_of radius * 0.5))
                        "debris" (Q_of r) 20 rotation [])) ;;
    scrap <- int 15 40 ;;
    ret (Some (poi id "guard_post" cx cy (Q_of radius + 80)
                 "package" "Guarded Cache"
                 (Some [("type", VStr "loot_cache");
                        ("rarity", VStr (if (20 <? depth)%Z then "rare" else "uncommon"));
                        ("scrap", VNum (Q_of scrap))])
                 enemies obstacles false false []))
  else if is_str type "treasure_cache" then
    hasGuard <- chance 0.4 ;;
    enemies <- (if hasGuard : bool then
                  dx <- range (-60) 60 ;;
                  dy <- range (-60) 60 ;;
                  type <- pick pool ;;
                  ret [poi_enemy (cx + dx) (cy + dy) type "static" 30 []]
                else ret []) ;;
    epic <- chance 0.15 ;;
    scrap <- int 8 20 ;;
    ret (Some (poi id "treasure_cache" cx cy 80 "gem" "Hidden Cache"
                 (Some [("type", VStr "loot_cache");
                        ("rarity", VStr (if epic : bool then "epic" else "rare"));
                        ("scrap", VNum (Q_of scrap))])
                 enemies [] false (negb hasGuard) []))
  else if is_str type "ambush_zone" then
    count <- int 5 8 ;;
    enemies <- for_count count (λ _,
      a <- range 0 TWO_PI ;;
      d <- range 80 200 ;;
      type <- pick pool ;;
      ambushDelay <- range 0.2 1.5 ;;
      ret (poi_enemy (cx + Math_cos a * d) (cy + Math_sin a * d)
                     type "wander" 60
                     [("ambush", VBool true); ("ambushDelay", VNum ambushDelay)])) ;;
    value <- int 20 50 ;;
    scrap <- int 20 50 ;;
    ret (Some (poi id "ambush_zone" cx cy 250 "warning" "Danger Zone"
                 (Some [("type", VStr "cells");
                        ("value", VNum (Q_of value));
                        ("scrap", VNum (Q_of scrap))])
                 enemies [] false false [("hidden", VBool true)]))
  else if is_str type "elite_den" then
    eliteType <- pick elitePool ;;
    let elite := poi_enemy cx cy eliteType "circle" 80 [("isElite", VBool true)] in
    minionCount <- int 2 3 ;;
    minions <- for_count minionCount (λ _,
      a <- range 0 TWO_PI ;;
      type <- pick pool ;;
      ret (poi_enemy (cx + Math_cos a * 120) (cy + Math_sin a * 120)
                     type "circle" 50 [])) ;;
    wallCount <- int 4 6 ;;
    obstacles <- for_count wallCount (λ i,
      j <- range (-0.3) 0.3 ;;
      let a := Q_of i / Q_of wallCount * Math_PI * 2 + j in
      r <- int 35 55 ;;
      rotation <- range 0 TWO_PI ;;
      ret (poi_obstacle (cx + Math_cos a * 200) (cy + Math_sin a * 200)
                        "asteroid" (Q_of r) 40 rotation [])) ;;
    scrap <- int 30 60 ;;
    cells <- int 15 30 ;;
    ret (Some (poi id "elite_den" cx cy 220 "skull" "Elite Den"
                 (Some [("type", VStr "loot_cache");
                        ("rarity", VStr "epic");
                        ("scrap", VNum (Q_of scrap));
                        ("cells", VNum (Q_of cells))])
                 (elite :: minions) obstacles false false []))
  else if is_str type "ore_deposit" then
    nodeCount <- int 3 5 ;;
    obstacles <- for_count nodeCount (λ _,
      a <- range 0 TWO_PI ;;
      d <- range 30 100 ;;
      r <- int 25 50 ;;
      hp <- int 30 60 ;;
      rotation <- range 0 TWO_PI ;;
      ret (poi_obstacle (cx + Math_cos a * d) (cy + Math_sin a * d)
                        "ore_rich" (Q_of r) (Q_of hp) rotation
                        [("resourceType", VStr "scrap");
                         ("resourceMult", VNum 3);
                         ("glow", VStr "#ffaa00")])) ;;
    ret (Some (poi id "ore_deposit" cx cy 150 "pick" "Ore Deposit"
                 None [] obstacles true true []))
  else if is_str type "crystal_cavern" then
    nodeCount <- int 3 4 ;;
    obstacles <- for_count nodeCount (λ i,
      j <- range (-0.4) 0.4 ;;
      let a := Q_of i / Q_of nodeCount * Math_PI * 2 + j in
      d <- range 40 90 ;;
      r <- int 20 40 ;;
      hp <- int 20 45 ;;
      rotation <- range 0 TWO_PI ;;
      ret (poi_obstacle (cx + Math_cos a * d) (cy + Math_sin a * d)
                        "crystal_node" (Q_of r) (Q_of hp) rotation
                        [("resourceType", VStr "cells");
                         ("resourceMult", VNum 4);
                         ("glow", VStr "#00aaff");
                         ("voidShardChance",
                          VNum (if (30 <=? depth)%Z then 0.15 else 0.05))])) ;;
    guarded <- chance 0.5 ;;
    enemies <- (if guarded : bool then
                  dx <- range (-80) 80 ;;
                  dy <- range (-80) 80 ;;
                  type <- pick pool ;;
                  ret [poi_enemy (cx + dx) (cy + dy) type "circle" 60 []]
                else ret []) ;;
    ret (Some (poi id "crystal_cavern" cx cy 140 "blue_diamond" "Crystal Cavern"
                 None enemies obstacles true
                 (bool_decide (length enemies = 0%nat)) []))
  else if is_str type "salvage_wreck" then
    r <- int 40 65 ;;
    hp <- int 50 90 ;;
    rotation <- range 0 TWO_PI ;;
    let hull := poi_obstacle cx cy "salvage_wreck" (Q_of r) (Q_of hp) rotation
                  [("resourceType", VStr "mixed");
                   ("resourceMult", VNum 2);
                   ("glow", VStr "#88ff44");
                   ("itemChance", VNum 0.3)] in
    obstacles <- for_redrawn 2 4 (λ _ obstacles,
      a <- range 0 TWO_PI ;;
      dx <- range 60 120 ;;
      dy <- range 60 120 ;;
      r <- int 15 30 ;;
      rotation <- range 0 TWO_PI ;;
      ret (obstacles ++ [poi_obstacle (cx + Math_cos a * dx) (cy + Math_sin a * dy)
                                      "debris" (Q_of r) 12 rotation []]))
      [hull] ;;
    ret (Some (poi id "salvage_wreck" cx cy 150 "wrench" "Salvage Wreck"
                 None [] obstacles true true []))
  else if is_str type "defense_beacon" then
    cells <- int 30 60 ;;
    count <- int 2 3 ;;
    enemiesPerWave <- int 4 7 ;;
    ret (Some (poi id "defense_beacon" cx cy 120 "satellite" "Defense Beacon"
                 (Some [("type", VStr "loot_cache");
                        ("rarity", VStr (if (40 <? depth)%Z then "legendary" else "epic"));
                        ("cells", VNum (Q_of cells))])
                 [] [] false false
                 [("interactable", VBool true);
                  ("interactPrompt", VStr "Press E to activate beacon");
                  ("waveConfig.count", VNum (Q_of count));
                  ("waveConfig.enemiesPerWave", VNum (Q_of enemiesPerWave));
                  ("waveConfig.pool", VStrs pool)]))
  else if is_str type "void_rift" then
    nodeCount <- int 2 3 ;;
    obstacles <- for_count nodeCount (λ _,
      a <- range 0 TWO_PI ;;
      d <- range 30 80 ;;
      r <- int 20 35 ;;
      hp <- int 40 70 ;;
      rotation <- range 0 TWO_PI ;;
      ret (poi_obstacle (cx + Math_cos a * d) (cy + Math_sin a * d)
                        "void_crystal" (Q_of r) (Q_of hp) rotation
                        [("resourceType", VStr "voidShard");
                         ("resourceMult", VNum 1);
                         ("glow", VStr "#aa55ff");
                         ("cosmicDustChance", VNum 0.10)])) ;;
    enemies <- for_redrawn 2 4 (λ _ enemies,
      a <- range 0 TWO_PI ;;
      type <- pick pool ;;
      ret (enemies ++ [poi_enemy (cx + Math_cos a * 180) (cy + Math_sin a * 180)
                                 type "wander" 100 []]))
      [] ;;
    ret (Some (poi id "void_rift" cx cy 200 "cyclone" "Void Rift"
                 None enemies obstacles false false []))
  else if is_str type "ancient_vault" then
    elites <- for_count 2 (λ i,
      let a := (if (i =? 0)%Z then -1 else 1) * Math_PI * 0.3 in
      type <- pick elitePool ;;
      ret (poi_enemy (cx + Math_cos a * 150) (cy + Math_sin a * 150)
                     type "circle" 80 [("isElite", VBool true)])) ;;
    enemies <- for_redrawn 4 6 (λ _ enemies,
      a <- range 0 TWO_PI ;;
      dx <- range 100 250 ;;
      dy <- range 100 250 ;;
      type <- pick pool ;;
      ret (enemies ++ [poi_enemy (cx + Math_cos a * dx) (cy + Math_sin a * dy)
                                 type "wander" 80 []]))
      elites ;;
    obstacles <- for_count 8 (λ i,
      let a := Q_of i / 8 * Math_PI * 2 in
      r <- int 40 60 ;;
      rotation <- range 0 TWO_PI ;;
      ret (poi_obstacle (cx + Math_cos a * 280) (cy + Math_sin a * 280)
                        "asteroid" (Q_of r) 60 rotation [])) ;;
    scrap <- int 50 100 ;;
    cells <- int 30 60 ;;
    voidShards <- int 1 3 ;;
    ret (Some (poi id "ancient_vault" cx cy 300 "temple" "Ancient Vault"
                 (Some [("type", VStr "loot_cache");
                        ("rarity", VStr "legendary");
                        ("scrap", VNum (Q_of scrap));
                        ("cells", VNum (Q_of cells));
                        ("voidShards", VNum (Q_of voidShards))])
                 enemies obstacles false false []))
  else ret None.

(** [{ ...e, poiId: poi.id, active: false, killed: false }]. *)
Definition poi_spawn (poi : POI.t) (e : POIEnemy.t) : EnemySpawn.t :=
  {| EnemySpawn.x := POIEnemy.x e;
     EnemySpawn.y := POIEnemy.y e;
     EnemySpawn.type := POIEnemy.type e;
     EnemySpawn.patrol := Some (POIEnemy.patrol e);
     EnemySpawn.patrolRadius := Some (POIEnemy.patrolRadius e);
     EnemySpawn.active := false;
     EnemySpawn.killed := false;
     EnemySpawn.packId := None;
     EnemySpawn.poiId := Some (POI.id poi);
     EnemySpawn.props := POIEnemy.props e |}.

(** Writes to the fields of the zone under construction. *)
Definition set_lists (zone : Zone.t) (enemySpawns : list EnemySpawn.t)
    (obstacles : list Obstacle.t) : Zone.t :=
  {| Zone.seed := Zone.seed zone;
     Zone.width := Zone.width zone;
     Zone.height := Zone.height zone;
     Zone.biome := Zone.biome zone;
     Zone.isBossZone := Zone.isBossZone zone;
     Zone.spawn := Zone.spawn zone;
     Zone.exit := Zone.exit zone;
     Zone.enemySpawns := enemySpawns;
     Zone.eliteSpawns := Zone.eliteSpawns zone;
     Zone.bossSpawn := Zone.bossSpawn zone;
     Zone.obstacles := obstacles;
     Zone.decorations := Zone.decorations zone;
     Zone.parallax := Zone.parallax zone;
     Zone.pois := Zone.pois zone;
     Zone.resourceNodes := Zone.resourceNodes zone;
     Zone.objective := Zone.objective zone;
     Zone.branchExits := Zone.branchExits zone |}.

Definition push_obstacles (zone : Zone.t) (os : list Obstacle.t) : Zone.t :=
  set_lists zone (Zone.enemySpawns zone) (Zone.obstacles zone ++ os).

Definition push_enemySpawns (zone : Zone.t) (es : list EnemySpawn.t) : Zone.t :=
  set_lists zone (Zone.enemySpawns zone ++ es) (Zone.obstacles zone).

Definition set_results (zone : Zone.t) (pois : list POI.t)
    (resourceNodes : list Obstacle.t) (objective : option Objective.t)
    (branchExits : option (list BranchExit.t)) : Zone.t :=
  {| Zone.seed := Zone.seed zone;
     Zone.width := Zone.width zone;
     Zone.height := Zone.height zone;
     Zone.biome := Zone.biome zone;
     Zone.isBossZone := Zone.isBossZone zone;
     Zone.spawn := Zone.spawn zone;
     Zone.exit := Zone.exit zone;
     Zone.enemySpawns := Zone.enemySpawns zone;
     Zone.eliteSpawns := Zone.eliteSpawns zone;
     Zone.bossSpawn := Zone.bossSpawn zone;
     Zone.obstacles := Zone.obstacles zone;
     Zone.decorations := Zone.decorations zone;
     Zone.parallax := Zone.parallax zone;
     Zone.pois := pois;
     Zone.resourceNodes := resourceNodes;
     Zone.objective := objective;
     Zone.branchExits := branchExits |}.

(** [zone.exit] as the generator reads it once [generate] has set
    it; reading it while it is still [null] is not modelled. *)
Definition exit_of (zone : Zone.t) : Point.t :=
  default {| Point.x := 0; Point.y := 0 |} (Zone.exit zone).

(** The loop of [generatePOIs] over the way-points; the zone and the
    POI list are threaded through. *)
Fixpoint poi_loop (pathPoints : list Point.t) (i : Z) (tierPOIs : list string)
    (depth : Z) (actConfig : ActConfig.t) (st : list POI.t * Zone.t)
  : Rand (list POI.t * Zone.t) :=
  match pathPoints with
  | [] => ret st
  | pt :: pathPoints' =>
      poiType <- pick tierPOIs ;;
      poi <- _createPOI poiType (Point.x pt) (Point.y pt) depth actConfig i ;;
      let st' :=
        match poi with
        | Some poi =>
            let zone := push_enemySpawns st.2 (poi_spawn poi <$> POI.enemies poi) in
            let zone := push_obstacles zone (POI.obstacles poi) in
            (st.1 ++ [poi], zone)
        | None => st
        end in
      poi_loop pathPoints' (i + 1)%Z tierPOIs depth actConfig st'
  end.

Definition generatePOIs (zone : Zone.t) (actConfig : ActConfig.t)
    (options : Options.t) : Rand (list POI.t * Zone.t) :=
  let depth := depth_or (Options.depth options) in
  let w := Zone.width zone in
  let h := Zone.height zone in
  let spawn := Zone.spawn zone in
  let exit := exit_of zone in
  let area := w * h in
  let basePOIs := Math_maxZ 2 (Math_floor (area / 15000000) + 1) in
  let depthBonus := (depth / 15)%Z in
  let maxPOIs := Math_minZ 7 (basePOIs + depthBonus) in
  poiCount <- int (Math_maxZ 2 (maxPOIs - 1)) maxPOIs ;;
  pathPoints <- _generatePathPoints spawn exit w h poiCount ;;
  let tierPOIs := _getPOITypesForTier depth in
  poi_loop pathPoints 0%Z tierPOIs depth actConfig ([], zone).

(** *** Resource nodes *)

(** [for (const o of table) { roll -= o.weight; if (roll <= 0) ... }]. *)
Fixpoint weighted_walk {A} (table : list (A * Q)) (roll : Q) : option A :=
  match table with
  | [] => None
  | (a, weight) :: table' =>
      let roll' := roll - weight in
      if Qle_bool roll' 0 then Some a else weighted_walk table' roll'
  end.

Definition total_weight {A} (table : list (A * Q)) : Q :=
  foldl (λ s o, s + o.2) 0 table.

Definition nodeTypes (depth : Z) : list (NodeType.t * Q) :=
  [({| NodeType.type := "ore_rich"; NodeType.glow := "#ffaa00";
       NodeType.resource := "scrap"; NodeType.mult := 3 |}, 50);
   ({| NodeType.type := "crystal_node"; NodeType.glow := "#00aaff";
       NodeType.resource := "cells"; NodeType.mult := 3 |}, 25)]
  ++ (if (30 <=? depth)%Z then
        [({| NodeType.type := "void_crystal"; NodeType.glow := "#aa55ff";
             NodeType.resource := "voidShard"; NodeType.mult := 1 |}, 10)]
      else []).

(** [for (let attempt = 0; attempt < 20; attempt++)]. *)
Fixpoint node_position (attempts : nat) (w h : Q) (spawn exit : Point.t)
  : Rand (option (Q * Q)) :=
  match attempts with
  | O => ret None
  | S attempts' =>
      x <- range 150 (w - 150) ;;
      y <- range 150 (h - 150) ;;
      if Qlt_bool (Math_hypot (x - Point.x spawn) (y - Point.y spawn)) 300
      then node_position attempts' w h spawn exit
      else if Qlt_bool (Math_hypot (x - Point.x exit) (y - Point.y exit)) 200
      then node_position attempts' w h spawn exit
      else ret (Some (x, y))
  end.

Definition resource_node (depth : Z) (w h : Q) (spawn exit : Point.t)
  : Rand (option Obstacle.t) :=
  pos <- node_position 20 w h spawn exit ;;
  match pos with
  | None => ret None
  | Some (x, y) =>
      let table := nodeTypes depth in
      roll <- range 0 (total_weight table) ;;
      match (match weighted_walk table roll with
             | Some nt => Some nt
             | None => fst <$> head table
             end) with
      | None => ret None
      | Some picked =>
          radius <- int 25 50 ;;
          hp <- int 25 55 ;;
          rotation <- range 0 TWO_PI ;;
          let type := NodeType.type picked in
          ret (Some
            {| Obstacle.x := x; Obstacle.y := y;
               Obstacle.type := Some type;
               Obstacle.radius := Q_of radius;
               Obstacle.rotation := Some rotation;
               Obstacle.destructible := true;
               Obstacle.hp := Some (Q_of hp);
               Obstacle.damage := None;
               Obstacle.props :=
                 [("resourceType", VStr (NodeType.resource picked));
                  ("resourceMult", VNum (NodeType.mult picked));
                  ("glow", VStr (NodeType.glow picked))]
                 ++ (if bool_decide (type = "crystal_node")
                     then [("voidShardChance",
                            VNum (if (30 <=? depth)%Z then 0.12 else 0.03))]
                     else [])
                 ++ (if bool_decide (type = "void_crystal")
                     then [("cosmicDustChance", VNum 0.08)]
                     else []) |})
      end
  end.

Definition generateResourceNodes (zone : Zone.t) (actConfig : ActConfig.t)
    (options : Options.t) : Rand (list Obstacle.t * Zone.t) :=
  let depth := depth_or (Options.depth options) in
  let w := Zone.width zone in
  let h := Zone.height zone in
  count <- int 3 (Math_minZ 6 (3 + depth / 15)) ;;
  made <- for_count count (λ _,
            resource_node depth w h (Zone.spawn zone) (exit_of zone)) ;;
  let nodes := omap id made in
  ret (nodes, push_obstacles zone nodes).

(** *** Objective *)

Definition objectives (depth : Z) : list (string * Q) :=
  let gated w := if (depth <? 5)%Z then 0 else w in
  [("exterminate", 30);
   ("survival", gated 20);
   ("timetrial", 15);
   ("corruption", gated 15);
   ("lockdown", 20)].

Definition objective (type label icon desc : string) (target : Q)
    (exitLocked : bool) (scrap cells : Z) (generators : list Obstacle.t)
    (props : Props) : Objective.t :=
  {| Objective.type := type; Objective.label := label;
     Objective.icon := icon; Objective.desc := desc;
     Objective.progress := 0; Objective.target := target;
     Objective.complete := false; Objective.exitLocked := exitLocked;
     Objective.bonusLoot_scrap := Q_of scrap;
     Objective.bonusLoot_cells := Q_of cells;
     Objective.generators := generators; Objective.props := props |}.

Definition generator (zone : Zone.t) (depth : Z) (i : Z) : Rand Obstacle.t :=
  let genCount := 3 in
  j <- range (-0.4) 0.4 ;;
  let a := Q_of i / genCount * Math_PI * 2 + j in
  let dist := Math_min (Zone.width zone) (Zone.height zone) * 0.3 in
  let gx := Zone.width zone / 2 + Math_cos a * dist in
  let gy := Zone.height zone / 2 + Math_sin a * dist in
  ret {| Obstacle.x := gx; Obstacle.y := gy;
         Obstacle.type := Some "generator";
         Obstacle.radius := 30;
         Obstacle.rotation := Some 0;
         Obstacle.destructible := true;
         Obstacle.hp := Some (Q_of (50 + depth * 5));
         Obstacle.damage := None;
         Obstacle.props :=
           [("glow", VStr "#ff4444"); ("isGenerator", VBool true)] |}.

Definition generateObjective (zone : Zone.t) (depth : Z)
  : Rand (option Objective.t * Zone.t) :=
  if (depth <=? 2)%Z then ret (None, zone)
  else
    let table := objectives depth in
    let totalW := total_weight table in
    roll <- range 0 totalW ;;
    let picked := match weighted_walk table roll with
                  | Some type => Some type
                  | None => fst <$> head table
                  end in
    if is_str picked "exterminate" then
      let total := Z.of_nat (length (Zone.enemySpawns zone)
                             + length (Zone.eliteSpawns zone)) in
      let target := Math_maxZ 5 (Math_floor (Q_of total * 0.8)) in
      ret (Some (objective "exterminate" "EXTERMINATE" "skull"
                   ("Kill " +:+ pretty target +:+ " enemies to unlock the exit")
                   (Q_of target) true
                   (30 + depth * 5) (10 + depth * 2) [] []),
           zone)
    else if is_str picked "survival" then
      let duration := (30 + Math_minZ depth 50)%Z in
      ret (Some (objective "survival" "SURVIVE" "stopwatch"
                   ("Survive " +:+ pretty duration +:+ "s in the arena zone")
                   (Q_of duration) true
                   (40 + depth * 6) (15 + depth * 3) []
                   [("arenaCenter.x", VNum (Zone.width zone / 2));
                    ("arenaCenter.y", VNum (Zone.height zone / 2));
                    ("arenaRadius", VNum 400)]),
           zone)
    else if is_str picked "timetrial" then
      let timeLimit := (20 + Math_floor (Zone.width zone / 100))%Z in
      ret (Some (objective "timetrial" "TIME TRIAL" "zap"
                   ("Reach exit within " +:+ pretty timeLimit +:+ "s for bonus loot")
                   (Q_of timeLimit) false
                   (60 + depth * 8) (20 + depth * 4) []
                   [("failed", VBool false)]),
           zone)
    else if is_str picked "corruption" then
      ret (Some (objective "corruption" "CORRUPTION" "skull_and_crossbones"
                   "Zone grows deadlier over time. Exit when you dare."
                   100 false
                   (20 + depth * 3) (5 + depth) []
                   [("corruptionRate", VNum (1.0 + Q_of depth * 0.02));
                    ("currentMult", VNum 1.0)]),
           zone)
    else if is_str picked "lockdown" then
      let genCount := 3%Z in
      generators <- for_count genCount (generator zone depth) ;;
      ret (Some (objective "lockdown" "LOCKDOWN" "lock"
                   ("Destroy " +:+ pretty genCount +:+ " generators to unlock the exit")
                   (Q_of genCount) true
                   (50 + depth * 7) (15 + depth * 3) generators []),
           push_obstacles zone generators)
    else ret (None, zone).

(** *** Branch exits *)

Definition branch_types : list BranchType.t :=
  [{| BranchType.id := "safe"; BranchType.label := "SAFE ROUTE";
      BranchType.icon := "green_circle"; BranchType.color := "#00ff88";
      BranchType.desc := "Standard zone";
      BranchType.modifiers := 0; BranchType.lootMult := 1.0;
      BranchType.isVault := false |};
   {| BranchType.id := "risky"; BranchType.label := "RISKY ROUTE";
      BranchType.icon := "yellow_circle"; BranchType.color := "#ffcc00";
      BranchType.desc := "+1 modifier, +50% loot";
      BranchType.modifiers := 1; BranchType.lootMult := 1.5;
      BranchType.isVault := false |};
   {| BranchType.id := "vault"; BranchType.label := "VAULT";
      BranchType.icon := "red_circle"; BranchType.color := "#ff4444";
      BranchType.desc := "Dead end, guaranteed rare+";
      BranchType.modifiers := 2; BranchType.lootMult := 2.0;
      BranchType.isVault := true |}].

Definition generateBranchExits (zone : Zone.t) (depth : Z)
  : Rand (option (list BranchExit.t)) :=
  match Zone.exit zone with
  | None => ret None
  | Some exit =>
      drop_vault <- (if (depth <? 10)%Z then chance 0.4 else ret false) ;;
      let types := if drop_vault : bool then take 2 branch_types
                   else branch_types in
      let spacing := 120 in
      let totalW := Q_of (Z.of_nat (length types) - 1) * spacing in
      ret (Some (imap (λ i t,
             let offsetX := - totalW / 2 + Q_of (Z.of_nat i) * spacing in
             {| BranchExit.route := t;
                BranchExit.x := Point.x exit + offsetX;
                BranchExit.y := Point.y exit + Math_abs offsetX * 0.3;
                BranchExit.radius := 35 |}) types))
  end.

(** *** generate *)

Definition pickRange (v : RangeSpec) (fallbackMin fallbackMax : Z) : Rand Q :=
  match v with
  | RangeArr lo hi => n <- int lo hi ;; ret (Q_of n)
  | RangeNum v => ret v
  | RangeNone => n <- int fallbackMin fallbackMax ;; ret (Q_of n)
  end.

(** The densities after the depth ramp, the modifiers, the
    difficulty lane and the global tuning. *)
Definition enemyDensity_of (tune : Tune.t) (cfg : GenCfg.t) (depth : Z)
    (mods : list string) (diff : string) : Q :=
  let depthEnemyMult := 1 + Math_min (Q_of depth * 0.012) 1.6 in
  let d := num_or (GenCfg.enemyDensity cfg) 0.0005 * depthEnemyMult in
  let d := if has mods "BULLET_HELL" then d * 1.35 else d in
  let d := if has mods "FAST_ENEMIES" then d * 1.10 else d in
  let d := if bool_decide (diff = "chaos") then d * 1.3 else d in
  match Tune.enemyDensityMult tune with
  | Some m => d * m
  | None => d
  end.

Definition eliteDensity_of (tune : Tune.t) (cfg : GenCfg.t) (depth : Z)
    (mods : list string) (diff : string) : Q :=
  let depthEliteMult := 1 + Math_min (Q_of depth * 0.010) 1.2 in
  let d := num_or (GenCfg.eliteDensity cfg) 0.00008 * depthEliteMult in
  let d := if has mods "ELITE_PACKS" then d * 1.55 else d in
  let d := if bool_decide (diff = "risk") then d * 3.0
           else if bool_decide (diff = "chaos") then d * 5.0
           else d in
  match Tune.eliteDensityMult tune with
  | Some m => d * m
  | None => d
  end.

Definition obstacleDensity_of (cfg : GenCfg.t) (depth : Z)
    (mods : list string) (diff : string) : Q :=
  let depthObsMult := 1 + Math_min (Q_of depth * 0.008) 1.0 in
  let d := num_or (GenCfg.obstacleDensity cfg) 0.0002 * depthObsMult in
  let d := if has mods "DENSE_OBSTACLES" then d * 1.35 else d in
  let d := if has mods "MINEFIELD" then d * 1.15 else d in
  if bool_decide (diff = "chaos") then d * 1.4 else d.

Definition scale_dimension (crampedMult mapScale : Q) (v : Q) : Q :=
  let v := if Qeq_bool crampedMult 1.0 then v
           else Q_of (Math_floor (v * crampedMult)) in
  if Qeq_bool mapScale 1.0 then v
  else Q_of (Math_maxZ 600 (Math_floor (v * mapScale))).

Definition generate_from (state : State.t) (actConfig : ActConfig.t)
    (zoneSeed : Z) (options : Options.t) : Rand Zone.t :=
  let cfg := default GenCfg.empty (ActConfig.generation actConfig) in
  let depth := depth_or (Options.depth options) in
  let mods := arr_or (Options.mods options) [] in
  let diff := str_or (Options.difficulty options) "normal" in
  let tune := State.exploration state in
  let enemyDensity := enemyDensity_of tune cfg depth mods diff in
  let eliteDensity := eliteDensity_of tune cfg depth mods diff in
  let obstacleDensity := obstacleDensity_of cfg depth mods diff in
  let crampedMult := if has mods "CRAMPED_ZONE" then 0.85 else 1.0 in
  width <- pickRange (GenCfg.width cfg) 1500 3000 ;;
  height <- pickRange (GenCfg.height cfg) 1500 3000 ;;
  let mapScale := match Tune.mapScale tune with
                  | Some m => if Qlt_bool 0 m then m else 1.0
                  | None => 1.0
                  end in
  let width := scale_dimension crampedMult mapScale width in
  let height := scale_dimension crampedMult mapScale height in
  let pool := arr_or (ActConfig.pool actConfig) ["grunt"] in
  spawn <- generateSpawnPoint width height ;;
  parallax <- generateParallax tune actConfig width height ;;
  exit <- generateExitPoint spawn width height ;;
  enemySpawns <- generateEnemySpawns tune pool enemyDensity width height
                   spawn exit ;;
  enemySpawns <- applyPackDirector (State.packs state) enemySpawns pool
                   spawn exit ;;
  eliteSpawns <- generateEliteSpawns tune
                   (arr_or (ActConfig.elitePool actConfig) ["commander"])
                   eliteDensity width height ;;
  obstacles <- generateObstacles tune obstacleDensity width height
                 {| Options.depth := Some depth;
                    Options.mods := Some mods;
                    Options.difficulty := None |} ;;
  decorations <- generateDecorations tune (ActConfig.biome actConfig)
                   width height ;;
  let zone :=
    {| Zone.seed := zoneSeed;
       Zone.width := width;
       Zone.height := height;
       Zone.biome := Some (str_or (ActConfig.biome actConfig) "space");
       Zone.isBossZone := false;
       Zone.spawn := spawn;
       Zone.exit := Some exit;
       Zone.enemySpawns := enemySpawns;
       Zone.eliteSpawns := eliteSpawns;
       Zone.bossSpawn := None;
       Zone.obstacles := obstacles;
       Zone.decorations := decorations;
       Zone.parallax := parallax;
       Zone.pois := [];
       Zone.resourceNodes := [];
       Zone.objective := None;
       Zone.branchExits := None |} in
  r <- generatePOIs zone actConfig options ;;
  let (pois, zone) := r : list POI.t * Zone.t in
  r <- generateResourceNodes zone actConfig options ;;
  let (resourceNodes, zone) := r : list Obstacle.t * Zone.t in
  r <- generateObjective zone depth ;;
  let (objective, zone) := r : option Objective.t * Zone.t in
  branchExits <- (if (3 <=? depth)%Z then generateBranchExits zone depth
                  else ret None) ;;
  ret (set_results zone pois resourceNodes objective branchExits).

(** [generate] owns a generator instance of its own, made from the
    zone seed: whatever instance the caller holds is left alone and
    has no influence on the zone. *)
Definition generate (state : State.t) (actConfig : ActConfig.t)
    (zoneSeed : Z) (options : Options.t) : Rand Zone.t :=
  λ caller,
    let (zone, _) := generate_from state actConfig zoneSeed options
                       (rng_new zoneSeed) in
    (zone, caller).

Definition generateBossZone (state : State.t) (actConfig : ActConfig.t)
    (zoneSeed : Z) (options : Options.t) : Rand Zone.t :=
  λ caller,
    let cfg := ActConfig.boss actConfig in
    let width := num_or (cfg ≫= BossCfg.arenaWidth) 1200 in
    let height := num_or (cfg ≫= BossCfg.arenaHeight) 1000 in
    let build : Rand Zone.t :=
      type <- (if no_type (cfg ≫= BossCfg.type)
               then pick (arr_or (ActConfig.bossPool actConfig) ["sentinel"])
               else ret (cfg ≫= BossCfg.type)) ;;
      obstacles <- generateBossArenaObstacles width height ;;
      parallax <- generateParallax (State.exploration state) actConfig
                    width height ;;
      ret {| Zone.seed := zoneSeed;
             Zone.width := width;
             Zone.height := height;
             Zone.biome := ActConfig.biome actConfig;
             Zone.isBossZone := true;
             Zone.spawn := {| Point.x := width / 2; Point.y := height - 100 |};
             Zone.exit := None;
             Zone.enemySpawns := [];
             Zone.eliteSpawns := [];
             Zone.bossSpawn :=
               Some {| BossSpawn.x := width / 2; BossSpawn.y := 200;
                       BossSpawn.type := type |};
             Zone.obstacles := obstacles;
             Zone.decorations := [];
             Zone.parallax := parallax;
             Zone.pois := [];
             Zone.resourceNodes := [];
             Zone.objective := None;
             Zone.branchExits := None |} in
    let (zone, _) := build (rng_new zoneSeed) in
    (zone, caller).

(** *** Properties of generated zones *)

Definition far_from (p : Point.t) (d : Q) (s : EnemySpawn.t) : Prop :=
  d <= Math_hypot (EnemySpawn.x s - Point.x p) (EnemySpawn.y s - Point.y p).

(** Every spawn keeps the distance [d] to the spawns placed before it. *)
Definition spaced (d : Q) (spawns : list EnemySpawn.t) : Prop :=
  ∀ i j a b, (i < j)%nat → spawns !! i = Some a → spawns !! j = Some b →
    d <= Math_hypot (EnemySpawn.x b - EnemySpawn.x a)
                    (EnemySpawn.y b - EnemySpawn.y a).

(** The invariant of the enemy placement loop. *)
Definition placed (count : Z) (spawn exit : Point.t) (dS dE dB : Q)
    (spawns : list EnemySpawn.t) : Prop :=
  (Z.of_nat (length spawns) ≤ Z.max 0 count)%Z ∧
  Forall (far_from spawn dS) spawns ∧
  Forall (far_from exit dE) spawns ∧
  spaced dB spawns.

Definition within (budget : Z) (walls : list Obstacle.t) : Prop :=
  (Z.of_nat (length walls) ≤ Z.max 0 budget)%Z.

(** The cluster phase adds one obstacle per unit of [clusterUsed]. *)
Definition clustered (len0 clusterBudget : Z) (st : list Obstacle.t * Z) : Prop :=
  (Z.of_nat (length st.1) = len0 + st.2)%Z ∧ (0 ≤ st.2 ≤ Z.max 0 clusterBudget)%Z.

(** The two fixed exclusion radii of the resource nodes. *)
Definition clear_of (spawn exit : Point.t) (x y : Q) : Prop :=
  300 <= Math_hypot (x - Point.x spawn) (y - Point.y spawn) ∧
  200 <= Math_hypot (x - Point.x exit) (y - Point.y exit).

(** The archetype [generateObjective] goes on with after the roll. *)
Definition picked_objective (depth : Z) (roll : Q) : option string :=
  match weighted_walk (objectives depth) roll with
  | Some type => Some type
  | None => fst <$> head (objectives depth)
  end.

(** The fields the later passes leave alone. *)
Definition frame (z z' : Zone.t) : Prop :=
  Zone.width z = Zone.width z' ∧ Zone.height z = Zone.height z' ∧
  Zone.spawn z = Zone.spawn z' ∧ Zone.exit z = Zone.exit z' ∧
  Zone.eliteSpawns z = Zone.eliteSpawns z' ∧
  Zone.decorations z = Zone.decorations z'.

(** The budget property as the design document states it: the four
    lists of the returned zone keep to the configured caps. *)
Definition budget_respected (tune : Tune.t) (z : Zone.t) : Prop :=
  (Z.of_nat (length (Zone.enemySpawns z))
   ≤ typeof_number (Tune.maxEnemySpawnsPerZone tune) 120)%Z ∧
  (Z.of_nat (length (Zone.eliteSpawns z))
   ≤ typeof_number (Tune.maxEliteSpawnsPerZone tune) 8)%Z ∧
  (Z.of_nat (length (Zone.obstacles z))
   ≤ typeof_number (Tune.maxObstaclesPerZone tune) 1200)%Z ∧
  (Z.of_nat (length (Zone.decorations z))
   ≤ typeof_number (Tune.maxDecorationsPerZone tune) 3000)%Z.

(** The three categories of placed positions. *)
Definition categories (z : Zone.t) : list (list Point.t) :=
  [(λ e, {| Point.x := EnemySpawn.x e; Point.y := EnemySpawn.y e |})
     <$> Zone.enemySpawns z;
   (λ e, {| Point.x := EliteSpawn.x e; Point.y := EliteSpawn.y e |})
     <$> Zone.eliteSpawns z;
   (λ n, {| Point.x := Obstacle.x n; Point.y := Obstacle.y n |})
     <$> Zone.resourceNodes z].

Definition distance (a b : Point.t) : Q :=
  Math_hypot (Point.x a - Point.x b) (Point.y a - Point.y b).

(** The distance property as the design document states it, with
    the configured minimum distances of the tuning table. *)
Definition distances_respected (tune : Tune.t) (z : Zone.t) : Prop :=
  let dS := typeof_number (Tune.enemySpawnMinDistFromSpawn tune) 300 in
  let dE := typeof_number (Tune.enemySpawnMinDistFromExit tune) 200 in
  let dB := typeof_number (Tune.enemySpawnMinDistBetween tune) 150 in
  ∀ ps, ps ∈ categories z →
    (∀ p, p ∈ ps →
       dS <= distance p (Zone.spawn z) ∧ dE <= distance p (exit_of z)) ∧
    (∀ i j a b, i ≠ j → ps !! i = Some a → ps !! j = Some b →
       dB <= distance a b).

End generator.

(** What an obstacle of a regular zone is like: it can be destroyed,
    it has hit points, and it is of one of the kinds the passes make,
    a mine only under the [MINEFIELD] modifier. *)
Definition regular_obstacle (mods : list string) (o : Obstacle.t) : Prop :=
  Obstacle.destructible o = true ∧ is_Some (Obstacle.hp o) ∧
  ∀ t, Obstacle.type o = Some t →
       t ∈ ["asteroid"; "debris"; "ore_rich"; "crystal_node"; "void_crystal";
            "salvage_wreck"; "generator"]
           ++ (if has mods "MINEFIELD" then ["mine"] else []).

(** [Math.imul]. *)
Definition imul (a b : Z) : Z := ToInt32 (ToInt32 a * ToInt32 b).

(** [zoneIndex + 1] is an addition of numbers and rounds before
    [>>> 0] cuts it down. *)
Definition createZoneSeed {fl : Float} (actSeed zoneIndex : Z) : Z :=
  let a := ToUint32 actSeed in
  let z := ToUint32 (ToInteger (inject_Z zoneIndex ⊕ 1)) in
  ToUint32 (xor32 a (imul z 2654435769)).

End MapGenerator.

(** ** runtime/world/World.js: the index of a frame

    [World.update(dt)] ends by rebuilding the shared grid from the
    enemies and the obstacles of the current zone. *)

Module World.
Import JS SpatialHash.
Local Open Scope Q_scope.

Section frame.
Context {fl : Float}.




End frame.
End World.

(** ** Instances to run the generator on

    The contract of the generator interface, and one generator and one
    [Math] that meet it, to evaluate the embedding on concrete zones. *)

Module Reference.
Import JS MapGenerator.
Local Open Scope Q_scope.

(** What the design document asks of the generator: [int(a, b)] is
    inclusive, [range(a, b)] stays within its bounds, [pick] reads
    inside the array. *)
Class SeededRandomSpec `{SeededRandom} := {
  rng_int_bounds lo hi s :
    (lo ≤ hi)%Z → (lo ≤ (rng_int lo hi s).1 ≤ hi)%Z;
  rng_range_bounds a b s :
    a <= b → a <= (rng_range a b s).1 <= b;
  rng_index_bounds n s :
    (0 < n)%nat → ((rng_index n s).1 < n)%nat
}.

(** Modelled from the spec: [SeededRandom.js] is not among the
    sources.  The design document asks for a generator built from a
    32-bit seed with [next() -> [0,1)], [range(a,b)], [int(a,b)]
    inclusive, [pick(list)] and [chance(p)], whose transform is of
    the LCG class; this one is the linear congruential generator of
    Numerical Recipes. *)
Definition lcg_next (s : Z) : Q * Z :=
  let s' := ((s * 1664525 + 1013904223) mod 2 ^ 32)%Z in
  (Qmake s' (2 ^ 32), s').

Definition lcg_range (a b : Q) (s : Z) : Q * Z :=
  let (u, s') := lcg_next s in (Qred (a + u * (b - a)), s').

Definition lcg_int (a b : Z) (s : Z) : Z * Z :=
  let (u, s') := lcg_next s in
  ((a + Qfloor (u * inject_Z (b - a + 1)))%Z, s').

Definition lcg_index (n : nat) (s : Z) : nat * Z :=
  let (u, s') := lcg_next s in
  (Z.to_nat (Qfloor (u * inject_Z (Z.of_nat n))), s').

Definition lcg_chance (p : Q) (s : Z) : bool * Z :=
  let (u, s') := lcg_next s in (Qlt_bool u p, s').

#[export] Instance lcg : SeededRandom :=
  {| rng := Z;
     rng_new := λ seed, (seed mod 2 ^ 32)%Z;
     rng_range := lcg_range;
     rng_int := lcg_int;
     rng_index := lcg_index;
     rng_chance := lcg_chance |}.

(** A [Math] on a grid of step [2^-30]: the trigonometric functions
    by their Taylor polynomials after reduction to [-pi, pi], the
    hypotenuse by an integer square root. *)
Definition grid (q : Q) : Q :=
  Qred (Qmake (Qfloor (q * inject_Z (2 ^ 30) + 1 / 2)) (2 ^ 30)).

Definition PI : Q := 3.141592653589793.

Definition reduce (x : Q) : Q :=
  let turn := PI * 2 in
  grid (x - turn * inject_Z (Qfloor (x / turn + 1 / 2))).

(** [sum_{k < n} (-1)^k y^(2k+i) / (2k+i)!], from the term
    [term = y^i / i!] on. *)
Fixpoint taylor (n : nat) (i : Z) (y2 term acc : Q) : Q :=
  match n with
  | O => acc
  | S n' =>
      let next := - term * y2 / inject_Z ((i + 1) * (i + 2)) in
      taylor n' (i + 2)%Z y2 (grid next) (acc + term)
  end.

Definition cos_grid (x : Q) : Q :=
  let y := reduce x in grid (taylor 14 0 (y * y) 1 0).

Definition sin_grid (x : Q) : Q :=
  let y := reduce x in grid (taylor 14 1 (y * y) y 0).

Definition hypot_grid (x y : Q) : Q :=
  Qred (Qmake (Z.sqrt (Qfloor ((x * x + y * y) * inject_Z (2 ^ 60)))) (2 ^ 30)).

#[export] Instance math : JSMath :=
  {| Math_PI := PI;
     Math_cos := cos_grid;
     Math_sin := sin_grid;
     Math_hypot := hypot_grid |}.

End Reference.

(** ** Concrete inputs

    The grids, configurations and generator states the statements below
    are evaluated on. *)

Module Examples.
Import JS Binary64 MapGenerator Reference.
Local Open Scope string_scope.
Local Open Scope list_scope.
Local Open Scope Q_scope.

(** Three entities on a line, the third without a radius. *)
Definition heap3 : SpatialHash.Heap := λ e,
  {| SpatialHash.x := inject_Z (Z.pos e) * 100;
     SpatialHash.y := 50;
     SpatialHash.radius := if decide (e = 3%positive) then None else Some 20;
     SpatialHash.size := None;
     SpatialHash.r := None |}.

Definition generation (width height : Q) : GenCfg.t :=
  {| GenCfg.enemyDensity := None; GenCfg.eliteDensity := None;
     GenCfg.obstacleDensity := None;
     GenCfg.width := RangeNum width; GenCfg.height := RangeNum height |}.

(** An act that fixes the zone size and leaves the rest to the
    defaults. *)
Definition act (width height : Q) : ActConfig.t :=
  {| ActConfig.generation := Some (generation width height);
     ActConfig.biome := None; ActConfig.pool := None;
     ActConfig.elitePool := None; ActConfig.bossPool := None;
     ActConfig.bgColor := None; ActConfig.nebula := None;
     ActConfig.boss := None |}.

Definition at_depth (depth : Z) : Options.t :=
  {| Options.depth := Some depth; Options.mods := None;
     Options.difficulty := None |}.

(** A tuning table that only thins out the starfields. *)
Definition few_stars : Tune.t :=
  {| Tune.enemyDensityMult := None; Tune.eliteDensityMult := None;
     Tune.mapScale := None; Tune.maxEnemySpawnsPerZone := None;
     Tune.enemySpawnMinDistFromSpawn := None;
     Tune.enemySpawnMinDistFromExit := None;
     Tune.enemySpawnMinDistBetween := None;
     Tune.maxEliteSpawnsPerZone := None; Tune.maxObstaclesPerZone := None;
     Tune.maxDecorationsPerZone := None;
     Tune.maxStarsBackground := Some 1; Tune.maxStarsMidground := Some 1 |}.

(** A tuning table with every entity cap at zero. *)
Definition caps_zero : Tune.t :=
  {| Tune.enemyDensityMult := None; Tune.eliteDensityMult := None;
     Tune.mapScale := None; Tune.maxEnemySpawnsPerZone := Some 0%Z;
     Tune.enemySpawnMinDistFromSpawn := None;
     Tune.enemySpawnMinDistFromExit := None;
     Tune.enemySpawnMinDistBetween := None;
     Tune.maxEliteSpawnsPerZone := Some 0%Z;
     Tune.maxObstaclesPerZone := Some 0%Z;
     Tune.maxDecorationsPerZone := Some 0%Z;
     Tune.maxStarsBackground := Some 1; Tune.maxStarsMidground := Some 1 |}.

(** A tuning table that lowers the caps: five enemy spawns, twenty
    obstacles, thirty decorations. *)
Definition low_caps : Tune.t :=
  {| Tune.enemyDensityMult := None; Tune.eliteDensityMult := None;
     Tune.mapScale := None; Tune.maxEnemySpawnsPerZone := Some 5%Z;
     Tune.enemySpawnMinDistFromSpawn := None;
     Tune.enemySpawnMinDistFromExit := None;
     Tune.enemySpawnMinDistBetween := None;
     Tune.maxEliteSpawnsPerZone := None;
     Tune.maxObstaclesPerZone := Some 20%Z;
     Tune.maxDecorationsPerZone := Some 30%Z;
     Tune.maxStarsBackground := Some 1; Tune.maxStarsMidground := Some 1 |}.

(** A tuning table that doubles the map scale. *)
Definition scaled_twice : Tune.t :=
  {| Tune.enemyDensityMult := None; Tune.eliteDensityMult := None;
     Tune.mapScale := Some 2; Tune.maxEnemySpawnsPerZone := None;
     Tune.enemySpawnMinDistFromSpawn := None;
     Tune.enemySpawnMinDistFromExit := None;
     Tune.enemySpawnMinDistBetween := None;
     Tune.maxEliteSpawnsPerZone := None; Tune.maxObstaclesPerZone := None;
     Tune.maxDecorationsPerZone := None;
     Tune.maxStarsBackground := Some 1; Tune.maxStarsMidground := Some 1 |}.

Definition state_of (tune : Tune.t) : State.t :=
  {| State.exploration := tune; State.packs := None |}.

Definition grunt_at (x y : Q) : EnemySpawn.t :=
  {| EnemySpawn.x := x; EnemySpawn.y := y;
     EnemySpawn.type := Some "grunt"; EnemySpawn.patrol := Some "static";
     EnemySpawn.patrolRadius := Some 50;
     EnemySpawn.active := false; EnemySpawn.killed := false;
     EnemySpawn.packId := None; EnemySpawn.poiId := None;
     EnemySpawn.props := [] |}.

(** A pack table with one template of exactly five grunts, applied to
    every anchor. *)
Definition squad_of_five : Packs.t :=
  {| Packs.templates :=
       [{| PackTemplate.id := Some "squad"; PackTemplate.weight := None;
           PackTemplate.members :=
             [{| PackMember.type := Some "grunt";
                 PackMember.min := Some 5%Z; PackMember.max := Some 5%Z |}];
           PackTemplate.types := [] |}];
     Packs.packChance := Some 1;
     Packs.packSizeMin := None; Packs.packSizeMax := None;
     Packs.maxPacksPerZone := None; Packs.memberSpacing := None;
     Packs.minDistFromSpawn := None; Packs.minDistFromExit := None |}.

(** A pack table with one template without members and every setting
    left to its default. *)
Definition plain_packs : Packs.t :=
  {| Packs.templates :=
       [{| PackTemplate.id := Some "squad"; PackTemplate.weight := None;
           PackTemplate.members := []; PackTemplate.types := [] |}];
     Packs.packChance := None;
     Packs.packSizeMin := None; Packs.packSizeMax := None;
     Packs.maxPacksPerZone := None; Packs.memberSpacing := None;
     Packs.minDistFromSpawn := None; Packs.minDistFromExit := None |}.

Definition three_spawns : list EnemySpawn.t :=
  [grunt_at 1000 1000; grunt_at 1200 1000; grunt_at 1400 1000].

Definition corner : Point.t := {| Point.x := 100; Point.y := 1900 |}.
Definition top : Point.t := {| Point.x := 1000; Point.y := 100 |}.

(** The first entity of [heap3], moved to the far right. *)
Definition heap3_moved : SpatialHash.Heap := λ e,
  {| SpatialHash.x := 1000;
     SpatialHash.y := 50;
     SpatialHash.radius := Some 20;
     SpatialHash.size := None;
     SpatialHash.r := None |}.

(** Two entities whose radius is one step of the doubles below 64,
    the first at x = 100 and the others at x = 64. *)
Definition grazing : SpatialHash.Heap := λ e,
  {| SpatialHash.x := if decide (e = 1%positive) then 100 else 64;
     SpatialHash.y := 0;
     SpatialHash.radius := Some (64 - 2 ^ (-46));
     SpatialHash.size := None;
     SpatialHash.r := None |}.


(** Two states of the reference generator. *)
Definition idle : @rng lcg := 0%Z.
Definition started : @rng lcg := 1%Z.
End Examples.

(** * Properties *)

(** ** The embedding at work *)

Module Runs.
Import JS Binary64 SpatialHash MapGenerator Reference Examples.
Local Open Scope Q_scope.
#[local] Set Warnings "-inexact-float".

(** Cell keys are not injective: the shift drops the high bits of the
    column and the row is folded over what is left. *)
Example cell_key_collision : cell_key 0 65536 = cell_key 1 0.
Proof. reflexivity. Qed.

Example cell_key_negative : cell_key (-1) 0 = (-65536)%Z.
Proof. reflexivity. Qed.

(** An entity of radius 20 at (120, 50) on cells of 128 lies in two
    columns and one row. *)
Example entityCells_two_columns :
  _entityCells (create 128)
    {| x := 120; y := 50; radius := Some 20; size := None; r := None |}
  = [cell_key 0 0; cell_key 1 0].
Proof. reflexivity. Qed.

Example queryCircle_line :
  queryCircle heap3 (insertAll heap3 (create 128) [1; 2; 3]%positive) 150 50 60
  = [1; 2]%positive.
Proof. vm_compute. reflexivity. Qed.

(** [rnd64] and the kernel's doubles agree on the sums, products and
    quotients that matter below. *)
Example round_sum :
  of_float (0.1 + 0.2)%float = Some (round 0.1 ⊕ round 0.2).
Proof. vm_compute. reflexivity. Qed.

Example round_reach :
  of_float (256 + (64 - 0x1p-46))%float = Some (256 ⊕ (64 - 2 ^ (-46))) ∧
  256 ⊕ (64 - 2 ^ (-46)) = 320.
Proof. split; vm_compute; reflexivity. Qed.

Example round_cell :
  of_float (49 * (1 / 49))%float = Some (49 ⊗ (1 ⊘ 49)) ∧
  Math_floor (49 ⊗ (1 ⊘ 49)) = 0%Z.
Proof. split; vm_compute; reflexivity. Qed.

Example round_area :
  of_float (1500 * 1500 * 0.0003)%float = Some (1500 ⊗ 1500 ⊗ round 0.0003).
Proof. vm_compute. reflexivity. Qed.

Example round_index :
  of_float (0x1p53 + 1)%float = Some (inject_Z (2 ^ 53) ⊕ 1) ∧
  inject_Z (2 ^ 53) ⊕ 1 = inject_Z (2 ^ 53).
Proof. split; vm_compute; reflexivity. Qed.

(** Without a cap, the background layer of a zone of 1000 by 1000 has
    674 stars; the exact product would give 675. *)
Example star_count_rounds :
  length (generateStarfield (1000 ⊗ 1.5) (1000 ⊗ 1.5) (round 0.0003) 0 idle).1
  = 674%nat ∧
  Math_floor (1000 * 1.5 * (1000 * 1.5) * 0.0003) = 675%Z.
Proof. split; vm_compute; reflexivity. Qed.

Example createZoneSeed_first : createZoneSeed 0 0 = 2654435769%Z.
Proof. reflexivity. Qed.

Example createZoneSeed_wraps : createZoneSeed 4294967296 0 = createZoneSeed 0 0.
Proof. reflexivity. Qed.

(** The pool of POI archetypes grows with the depth. *)
Example poi_types_depth_5 :
  _getPOITypesForTier 5
  = ["guard_post"; "treasure_cache"; "ore_deposit"; "ambush_zone";
     "salvage_wreck"]%string.
Proof. reflexivity. Qed.

(** A roll of 40 lands on the time trial below depth 5 and on survival
    from depth 5 on. *)
Example objective_roll_40 :
  weighted_walk (objectives 4) 40 = Some "timetrial"%string ∧
  weighted_walk (objectives 5) 40 = Some "survival"%string.
Proof. split; reflexivity. Qed.

(** With the default pack sizes and a template without members, three
    spawns come back as six: a pack of four around the last anchor in
    shuffled order takes one slot only. *)
Example pack_director_default_sizes :
  length (applyPackDirector (Some plain_packs) three_spawns ["grunt"%string]
            corner top (3%Z : @rng lcg)).1 = 6%nat.
Proof. vm_compute. reflexivity. Qed.

(** A zone of 1000 by 1000 with the default settings: the first and the
    sixth elite spawn are less than 50 apart, and the last POI guard is
    less than 10 away from the exit point. *)
Example regular_zone_distances :
  let z := (generate (state_of few_stars) (act 1000 1000) 424242
              (at_depth 1) idle).1 in
  match Zone.eliteSpawns z !! 0%nat, Zone.eliteSpawns z !! 5%nat,
        last (Zone.enemySpawns z), Zone.exit z with
  | Some a, Some b, Some g, Some exit =>
      Qlt_bool (Math_hypot (EliteSpawn.x a - EliteSpawn.x b)
                           (EliteSpawn.y a - EliteSpawn.y b)) 50
      && Qlt_bool (Math_hypot (EnemySpawn.x g - Point.x exit)
                              (EnemySpawn.y g - Point.y exit)) 10
  | _, _, _, _ => false
  end = true.
Proof. vm_compute. reflexivity. Qed.

(** With the caps lowered to 5 enemy spawns and 20 obstacles, the two
    guard posts of the zone of seed 1 bring the lists to 16 and 29
    entries; the decorations keep to their cap of 30. *)
Example low_caps_counts :
  let z := (generate (state_of low_caps) (act 1000 1000) 1 (at_depth 1) idle).1 in
  (length (Zone.enemySpawns z), length (Zone.obstacles z),
   length (Zone.decorations z), POI.type <$> Zone.pois z)
  = (16, 29, 30, ["guard_post"; "guard_post"])%nat.
Proof. vm_compute. reflexivity. Qed.

End Runs.

(** ** Rounding to doubles keeps the order *)

Module Binary64Facts.
Import JS Binary64.
Local Open Scope Q_scope.

Lemma pow2_pos e : 0 < 2 ^ e.
Proof. by apply Qpower_0_lt. Qed.

Lemma pow2_le a b : (a ≤ b)%Z → 2 ^ a <= 2 ^ b.
Proof. intros. by apply Qpower_le_compat_l. Qed.

Lemma pow2_lt a b : (a < b)%Z → 2 ^ a < 2 ^ b.
Proof. intros. by apply Qpower_lt_compat_l. Qed.

Lemma pow2_add a b : 2 ^ (a + b) == 2 ^ a * 2 ^ b.
Proof. by apply Qpower_plus. Qed.

Lemma pow2_Z n : (0 ≤ n)%Z → 2 ^ n == inject_Z (2 ^ n).
Proof. intros. by rewrite Zpower_Qpower. Qed.

Lemma pow2_sub a b : 2 ^ (a - b) == 2 ^ a / 2 ^ b.
Proof. by apply Qpower_minus. Qed.

(** [mag q] is the binade of [q]. *)
Lemma mag_spec q : ¬ q == 0 → 2 ^ (mag q - 1) <= Qabs q ∧ Qabs q < 2 ^ mag q.
Proof.
  intros Hq.
  set (n := Z.abs (Qnum q)). set (d := Z.pos (Qden q)).
  assert (0 < n)%Z as Hn.
  { unfold n. destruct q as [[|p|p] dq]; simpl; try lia.
    exfalso. apply Hq. reflexivity. }
  assert (Qabs q == inject_Z n / inject_Z d) as Habs.
  { unfold n, d. destruct q as [nq dq]. simpl. apply Qmake_Qdiv. }
  pose proof (Z.log2_spec n Hn) as [Ha1 Ha2].
  pose proof (Z.log2_spec d ltac:(done)) as [Hb1 Hb2].
  pose proof (Z.log2_nonneg n) as Han. pose proof (Z.log2_nonneg d) as Hbn.
  set (a := Z.log2 n) in *. set (b := Z.log2 d) in *.
  assert (0 < inject_Z d) as Hd.
  { change 0 with (inject_Z 0). by rewrite <-Zlt_Qlt. }
  assert (2 ^ (a - b - 1) < Qabs q) as Hlow.
  { rewrite Habs. replace (a - b - 1)%Z with (a - (b + 1))%Z by lia.
    rewrite pow2_sub, !pow2_Z by lia.
    assert (0 < inject_Z (2 ^ (b + 1))) as Hpb.
    { change 0 with (inject_Z 0). rewrite <-Zlt_Qlt. lia. }
    apply Qlt_shift_div_l; [done|].
    unfold Qdiv. rewrite <-Qmult_assoc, (Qmult_comm (/ _)), Qmult_assoc.
    apply Qlt_shift_div_r; [done|].
    rewrite <-!inject_Z_mult, <-Zlt_Qlt. unfold Z.succ in *. nia. }
  assert (Qabs q < 2 ^ (a - b + 1)) as Hhigh.
  { rewrite Habs. replace (a - b + 1)%Z with ((a + 1) - b)%Z by lia.
    rewrite pow2_sub, !pow2_Z by lia.
    assert (0 < inject_Z (2 ^ b)) as Hpb.
    { change 0 with (inject_Z 0). rewrite <-Zlt_Qlt. lia. }
    apply Qlt_shift_div_r; [done|].
    unfold Qdiv. rewrite <-Qmult_assoc, (Qmult_comm (/ _)), Qmult_assoc.
    apply Qlt_shift_div_l; [done|].
    rewrite <-!inject_Z_mult, <-Zlt_Qlt. unfold Z.succ in *. nia. }
  unfold mag. fold n d a b.
  destruct (Qle_bool (2 ^ (a - b)) (Qabs q)) eqn:E.
  - apply Qle_bool_iff in E.
    replace (a - b + 1 - 1)%Z with (a - b)%Z by lia. done.
  - split; [by apply Qlt_le_weak|].
    apply Qnot_le_lt. intros Hle. apply Qle_bool_iff in Hle. congruence.
Qed.

Lemma mag_unique q e : 2 ^ (e - 1) <= Qabs q → Qabs q < 2 ^ e → mag q = e.
Proof.
  intros H1 H2.
  assert (¬ q == 0) as Hq.
  { intros Hq. rewrite Hq in H1. pose proof (pow2_pos (e - 1)).
    change (Qabs 0) with 0 in H1. lra. }
  destruct (mag_spec q Hq) as [H3 H4].
  assert (e - 1 < mag q)%Z.
  { apply (Qpower_lt_compat_l_inv 2); [|done]. eapply Qle_lt_trans; done. }
  assert (mag q - 1 < e)%Z.
  { apply (Qpower_lt_compat_l_inv 2); [|done]. eapply Qle_lt_trans; done. }
  lia.
Qed.

Lemma mag_le a b : ¬ a == 0 → Qabs a <= Qabs b → (mag a ≤ mag b)%Z.
Proof.
  intros Ha Hab.
  assert (¬ b == 0) as Hb.
  { intros Hb. rewrite Hb in Hab. change (Qabs 0) with 0 in Hab.
    pose proof (Qabs_nonneg a). apply Ha.
    assert (Qabs a == 0) as H0 by lra.
    revert H0. apply Qabs_case; intros; lra. }
  destruct (mag_spec a Ha) as [H1 _]. destruct (mag_spec b Hb) as [_ H2].
  assert (mag a - 1 < mag b)%Z; [|lia].
  apply (Qpower_lt_compat_l_inv 2); [|done].
  eapply Qle_lt_trans; [|exact H2]. eapply Qle_trans; done.
Qed.

Lemma floor_bounds q : inject_Z (Qfloor q) <= q ∧ q < inject_Z (Qfloor q) + 1.
Proof.
  split; [apply Qfloor_le|].
  pose proof (Qlt_floor q) as H. by rewrite inject_Z_plus in H.
Qed.

Lemma nearest_even_comp a b : a == b → nearest_even a = nearest_even b.
Proof.
  intros Hab. unfold nearest_even. rewrite (Qfloor_comp _ _ Hab).
  rewrite (Qcompare_comp (a - inject_Z (Qfloor b)) (b - inject_Z (Qfloor b))
             ltac:(lra) (1 # 2) (1 # 2) ltac:(lra)).
  done.
Qed.

Lemma nearest_even_Z z : nearest_even (inject_Z z) = z.
Proof.
  unfold nearest_even. rewrite Qfloor_Z.
  destruct (Qcompare_spec (inject_Z z - inject_Z z) (1 # 2)) as [E|E|E];
    [lra | done | lra].
Qed.

Lemma nearest_even_cases q :
  (nearest_even q = Qfloor q ∧ q - inject_Z (Qfloor q) <= 1 # 2) ∨
  (nearest_even q = (Qfloor q + 1)%Z ∧ 1 # 2 <= q - inject_Z (Qfloor q)).
Proof.
  unfold nearest_even.
  destruct (Qcompare_spec (q - inject_Z (Qfloor q)) (1 # 2)) as [E|E|E].
  - destruct (Z.even (Qfloor q)); [left|right]; split; try done; lra.
  - left. split; [done|lra].
  - right. split; [done|lra].
Qed.

Lemma nearest_even_le a b : a <= b → (nearest_even a ≤ nearest_even b)%Z.
Proof.
  intros Hab. pose proof (Qfloor_resp_le a b Hab) as Hf.
  destruct (floor_bounds a) as [Ha1 Ha2]. destruct (floor_bounds b) as [Hb1 Hb2].
  destruct (Z.eq_dec (Qfloor a) (Qfloor b)) as [Heq|Hne].
  - unfold nearest_even. rewrite <-Heq.
    destruct (Qcompare_spec (a - inject_Z (Qfloor a)) (1 # 2)) as [Ea|Ea|Ea];
      destruct (Qcompare_spec (b - inject_Z (Qfloor a)) (1 # 2)) as [Eb|Eb|Eb];
      try lia; try lra; destruct (Z.even (Qfloor a)); lia.
  - destruct (nearest_even_cases a) as [[-> _]|[-> _]];
      destruct (nearest_even_cases b) as [[-> _]|[-> _]]; lia.
Qed.

Lemma nearest_even_opp q : nearest_even (- q) = (- nearest_even q)%Z.
Proof.
  destruct (floor_bounds q) as [H1 H2]. destruct (floor_bounds (- q)) as [H3 H4].
  set (f := Qfloor q) in *. set (g := Qfloor (- q)) in *.
  assert (g = (- f)%Z ∨ g = (- f - 1)%Z) as [Hg|Hg].
  { assert (inject_Z g <= inject_Z (- f)) as Hle.
    { rewrite inject_Z_opp. lra. }
    assert (inject_Z (- f - 1) < inject_Z (g + 1)) as Hlt.
    { unfold Z.sub. rewrite !inject_Z_plus, !inject_Z_opp.
      change (inject_Z 1) with 1. lra. }
    rewrite <-Zle_Qle in Hle. rewrite <-Zlt_Qlt in Hlt. lia. }
  - assert (q == inject_Z f) as Hq.
    { rewrite Hg, inject_Z_opp in H3. lra. }
    rewrite (nearest_even_comp (- q) (inject_Z (- f))), (nearest_even_comp q _ Hq).
    + by rewrite !nearest_even_Z.
    + rewrite inject_Z_opp. lra.
  - unfold nearest_even. fold f g.
    assert (- q - inject_Z g == 1 - (q - inject_Z f)) as Hfrac.
    { rewrite Hg. unfold Z.sub. rewrite inject_Z_plus, !inject_Z_opp.
      change (inject_Z 1) with 1. ring. }
    assert (Z.even g = negb (Z.even f)) as Hev.
    { rewrite Hg. rewrite Z.even_sub, Z.even_opp. by destruct (Z.even f). }
    destruct (Qcompare_spec (- q - inject_Z g) (1 # 2)) as [Ea|Ea|Ea];
      destruct (Qcompare_spec (q - inject_Z f) (1 # 2)) as [Eb|Eb|Eb];
      try lra; rewrite ?Hev; destruct (Z.even f); simpl; lia.
Qed.

Lemma nearest_even_nonneg q : 0 <= q → (0 ≤ nearest_even q)%Z.
Proof.
  intros Hq. rewrite <-(nearest_even_Z 0). by apply nearest_even_le.
Qed.

Lemma rnd64_unfold q : ¬ q == 0 → rnd64 q == on_grid (fexp q) q.
Proof.
  intros Hq. unfold rnd64.
  destruct (Qeq_bool q 0) eqn:E; [by apply Qeq_bool_iff in E|].
  apply Qred_correct.
Qed.

Lemma rnd64_zero q : q == 0 → rnd64 q = 0.
Proof.
  intros Hq. unfold rnd64. by rewrite (proj2 (Qeq_bool_iff q 0) Hq).
Qed.

Lemma on_grid_le e a b : a <= b → on_grid e a <= on_grid e b.
Proof.
  intros Hab. unfold on_grid. pose proof (pow2_pos e).
  apply Qmult_le_compat_r; [|lra].
  rewrite <-Zle_Qle. apply nearest_even_le.
  unfold Qdiv. apply Qmult_le_compat_r; [done|].
  apply Qlt_le_weak, Qinv_lt_0_compat. done.
Qed.

#[local] Instance on_grid_proper e : Proper (Qeq ==> Qeq) (on_grid e).
Proof. intros a b Hab. apply Qle_antisym; apply on_grid_le; lra. Qed.

Lemma on_grid_step e n : on_grid e (inject_Z n * 2 ^ e) == inject_Z n * 2 ^ e.
Proof.
  unfold on_grid. pose proof (pow2_pos e).
  rewrite (nearest_even_comp _ (inject_Z n)), nearest_even_Z; [done|].
  field. lra.
Qed.

Lemma fexp_le a b : ¬ a == 0 → Qabs a <= Qabs b → (fexp a ≤ fexp b)%Z.
Proof. intros Ha Hab. unfold fexp. pose proof (mag_le a b Ha Hab). lia. Qed.

Lemma pow2_as_step k e : (e ≤ k)%Z → 2 ^ k == inject_Z (2 ^ (k - e)) * 2 ^ e.
Proof.
  intros Hle. rewrite <-pow2_Z by lia. rewrite <-pow2_add.
  by replace (k - e + e)%Z with k by lia.
Qed.

(** Rounding is monotone on the positive numbers... *)
Lemma rnd64_le_pos a b : 0 < a → a <= b → rnd64 a <= rnd64 b.
Proof.
  intros Ha Hab.
  assert (¬ a == 0) as Hna by lra. assert (¬ b == 0) as Hnb by lra.
  rewrite !rnd64_unfold by done.
  assert (Qabs a == a) as Haa by (apply Qabs_pos; lra).
  assert (Qabs b == b) as Hbb by (apply Qabs_pos; lra).
  pose proof (fexp_le a b Hna ltac:(lra)) as He.
  destruct (Z.eq_dec (fexp a) (fexp b)) as [Heq|Hne].
  { rewrite Heq. by apply on_grid_le. }
  assert (fexp b = mag b - 53)%Z as Heb by (unfold fexp in *; lia).
  assert (mag a ≤ fexp a + 53)%Z as Hma by (unfold fexp; lia).
  destruct (mag_spec a Hna) as [_ Ha2]. destruct (mag_spec b Hnb) as [Hb1 _].
  rewrite Haa in Ha2. rewrite Hbb in Hb1.
  apply Qle_trans with (2 ^ (fexp b + 52)).
  - apply Qle_trans with (2 ^ (fexp a + 53)); [|apply pow2_le; lia].
    rewrite (pow2_as_step (fexp a + 53) (fexp a)) by lia.
    rewrite <-(on_grid_step (fexp a) (2 ^ (fexp a + 53 - fexp a))).
    apply on_grid_le. rewrite <-pow2_as_step by lia.
    apply Qlt_le_weak. eapply Qlt_le_trans; [exact Ha2|]. by apply pow2_le.
  - rewrite (pow2_as_step (fexp b + 52) (fexp b)) by lia.
    rewrite <-(on_grid_step (fexp b) (2 ^ (fexp b + 52 - fexp b))).
    apply on_grid_le. rewrite <-pow2_as_step by lia.
    by replace (fexp b + 52)%Z with (mag b - 1)%Z by lia.
Qed.

Lemma fexp_opp q : fexp (- q) = fexp q.
Proof.
  unfold fexp, mag. destruct q as [n d]. simpl. by rewrite Z.abs_opp.
Qed.

Lemma rnd64_opp q : rnd64 (- q) == - rnd64 q.
Proof.
  destruct (Qeq_dec q 0) as [Hq|Hq].
  - rewrite (rnd64_zero q Hq), (rnd64_zero (- q)); [done|]. by rewrite Hq.
  - rewrite !rnd64_unfold; [|done|intros H; apply Hq; lra].
    rewrite fexp_opp. unfold on_grid. pose proof (pow2_pos (fexp q)).
    rewrite (nearest_even_comp (- q / 2 ^ fexp q) (- (q / 2 ^ fexp q)))
      by (field; lra).
    rewrite nearest_even_opp, inject_Z_opp. ring.
Qed.

Lemma rnd64_nonneg q : 0 <= q → 0 <= rnd64 q.
Proof.
  intros Hq. destruct (Qeq_dec q 0) as [H0|H0].
  - by rewrite (rnd64_zero q H0).
  - rewrite rnd64_unfold by done. unfold on_grid.
    pose proof (pow2_pos (fexp q)).
    apply Qmult_le_0_compat; [|lra].
    change 0 with (inject_Z 0). rewrite <-Zle_Qle.
    apply nearest_even_nonneg.
    apply Qle_shift_div_l; [done|]. lra.
Qed.

Lemma rnd64_le a b : a <= b → rnd64 a <= rnd64 b.
Proof.
  intros Hab.
  destruct (Qlt_le_dec 0 a) as [Ha|Ha]; [by apply rnd64_le_pos|].
  destruct (Qlt_le_dec b 0) as [Hb|Hb].
  - assert (rnd64 (- b) <= rnd64 (- a)) as H.
    { apply rnd64_le_pos; lra. }
    rewrite !rnd64_opp in H. lra.
  - pose proof (rnd64_nonneg b Hb) as Hrb.
    pose proof (rnd64_nonneg (- a) ltac:(lra)) as Hra. rewrite rnd64_opp in Hra.
    lra.
Qed.

Lemma rnd64_integer z : (Z.abs z ≤ 2 ^ 53)%Z → rnd64 (inject_Z z) == inject_Z z.
Proof.
  intros Hz. destruct (Z.eq_dec z 0%Z) as [->|Hnz]; [done|].
  assert (¬ inject_Z z == 0) as Hq.
  { change 0 with (inject_Z 0). by rewrite inject_Z_injective. }
  rewrite rnd64_unfold by done.
  destruct (mag_spec (inject_Z z) Hq) as [Hm1 Hm2].
  assert (Qabs (inject_Z z) == inject_Z (Z.abs z)) as Habs.
  { unfold Qabs, inject_Z. simpl. done. }
  rewrite Habs in Hm1, Hm2.
  assert (mag (inject_Z z) ≤ 54)%Z as Hm.
  { assert (mag (inject_Z z) - 1 < 54)%Z; [|lia].
    apply (Qpower_lt_compat_l_inv 2); [|done].
    eapply Qle_lt_trans; [exact Hm1|].
    rewrite (pow2_Z 54) by lia. rewrite <-Zlt_Qlt. lia. }
  set (e := fexp (inject_Z z)).
  assert (e ≤ 1)%Z as He by (unfold e, fexp; lia).
  destruct (Z.eq_dec e 1%Z) as [He1|He1].
  - assert (mag (inject_Z z) = 54%Z) as Hm54 by (unfold e, fexp in He1; lia).
    rewrite Hm54 in Hm1. replace (54 - 1)%Z with 53%Z in Hm1 by lia.
    rewrite (pow2_Z 53) in Hm1 by lia. rewrite <-Zle_Qle in Hm1.
    assert (z = 2 ^ 53 ∨ z = - 2 ^ 53)%Z as Hcases by lia.
    rewrite He1.
    assert (inject_Z z == inject_Z (z / 2) * 2 ^ 1) as Hstep.
    { change (2 ^ 1) with (inject_Z 2). rewrite <-inject_Z_mult.
      apply inject_Z_injective. destruct Hcases as [-> | ->]; reflexivity. }
    rewrite Hstep at 1. rewrite on_grid_step. by rewrite <-Hstep.
  - assert (inject_Z z == inject_Z (z * 2 ^ (- e)) * 2 ^ e) as Hstep.
    { rewrite inject_Z_mult, <-(pow2_Z (- e)) by lia.
      rewrite <-Qmult_assoc, <-pow2_add.
      replace (- e + e)%Z with 0%Z by lia. change (2 ^ 0) with 1. ring. }
    rewrite Hstep at 1. rewrite on_grid_step. by rewrite <-Hstep.
Qed.

#[export] Instance binary64_spec : FloatSpec.
Proof.
  split.
  - apply rnd64_le.
  - apply rnd64_opp.
  - apply rnd64_integer.
Qed.


End Binary64Facts.

(** ** The spatial index *)

Module SpatialHashFacts.
Import JS SpatialHash.

Section sets.
Context `{EqDecision A}.
Implicit Types (e : A) (s : list A).

Lemma elem_of_set_add e e' s : e' ∈ set_add e s ↔ e' = e ∨ e' ∈ s.
Proof.
  unfold set_add. case_decide as Hin.
  - split; [by right|]. by intros [->|?].
  - rewrite elem_of_app, list_elem_of_singleton. tauto.
Qed.

Lemma set_add_idem e s : set_add e (set_add e s) = set_add e s.
Proof.
  unfold set_add at 1. rewrite decide_True; [done|].
  apply elem_of_set_add. by left.
Qed.

Lemma elem_of_set_delete e e' s : e' ∈ set_delete e s ↔ e' ≠ e ∧ e' ∈ s.
Proof. unfold set_delete. by rewrite list_elem_of_filter. Qed.

Lemma set_delete_notin e s : e ∉ s → set_delete e s = s.
Proof.
  unfold set_delete. induction s as [|a s IH]; [done|].
  rewrite not_elem_of_cons. intros [Hne Hs].
  rewrite filter_cons_True by done. by rewrite IH.
Qed.

Lemma set_delete_add e s : e ∉ s → set_delete e (set_add e s) = s.
Proof.
  intros Hs. unfold set_add. rewrite decide_False by done.
  unfold set_delete. rewrite filter_app.
  fold (set_delete e s). rewrite set_delete_notin by done.
  rewrite filter_cons_False by (intros Hc; by apply Hc).
  by rewrite filter_nil, app_nil_r.
Qed.

Lemma foldl_set_add e s l :
  e ∈ foldl (λ res ent, set_add ent res) s l ↔ e ∈ s ∨ e ∈ l.
Proof.
  revert s. induction l as [|a l IH]; intros s; simpl.
  - rewrite elem_of_nil. tauto.
  - rewrite IH, elem_of_set_add, elem_of_cons. tauto.
Qed.
End sets.

Section index.
Context {fl : Float}.

(** A loop that rewrites one key per turn with an idempotent update
    leaves at key [k] the update of the old entry when [k] was
    visited, and the old entry otherwise. *)
Lemma foldl_partial_alter_lookup {V} (f : option V → option V)
    (m : gmap Z V) (ks : list Z) (k : Z) :
  (∀ o, f (f o) = f o) →
  foldl (λ m k, partial_alter f k m) m ks !! k =
    if decide (k ∈ ks) then f (m !! k) else m !! k.
Proof.
  intros Hidem. revert m. induction ks as [|a ks IH]; intros m; cbn [foldl].
  - case_decide as Hin; [by apply elem_of_nil in Hin | done].
  - rewrite IH, lookup_partial_alter.
    destruct (decide (a = k)) as [->|Hne].
    + destruct (decide (k ∈ k :: ks)) as [_|Hn].
      * case_decide; [apply Hidem | done].
      * exfalso. apply Hn, list_elem_of_here.
    + destruct (decide (k ∈ ks)) as [Hin|Hin];
        destruct (decide (k ∈ a :: ks)) as [Hin'|Hin']; try done.
      * exfalso. by apply Hin', list_elem_of_further.
      * apply elem_of_cons in Hin' as [->|?]; done.
Qed.

Lemma bucket_add_alter e c k :
  bucket_add e c k = partial_alter (add_entry e) k c.
Proof.
  unfold bucket_add, add_entry. apply map_eq. intros j.
  rewrite lookup_partial_alter.
  destruct (c !! k) eqn:Hk; rewrite lookup_insert; case_decide; done.
Qed.

Lemma bucket_delete_alter e c k :
  bucket_delete e c k = partial_alter (delete_entry e) k c.
Proof.
  unfold bucket_delete, delete_entry. apply map_eq. intros j.
  rewrite lookup_partial_alter.
  destruct (c !! k) eqn:Hk; simpl.
  - destruct (decide (length (set_delete e l) = 0%nat)).
    + rewrite lookup_delete. case_decide; done.
    + rewrite lookup_insert. case_decide; done.
  - case_decide; subst; done.
Qed.

Lemma foldl_ext_fun {X Y} (f g : X → Y → X) x l :
  (∀ a b, f a b = g a b) → foldl f x l = foldl g x l.
Proof.
  intros H. revert x. induction l as [|b l IH]; intros x; simpl; [done|].
  by rewrite H, IH.
Qed.

Lemma add_entry_idem e o : add_entry e (add_entry e o) = add_entry e o.
Proof. unfold add_entry. simpl. by rewrite set_add_idem. Qed.

Lemma delete_entry_idem e o : delete_entry e (delete_entry e o) = delete_entry e o.
Proof.
  unfold delete_entry. destruct o as [b|]; [|done].
  destruct (decide (length (set_delete e b) = 0%nat)) as [Hz|Hz]; [done|].
  assert (set_delete e (set_delete e b) = set_delete e b) as ->.
  { apply set_delete_notin. rewrite elem_of_set_delete. tauto. }
  by rewrite decide_False.
Qed.

Lemma insert_cells_lookup h g e k :
  cells (insert h g e) !! k =
    if decide (k ∈ _entityCells g (h e))
    then Some (set_add e (default [] (cells g !! k)))
    else cells g !! k.
Proof.
  unfold insert; simpl.
  rewrite (foldl_ext_fun _ (λ m k, partial_alter (add_entry e) k m))
    by apply bucket_add_alter.
  rewrite foldl_partial_alter_lookup by apply add_entry_idem. done.
Qed.

Lemma delete_cells_lookup e c keys k :
  foldl (bucket_delete e) c keys !! k =
    if decide (k ∈ keys) then delete_entry e (c !! k) else c !! k.
Proof.
  rewrite (foldl_ext_fun _ (λ m k, partial_alter (delete_entry e) k m))
    by apply bucket_delete_alter.
  by rewrite foldl_partial_alter_lookup by apply delete_entry_idem.
Qed.

(** No operation leaves an empty bucket behind. *)
Lemma set_add_nonempty (e : ref) s : set_add e s ≠ [].
Proof.
  intros H. assert (e ∈ set_add e s) as Hin by (apply elem_of_set_add; by left).
  rewrite H in Hin. by apply not_elem_of_nil in Hin.
Qed.

Lemma insert_no_empty h g e : no_empty_bucket g → no_empty_bucket (insert h g e).
Proof.
  intros Hg k b. rewrite insert_cells_lookup. case_decide.
  - intros [= <-]. apply set_add_nonempty.
  - apply Hg.
Qed.

Lemma remove_no_empty g e : no_empty_bucket g → no_empty_bucket (remove g e).
Proof.
  intros Hg k b. unfold remove.
  destruct (entityCells g !! e) as [keys|]; [|apply Hg]. simpl.
  rewrite delete_cells_lookup. case_decide; [|apply Hg].
  unfold delete_entry. destruct (cells g !! k) as [b0|]; [|done].
  case_decide as Hlen; [done|]. intros [= <-] Hnil. by rewrite Hnil in Hlen.
Qed.

Lemma reachable_no_empty g : reachable g → no_empty_bucket g.
Proof.
  induction 1 as [cs|g _ _|h g e _ IH|g e _ IH|h g e _ IH].
  - intros k b. simpl. by rewrite lookup_empty.
  - intros k b. simpl. by rewrite lookup_empty.
  - by apply insert_no_empty.
  - by apply remove_no_empty.
  - unfold update. by apply insert_no_empty, remove_no_empty.
Qed.

Lemma grid_eq g1 g2 :
  cellSize g1 = cellSize g2 → invCell g1 = invCell g2 →
  cells g1 = cells g2 → entityCells g1 = entityCells g2 → g1 = g2.
Proof. destruct g1, g2; simpl; congruence. Qed.

Lemma remove_insert h g e :
  no_empty_bucket g → ¬ holds g e → remove (insert h g e) e = g.
Proof.
  intros Hne Hholds.
  assert (entityCells g !! e = None) as Hec.
  { destruct (entityCells g !! e) eqn:E; [|done].
    exfalso. apply Hholds. left. rewrite E. eauto. }
  assert (∀ k b, cells g !! k = Some b → e ∉ b) as Hb.
  { intros k b Hk Hin. apply Hholds. right. eauto. }
  unfold remove. change (entityCells (insert h g e))
    with (<[e := _entityCells g (h e)]> (entityCells g)).
  rewrite lookup_insert_eq.
  apply grid_eq; simpl; try done.
  - apply map_eq. intros k. rewrite delete_cells_lookup.
    fold (cells (insert h g e)).
    change (foldl (bucket_add e) (cells g) (_entityCells g (h e)))
      with (cells (insert h g e)).
    rewrite insert_cells_lookup.
    destruct (decide (k ∈ _entityCells g (h e))); [|done].
    unfold delete_entry.
    destruct (cells g !! k) as [b|] eqn:Hk; simpl.
    + rewrite set_delete_add by eauto.
      rewrite decide_False; [done|].
      specialize (Hne k b Hk). destruct b; simpl; [done|lia].
    + rewrite set_delete_add by apply not_elem_of_nil. by rewrite decide_True.
  - rewrite delete_insert_eq. by apply delete_id.
Qed.

Lemma elem_of_cell_range a b c d cx cy :
  (cx, cy) ∈ cell_range a b c d ↔ (a ≤ cx ≤ b)%Z ∧ (c ≤ cy ≤ d)%Z.
Proof.
  unfold cell_range. rewrite list_elem_of_bind. split.
  - intros (i & Hin & Hi). apply list_elem_of_bind in Hin as (j & Hin & Hj).
    apply list_elem_of_singleton in Hin as [= -> ->].
    apply elem_of_seqZ in Hi, Hj. lia.
  - intros [Hx Hy]. exists cx. split; [|apply elem_of_seqZ; lia].
    apply list_elem_of_bind. exists cy. split; [|apply elem_of_seqZ; lia].
    by apply list_elem_of_singleton.
Qed.

Lemma elem_of_query g x y r e :
  e ∈ query g x y r ↔
  ∃ cx cy b,
    (Math_floor ((x ⊖ r) ⊗ invCell g) ≤ cx ≤ Math_floor ((x ⊕ r) ⊗ invCell g))%Z ∧
    (Math_floor ((y ⊖ r) ⊗ invCell g) ≤ cy ≤ Math_floor ((y ⊕ r) ⊗ invCell g))%Z ∧
    cells g !! cell_key cx cy = Some b ∧ e ∈ b.
Proof.
  unfold query.
  set (L := cell_range _ _ _ _).
  assert (∀ acc, e ∈ foldl (λ result c,
             match cells g !! cell_key c.1 c.2 with
             | Some bucket => foldl (λ res ent, set_add ent res) result bucket
             | None => result
             end) acc L ↔
           e ∈ acc ∨ ∃ c b, c ∈ L ∧ cells g !! cell_key c.1 c.2 = Some b ∧ e ∈ b)
    as Hfold.
  { induction L as [|c L IH]; intros acc; cbn [foldl].
    - split; [by left|]. intros [?|(c & b & Hc & _)]; [done|].
      by apply elem_of_nil in Hc.
    - rewrite IH. split.
      + intros [Hacc|(c' & b & Hc' & Hb & Hin)].
        * destruct (cells g !! cell_key c.1 c.2) as [b|] eqn:Hk; [|by left].
          apply foldl_set_add in Hacc as [?|?]; [by left|].
          right. exists c, b. split; [apply list_elem_of_here|done].
        * right. exists c', b. split; [by apply list_elem_of_further|done].
      + intros [Hacc|(c' & b & Hc' & Hb & Hin)].
        * left. destruct (cells g !! cell_key c.1 c.2); [|done].
          apply foldl_set_add. by left.
        * apply elem_of_cons in Hc' as [->|Hc'].
          -- left. rewrite Hb. apply foldl_set_add. by right.
          -- right. by exists c', b. }
  rewrite Hfold. split.
  - intros [Hnil|([cx cy] & b & Hc & Hb & Hin)]; [by apply elem_of_nil in Hnil|].
    apply elem_of_cell_range in Hc as [??]. by exists cx, cy, b.
  - intros (cx & cy & b & Hx & Hy & Hb & Hin). right.
    exists (cx, cy), b. split; [by apply elem_of_cell_range|done].
Qed.








Local Open Scope Q_scope.

Lemma num_or_cases v d : num_or v d = d ∨ v = Some (num_or v d).
Proof.
  unfold num_or. destruct v as [q|]; [|by left].
  destruct (Qeq_bool q 0); [by left|by right].
Qed.






Section rounding.
Context {fls : FloatSpec}.

Lemma round_comp a b : a == b → round a == round b.
Proof. intros Hab. apply Qle_antisym; apply round_le; lra. Qed.

#[export] Instance round_proper : Proper (Qeq ==> Qeq) round.
Proof. intros a b. apply round_comp. Qed.

Lemma round_0 : round 0 == 0.
Proof. pose proof (round_opp 0) as H0. rewrite (round_comp (- 0) 0) in H0; lra. Qed.

Lemma round_nonneg a : 0 <= a → 0 <= round a.
Proof. intros Ha. rewrite <-round_0. by apply round_le. Qed.

(** The column of a rounded sum grows with the sum. *)
Lemma cell_le inv a b :
  0 <= inv → a <= b →
  (Math_floor (round (round a * inv)) ≤ Math_floor (round (round b * inv)))%Z.
Proof.
  intros Hinv Hab. apply Qfloor_resp_le, round_le, Qmult_le_compat_r; [|done].
  by apply round_le.
Qed.





End rounding.



End index.

End SpatialHashFacts.

(** ** The zone generator *)

Module MapGeneratorFacts.
Import JS MapGenerator Reference.
Local Open Scope Q_scope.

(** One step of a sequence: run the first computation [c] of the goal
    and name its result and the state it leaves. *)
Tactic Notation "run" constr(c) "as" simple_intropattern(p) :=
  unfold bind at 1; destruct c as p.

Lemma Qlt_bool_false a b : Qlt_bool a b = false ↔ b <= a.
Proof.
  unfold Qlt_bool. rewrite negb_false_iff. apply Qle_bool_iff.
Qed.

Lemma Qlt_bool_true a b : Qlt_bool a b = true ↔ a < b.
Proof.
  unfold Qlt_bool. rewrite negb_true_iff. split.
  - intros Hf. apply Qnot_le_lt. intros Hle.
    apply Qle_bool_iff in Hle. congruence.
  - intros Hlt. destruct (Qle_bool b a) eqn:E; [|done].
    apply Qle_bool_iff in E. exfalso. by apply (Qlt_not_le a b).
Qed.

Section loops.
Context `{SeededRandom} `{JSMath} {fl : Float}.

Lemma for_n_length {A} n i (body : Z → Rand A) s :
  length (for_n n i body s).1 = n.
Proof.
  revert i s. induction n as [|n IH]; intros i s; [done|].
  cbn [for_n]. run (body i s) as [a s1].
  unfold bind at 1. specialize (IH (i + 1)%Z s1).
  destruct (for_n n (i + 1)%Z body s1) as [rest s2]. simpl in *. by f_equal.
Qed.

Lemma for_count_length {A} count (body : Z → Rand A) s :
  length (for_count count body s).1 = Z.to_nat count.
Proof. apply for_n_length. Qed.

(** What every element pushed by the body satisfies holds of the
    whole list. *)
Lemma for_n_Forall {A} (P : A → Prop) n i (body : Z → Rand A) s :
  (∀ i s, P (body i s).1) → Forall P (for_n n i body s).1.
Proof.
  intros Hbody. revert i s. induction n as [|n IH]; intros i s.
  - constructor.
  - cbn [for_n]. unfold bind at 1. pose proof (Hbody i s) as Ha.
    destruct (body i s) as [a s1]. unfold bind at 1.
    specialize (IH (i + 1)%Z s1).
    destruct (for_n n (i + 1)%Z body s1) as [rest s2]. simpl in *.
    by constructor.
Qed.

(** A loop keeps what its body keeps while the guard holds. *)
Lemma for_while_inv {S} (P : S → Prop) n i cond (body : Z → S → Rand S) acc s :
  P acc →
  (∀ i a s, P a → cond a = true → P (body i a s).1) →
  P (for_while n i cond body acc s).1.
Proof.
  intros Hacc Hbody. revert i acc s Hacc.
  induction n as [|n IH]; intros i acc s Hacc; [done|].
  cbn [for_while]. destruct (cond acc) eqn:Hc; [|done].
  unfold bind. pose proof (Hbody i acc s Hacc Hc) as Hstep.
  destruct (body i acc s) as [acc' s1]. by apply IH.
Qed.

Lemma for_acc_inv {S} (P : S → Prop) count (body : Z → S → Rand S) acc s :
  P acc → (∀ i a s, P a → P (body i a s).1) →
  P (for_acc count body acc s).1.
Proof. intros Hacc Hbody. unfold for_acc. apply for_while_inv; auto. Qed.

Lemma for_int_bound_inv {S} (P : S → Prop) fuel i lo hi
    (body : Z → S → Rand S) acc s :
  P acc → (∀ i a s, P a → P (body i a s).1) →
  P (for_int_bound fuel i lo hi body acc s).1.
Proof.
  intros Hacc Hbody. revert i acc s Hacc.
  induction fuel as [|n IH]; intros i acc s Hacc; [done|].
  cbn [for_int_bound]. run (int lo hi s) as [k s1].
  destruct (i <? k)%Z; [|done]. unfold bind.
  pose proof (Hbody i acc s1 Hacc) as Hstep.
  destruct (body i acc s1) as [acc' s2]. by apply IH.
Qed.

(** *** Enemy placement *)

Lemma spaced_snoc d spawns b :
  spaced d spawns →
  (∀ a, a ∈ spawns →
     d <= Math_hypot (EnemySpawn.x b - EnemySpawn.x a)
                     (EnemySpawn.y b - EnemySpawn.y a)) →
  spaced d (spawns ++ [b]).
Proof.
  intros Hsp Hb i j a c Hij Hi Hj.
  assert (j < length (spawns ++ [b]))%nat as Hlen
    by (apply lookup_lt_is_Some; eauto).
  rewrite length_app in Hlen. simpl in Hlen.
  rewrite lookup_app_l in Hi by lia.
  destruct (decide (j = length spawns)) as [->|Hne].
  - rewrite lookup_app_r, Nat.sub_diag in Hj by lia.
    injection Hj as <-. apply Hb. by eapply list_elem_of_lookup_2.
  - rewrite lookup_app_l in Hj by lia. exact (Hsp i j a c Hij Hi Hj).
Qed.

Lemma too_close_false x y d spawns :
  too_close x y d spawns = false →
  ∀ a, a ∈ spawns → d <= Math_hypot (x - EnemySpawn.x a) (y - EnemySpawn.y a).
Proof.
  unfold too_close. intros Hf a Ha.
  apply Qlt_bool_false. destruct (Qlt_bool _ d) eqn:E; [|done].
  assert (existsb (λ s, Qlt_bool (Math_hypot (x - EnemySpawn.x s)
            (y - EnemySpawn.y s)) d) spawns = true) as Ht.
  { apply existsb_exists. exists a. split; [by apply list_elem_of_In|done]. }
  congruence.
Qed.
Lemma enemy_spawn_loop_placed fuel pool count w h spawn exit dS dE dB spawns s :
  placed count spawn exit dS dE dB spawns →
  placed count spawn exit dS dE dB
    (enemy_spawn_loop fuel pool count w h spawn exit dS dE dB spawns s).1.
Proof.
  revert spawns s. induction fuel as [|fuel IH]; intros spawns s Hp; [done|].
  cbn [enemy_spawn_loop].
  destruct (Z.of_nat (length spawns) <? count)%Z eqn:Hlt; [|done].
  apply Z.ltb_lt in Hlt.
  run (range 100 (w - 100) s) as [x s1].
  run (range 100 (h - 100) s1) as [y s2].
  destruct (Qlt_bool _ dS) eqn:HdS; [by apply IH|].
  destruct (Qlt_bool _ dE) eqn:HdE; [by apply IH|].
  destruct (too_close x y dB spawns) eqn:Htc; [by apply IH|].
  run (pick pool s2) as [type s3].
  unfold bind at 1. destruct (pick _ s3) as [patrol s4].
  run (int 50 150 s4) as [pr s5].
  apply IH. destruct Hp as (Hlen & HS & HE & HB).
  apply Qlt_bool_false in HdS, HdE.
  split; [|split; [|split]].
  - rewrite length_app. simpl. lia.
  - apply Forall_app. split; [done|]. by repeat constructor.
  - apply Forall_app. split; [done|]. by repeat constructor.
  - apply spaced_snoc; [done|]. simpl. by apply too_close_false.
Qed.

Lemma placed_nil count spawn exit dS dE dB : placed count spawn exit dS dE dB [].
Proof.
  split; [simpl; lia|]. split; [constructor|]. split; [constructor|].
  intros i j a b _ Hi. by rewrite lookup_nil in Hi.
Qed.

Lemma generateEliteSpawns_length tune pool density w h s :
  length (generateEliteSpawns tune pool density w h s).1 =
    Z.to_nat (Z.max 1 (Z.min (Qfloor (w * h * density))
                (typeof_number (Tune.maxEliteSpawnsPerZone tune) 8%Z))).
Proof. unfold generateEliteSpawns. by rewrite for_count_length. Qed.

(** *** Obstacle budget *)

(** A property of the result of [k] that holds whatever came before
    holds of the sequence. *)
Lemma bind_post {A B} (P : B → Prop) (m : Rand A) (k : A → Rand B) s :
  (∀ a s', P (k a s').1) → P (bind m k s).1.
Proof. intros Hk. unfold bind. destruct (m s) as [a s']. apply Hk. Qed.

Lemma bind_post_with {A B} (R : A → Prop) (P : B → Prop)
    (m : Rand A) (k : A → Rand B) s :
  R (m s).1 → (∀ a s', R a → P (k a s').1) → P (bind m k s).1.
Proof.
  intros Hm Hk. unfold bind. destruct (m s) as [a s']. by apply Hk.
Qed.

Lemma wall_asteroid_within w h budget bx by_ jx jy px py cw side walls s :
  (Z.of_nat (length walls) < budget)%Z →
  within budget (wall_asteroid w h budget bx by_ jx jy px py cw side walls s).1.
Proof.
  intros Hlt. unfold wall_asteroid, within.
  do 4 (apply bind_post; intros ? ?).
  destruct (_ || _); [simpl; lia|].
  do 3 (apply bind_post; intros ? ?).
  simpl. rewrite length_app. simpl. lia.
Qed.

Lemma wall_segment_within w h budget per seg sx sy ex ey cw i walls s :
  within budget walls →
  within budget (wall_segment w h budget per seg sx sy ex ey cw i walls s).1.
Proof.
  intros Hw. unfold wall_segment.
  do 2 (apply bind_post; intros ? ?).
  apply (bind_post_with (within budget)).
  - apply for_while_inv; [done|].
    intros ? acc ? _ Hc. apply Z.ltb_lt in Hc. by apply wall_asteroid_within.
  - intros walls' ? Hw'. apply for_while_inv; [done|].
    intros ? acc ? _ Hc. apply Z.ltb_lt in Hc. by apply wall_asteroid_within.
Qed.

Lemma corridor_within w h budget per walls s :
  within budget walls → within budget (corridor w h budget per walls s).1.
Proof.
  intros Hw. unfold corridor.
  apply bind_post; intros ? ?.
  apply bind_post; intros [[[sx sy] ex] ey] ?.
  do 2 (apply bind_post; intros ? ?).
  apply for_acc_inv; [done|]. intros. by apply wall_segment_within.
Qed.

Lemma generateCorridorWalls_within w h budget s :
  within budget (_generateCorridorWalls w h budget s).1.
Proof.
  unfold _generateCorridorWalls. apply bind_post; intros ? ?.
  apply for_acc_inv; [unfold within; simpl; lia|].
  intros. by apply corridor_within.
Qed.

Lemma cluster_clustered mods depth w h cb len0 st s :
  clustered len0 cb st →
  clustered len0 cb (cluster mods depth w h cb st s).1.
Proof.
  intros Hst. unfold cluster.
  do 4 (apply bind_post; intros ? ?).
  apply for_while_inv; [done|].
  intros ? [obs used] ? [Hlen Hused] Hc. simpl in *.
  apply Z.ltb_lt in Hc.
  apply bind_post; intros o ?. split; simpl.
  - rewrite length_app. simpl. lia.
  - lia.
Qed.

Lemma budget_split (B : Z) :
  (Z.max 0 (Qfloor (inject_Z B * 0.4)) + Z.max 0 (Qfloor (inject_Z B * 0.3))
   ≤ Z.max 0 B)%Z.
Proof.
  pose proof (Qfloor_le (inject_Z B * 0.4)) as H4.
  pose proof (Qfloor_le (inject_Z B * 0.3)) as H3.
  set (f4 := Qfloor (inject_Z B * 0.4)) in *.
  set (f3 := Qfloor (inject_Z B * 0.3)) in *.
  destruct (Z.le_gt_cases 0 B) as [HB|HB].
  - assert (inject_Z 0 <= inject_Z B) as HBq by (rewrite <-Zle_Qle; lia).
    change (inject_Z 0) with 0 in HBq.
    assert (inject_Z (Z.max 0 f4 + Z.max 0 f3) <= inject_Z B) as Hq.
    { rewrite inject_Z_plus.
      assert (inject_Z (Z.max 0 f4) <= inject_Z B * 0.4).
      { destruct (Z.max_spec 0 f4) as [[_ ->]|[_ ->]]; [done|].
        change (inject_Z 0) with 0. lra. }
      assert (inject_Z (Z.max 0 f3) <= inject_Z B * 0.3).
      { destruct (Z.max_spec 0 f3) as [[_ ->]|[_ ->]]; [done|].
        change (inject_Z 0) with 0. lra. }
      lra. }
    rewrite <-Zle_Qle in Hq. lia.
  - assert (inject_Z B < inject_Z 0) as HBq by (rewrite <-Zlt_Qlt; lia).
    change (inject_Z 0) with 0 in HBq.
    assert (inject_Z f4 < inject_Z 0) as H4' by (change (inject_Z 0) with 0; lra).
    assert (inject_Z f3 < inject_Z 0) as H3' by (change (inject_Z 0) with 0; lra).
    rewrite <-Zlt_Qlt in H4', H3'. lia.
Qed.

Lemma generateObstacles_length tune density w h options s :
  str_or (Options.difficulty options) "normal" ≠ "chaos"%string →
  (Z.of_nat (length (generateObstacles tune density w h options s).1)
   ≤ Z.max 0 (typeof_number (Tune.maxObstaclesPerZone tune) 1200%Z))%Z.
Proof.
  intros Hdiff. unfold generateObstacles.
  set (maxObs := typeof_number _ _).
  set (B := Math_minZ _ maxObs).
  assert (Z.max 0 B ≤ Z.max 0 maxObs)%Z as HB by (unfold B, Math_minZ; lia).
  pose proof (budget_split B) as Hsplit.
  apply (bind_post_with (within (Math_floor (Q_of B * 0.4))));
    [apply generateCorridorWalls_within|].
  intros walls s1 Hwalls. apply bind_post; intros clusterCount s2.
  apply (bind_post_with
           (clustered (Z.of_nat (length walls)) (Math_floor (Q_of B * 0.3)))).
  { apply for_while_inv.
    - split; simpl; lia.
    - intros. by apply cluster_clustered. }
  intros [obs used] s3 [Hlen Hused]. cbn [fst snd] in Hlen, Hused |- *.
  unfold bind at 1.
  pose proof (for_count_length (B - Z.of_nat (length obs))
                (λ _, scatter_rock (arr_or (Options.mods options) [])
                        (depth_or (Options.depth options)) w h) s3) as Hsc.
  destruct (for_count _ _ s3) as [scattered s4]. simpl in Hsc.
  rewrite bool_decide_eq_false_2 by done. simpl.
  rewrite length_app, Hsc. unfold within, Math_floor, Q_of in *. lia.
Qed.

(** *** Decoration cap *)

Lemma generateDecorations_length `{!SeededRandomSpec} tune biome w h s :
  (Z.of_nat (length (generateDecorations tune biome w h s).1)
   ≤ Z.max (typeof_number (Tune.maxDecorationsPerZone tune) 3000%Z) 19)%Z.
Proof.
  unfold generateDecorations. set (maxDec := typeof_number _ _).
  unfold bind at 1. pose proof (rng_int_bounds 4 8 s) as Hd.
  unfold int at 1. destruct (rng_int 4 8 s) as [dustCount s1].
  unfold bind at 1.
  pose proof (for_count_length dustCount (λ _, dust_cloud biome w h) s1) as Hdl.
  destruct (for_count dustCount _ s1) as [dust s2].
  unfold bind at 1. pose proof (rng_int_bounds 2 5 s2) as Hn.
  unfold int at 1. destruct (rng_int 2 5 s2) as [nebulaCount s3].
  unfold bind at 1.
  pose proof (for_count_length nebulaCount (λ _, nebula_patch biome w h) s3) as Hnl.
  destruct (for_count nebulaCount _ s3) as [nebulae s4].
  unfold bind at 1. pose proof (rng_int_bounds 3 6 s4) as Hl.
  unfold int at 1. destruct (rng_int 3 6 s4) as [landmarkCount s5].
  unfold bind at 1.
  pose proof (for_count_length landmarkCount
                (λ _, landmark (_getLandmarkTypes biome) w h) s5) as Hll.
  destruct (for_count landmarkCount _ s5) as [landmarks s6].
  unfold bind at 1.
  match goal with
  | |- context [for_count ?c ?b s6] =>
      pose proof (for_count_length c b s6) as Hsl;
      destruct (for_count c b s6) as [small s7]
  end.
  simpl in *. rewrite !length_app in *. rewrite Hsl.
  specialize (Hd ltac:(lia)). specialize (Hn ltac:(lia)).
  specialize (Hl ltac:(lia)). unfold Math_minZ. lia.
Qed.

(** *** Resource nodes *)

Lemma node_position_clear attempts w h spawn exit s x y :
  (node_position attempts w h spawn exit s).1 = Some (x, y) →
  clear_of spawn exit x y.
Proof.
  revert s. induction attempts as [|n IH]; intros s; [done|].
  cbn [node_position]. unfold bind at 1.
  destruct (range 150 (w - 150) s) as [x' s1].
  run (range 150 (h - 150) s1) as [y' s2].
  destruct (Qlt_bool _ 300) eqn:HS; [apply IH|].
  destruct (Qlt_bool _ 200) eqn:HE; [apply IH|].
  intros [= -> ->]. split; by apply Qlt_bool_false.
Qed.

Lemma resource_node_clear depth w h spawn exit s n :
  (resource_node depth w h spawn exit s).1 = Some n →
  clear_of spawn exit (Obstacle.x n) (Obstacle.y n).
Proof.
  unfold resource_node. unfold bind at 1.
  pose proof (node_position_clear 20 w h spawn exit s) as Hpos.
  destruct (node_position 20 w h spawn exit s) as [[[x y]|] s1]; [|done].
  specialize (Hpos x y eq_refl).
  unfold bind at 1. destruct (range _ _ s1) as [roll s2].
  destruct (match weighted_walk _ roll with Some _ => _ | None => _ end)
    as [picked|]; [|done].
  run (int 25 50 s2) as [radius s3].
  run (int 25 55 s3) as [hp s4].
  run (range 0 TWO_PI s4) as [rot s5].
  by intros [= <-].
Qed.

Lemma generateResourceNodes_clear zone actConfig options s :
  Forall (λ n, clear_of (Zone.spawn zone) (exit_of zone)
                 (Obstacle.x n) (Obstacle.y n))
         (generateResourceNodes zone actConfig options s).1.1.
Proof.
  unfold generateResourceNodes. apply bind_post; intros count s1.
  unfold bind at 1.
  pose proof (for_n_Forall
    (λ o, ∀ n, o = Some n →
       clear_of (Zone.spawn zone) (exit_of zone) (Obstacle.x n) (Obstacle.y n))
    (Z.to_nat count) 0%Z
    (λ _, resource_node (depth_or (Options.depth options))
            (Zone.width zone) (Zone.height zone)
            (Zone.spawn zone) (exit_of zone)) s1) as Hall.
  unfold for_count.
  destruct (for_n _ _ _ s1) as [made s2]. cbn [fst] in *.
  apply Forall_forall. intros n Hn.
  apply list_elem_of_omap in Hn as (o & Ho & Heq).
  unfold id in Heq. subst o.
  rewrite Forall_forall in Hall.
  apply (λ Hb, Hall Hb (Some n) Ho n eq_refl).
  intros i s' n'. apply resource_node_clear.
Qed.

(** *** Objective gating *)

(** Below depth 5 the two gated archetypes weigh nothing, and the walk
    over the table steps over them. *)
Lemma picked_objective_gated depth roll :
  (depth < 5)%Z →
  picked_objective depth roll ∈
    [Some "exterminate"; Some "timetrial"; Some "lockdown"]%string.
Proof.
  intros Hd. unfold picked_objective, objectives.
  apply Z.ltb_lt in Hd. rewrite Hd. cbn [weighted_walk head fmap option_fmap option_map fst].
  destruct (Qle_bool (roll - 30) 0) eqn:E1; [set_solver|].
  destruct (Qle_bool (roll - 30 - 0) 0) eqn:E2.
  { exfalso. apply Qle_bool_iff in E2.
    assert (roll - 30 <= 0) as Hle by lra.
    apply Qle_bool_iff in Hle. congruence. }
  destruct (Qle_bool (roll - 30 - 0 - 15) 0) eqn:E3; [set_solver|].
  destruct (Qle_bool (roll - 30 - 0 - 15 - 0) 0) eqn:E4.
  { exfalso. apply Qle_bool_iff in E4.
    assert (roll - 30 - 0 - 15 <= 0) as Hle by lra.
    apply Qle_bool_iff in Hle. congruence. }
  destruct (Qle_bool (roll - 30 - 0 - 15 - 0 - 20) 0); set_solver.
Qed.

Lemma generateObjective_none zone depth s :
  (depth < 3)%Z → (generateObjective zone depth s).1.1 = None.
Proof.
  intros Hd. unfold generateObjective.
  by rewrite (proj2 (Z.leb_le depth 2)) by lia.
Qed.

Lemma generateObjective_type zone depth s o :
  (generateObjective zone depth s).1.1 = Some o →
  ∃ roll, picked_objective depth roll = Some (Objective.type o).
Proof.
  unfold generateObjective. destruct (depth <=? 2)%Z; [done|].
  unfold bind at 1. destruct (range 0 _ s) as [roll s1].
  fold (picked_objective depth roll).
  intros Ho. exists roll. revert Ho.
  unfold is_str.
  repeat case_bool_decide; try (intros [= <-]; done).
  all: try (unfold bind; destruct (for_count _ _ s1) as [gens s2];
            intros [= <-]; done).
Qed.

(** *** The shape of [generate] *)

Lemma frame_refl z : frame z z.
Proof. by repeat split. Qed.

Lemma frame_trans z1 z2 z3 : frame z1 z2 → frame z2 z3 → frame z1 z3.
Proof. unfold frame. intuition congruence. Qed.

Lemma frame_set_lists z es os : frame z (set_lists z es os).
Proof. by repeat split. Qed.

Lemma frame_set_results z ps ns o b : frame z (set_results z ps ns o b).
Proof. by repeat split. Qed.

Lemma poi_loop_frame pts i tier depth actConfig st s :
  frame st.2 (poi_loop pts i tier depth actConfig st s).1.2.
Proof.
  revert i st s. induction pts as [|pt pts IH]; intros i st s;
    [apply frame_refl|].
  cbn [poi_loop]. run (pick tier s) as [ty s1].
  unfold bind at 1. destruct (_createPOI _ _ _ _ _ _ s1) as [[p|] s2].
  - eapply frame_trans; [|apply IH]. cbn [snd].
    eapply frame_trans; apply frame_set_lists.
  - apply IH.
Qed.

Lemma generatePOIs_frame zone actConfig options s :
  frame zone (generatePOIs zone actConfig options s).1.2.
Proof.
  unfold generatePOIs. do 2 (apply bind_post; intros ? ?).
  apply (poi_loop_frame _ _ _ _ _ ([], zone)).
Qed.

Lemma generateResourceNodes_frame zone actConfig options s :
  frame zone (generateResourceNodes zone actConfig options s).1.2.
Proof.
  unfold generateResourceNodes. do 2 (apply bind_post; intros ? ?).
  apply frame_set_lists.
Qed.

Lemma generateObjective_frame zone depth s :
  frame zone (generateObjective zone depth s).1.2.
Proof.
  unfold generateObjective. destruct (depth <=? 2)%Z; [apply frame_refl|].
  apply bind_post; intros roll s1.
  repeat (destruct (is_str _ _); [try apply frame_refl|]);
    try apply frame_refl.
  apply bind_post; intros gens s2. apply frame_set_lists.
Qed.

Lemma pair_fst {A B} (p : A * B) a b : p = (a, b) → a = p.1.
Proof. by intros ->. Qed.

Lemma bind_run {A B} (m : Rand A) (k : A → Rand B) s b s'' :
  bind m k s = (b, s'') → ∃ a s', m s = (a, s') ∧ k a s' = (b, s'').
Proof. unfold bind. destruct (m s) as [a s']. eauto. Qed.

(** What [generate] returns, field by field, in terms of the passes
    that produce it. *)
Lemma generate_run state actConfig zoneSeed options caller :
  let z := (generate state actConfig zoneSeed options caller).1 in
  let tune := State.exploration state in
  let cfg := default GenCfg.empty (ActConfig.generation actConfig) in
  let depth := depth_or (Options.depth options) in
  let mods := arr_or (Options.mods options) [] in
  let diff := str_or (Options.difficulty options) "normal" in
  let w := Zone.width z in
  let h := Zone.height z in
  ∃ exit s_spawn s_exit s_elite s_dec zoneR s_res zoneO s_obj,
    Zone.spawn z = (generateSpawnPoint w h s_spawn).1 ∧
    Zone.exit z = Some exit ∧
    exit = (generateExitPoint (Zone.spawn z) w h s_exit).1 ∧
    Zone.eliteSpawns z =
      (generateEliteSpawns tune
         (arr_or (ActConfig.elitePool actConfig) ["commander"%string])
         (eliteDensity_of tune cfg depth mods diff) w h s_elite).1 ∧
    Zone.decorations z =
      (generateDecorations tune (ActConfig.biome actConfig) w h s_dec).1 ∧
    frame zoneR z ∧
    Zone.resourceNodes z =
      (generateResourceNodes zoneR actConfig options s_res).1.1 ∧
    Zone.objective z = (generateObjective zoneO depth s_obj).1.1.
Proof.
  unfold generate.
  destruct (generate_from state actConfig zoneSeed options (rng_new zoneSeed))
    as [z s_end] eqn:E. cbn [fst].
  unfold generate_from in E.
  apply bind_run in E as (width0 & s1 & _ & E).
  apply bind_run in E as (height0 & s2 & _ & E).
  set (w := scale_dimension _ _ width0) in E.
  set (h := scale_dimension _ _ height0) in E.
  apply bind_run in E as (spawn & s3 & Espawn & E).
  apply bind_run in E as (parallax & s4 & _ & E).
  apply bind_run in E as (exit & s5 & Eexit & E).
  apply bind_run in E as (enemy0 & s6 & _ & E).
  apply bind_run in E as (enemy1 & s7 & _ & E).
  apply bind_run in E as (elites & s8 & Eelite & E).
  apply bind_run in E as (obstacles & s9 & _ & E).
  apply bind_run in E as (decorations & s10 & Edec & E).
  set (zone0 := {| Zone.seed := zoneSeed |}) in E.
  apply bind_run in E as ([pois zoneP] & s11 & Epoi & E).
  apply bind_run in E as ([nodes zoneR] & s12 & Eres & E).
  apply bind_run in E as ([obj zoneO] & s13 & Eobj & E).
  apply bind_run in E as (branch & s14 & _ & E).
  injection E as <- _.
  pose proof (generatePOIs_frame zone0 actConfig options s10) as FP.
  rewrite Epoi in FP. cbn [fst snd] in FP.
  pose proof (generateResourceNodes_frame zoneP actConfig options s11) as FR.
  rewrite Eres in FR. cbn [fst snd] in FR.
  pose proof (generateObjective_frame zoneR
                (depth_or (Options.depth options)) s12) as FO.
  rewrite Eobj in FO. cbn [fst snd] in FO.
  pose proof (frame_trans _ _ _ FP (frame_trans _ _ _ FR FO)) as F0.
  destruct F0 as (Fw & Fh & Fs & Fe & Fel & Fd).
  cbn [Zone.width Zone.height Zone.spawn Zone.exit Zone.eliteSpawns
       Zone.decorations Zone.resourceNodes Zone.objective set_results].
  rewrite <-Fw, <-Fh, <-Fs, <-Fe, <-Fel, <-Fd.
  cbn [Zone.width Zone.height Zone.spawn Zone.exit Zone.eliteSpawns
       Zone.decorations zone0].
  exists exit, s2, s4, s7, s9, zoneP, s11, zoneR, s12.
  split_and!; first [done | by eapply pair_fst | idtac].
  - apply (frame_trans _ zoneR); [done|].
    apply (frame_trans _ zoneO); [done|]. apply frame_set_results.
  - by rewrite Eres.
  - by rewrite Eobj.
Qed.

End loops.
End MapGeneratorFacts.

(** ** The reference generator meets the contract *)

Module ReferenceFacts.
Import JS MapGenerator Reference.
Local Open Scope Q_scope.

Lemma lcg_next_unit s : 0 <= (lcg_next s).1 ∧ (lcg_next s).1 < 1.
Proof.
  unfold lcg_next. cbn [fst].
  set (s' := ((s * 1664525 + 1013904223) mod 2 ^ 32)%Z).
  assert (0 ≤ s' < 2 ^ 32)%Z as Hs by (apply Z.mod_pos_bound; lia).
  unfold Qle, Qlt. simpl. lia.
Qed.

Lemma floor_scaled u (n : Z) :
  0 <= u → u < 1 → (0 < n)%Z → (0 ≤ Qfloor (u * inject_Z n) < n)%Z.
Proof.
  intros H0 H1 Hn.
  assert (0 < inject_Z n) as Hnq.
  { change 0 with (inject_Z 0). rewrite <-Zlt_Qlt. lia. }
  split.
  - change 0%Z with (Qfloor 0). apply Qfloor_resp_le. nra.
  - pose proof (Qfloor_le (u * inject_Z n)) as Hf.
    assert (inject_Z (Qfloor (u * inject_Z n)) < inject_Z n) as Hlt by nra.
    by rewrite <-Zlt_Qlt in Hlt.
Qed.

#[export] Instance lcg_spec : SeededRandomSpec.
Proof.
  split.
  - intros lo hi s Hle. cbn [rng_int lcg]. unfold lcg_int.
    destruct (lcg_next_unit s) as [H0 H1].
    destruct (lcg_next s) as [u s']. cbn [fst] in *.
    pose proof (floor_scaled u (hi - lo + 1) H0 H1 ltac:(lia)). lia.
  - intros a b s Hle. cbn [rng_range lcg]. unfold lcg_range.
    destruct (lcg_next_unit s) as [H0 H1].
    destruct (lcg_next s) as [u s']. cbn [fst] in *.
    rewrite Qred_correct. split; nra.
  - intros n s Hn. cbn [rng_index lcg]. unfold lcg_index.
    destruct (lcg_next_unit s) as [H0 H1].
    destruct (lcg_next s) as [u s']. cbn [fst] in *.
    pose proof (floor_scaled u (Z.of_nat n) H0 H1 ltac:(lia)). lia.
Qed.

End ReferenceFacts.

(** ** The statements of the design document *)

Module IndexProperties.
Import JS Binary64 Binary64Facts SpatialHash SpatialHashFacts Examples.
Local Open Scope Q_scope.

Section generic.
Context {fl : Float}.


(** C8, amended.  For an entity without a recorded cell list, [remove]
    leaves the grid as it is, and [update] does what [insert] does. *)
Theorem remove_absent_noop heap grid entity :
  entityCells grid !! entity = None →
  remove grid entity = grid ∧ update heap grid entity = insert heap grid entity.
Proof.
  intros Hnone. assert (remove grid entity = grid) as Hrem.
  { unfold remove. by rewrite Hnone. }
  split; [done|]. unfold update. by rewrite Hrem.
Qed.

(** C9.  On a grid the operations can produce and that does not hold
    the entity, [insert] followed by [remove] gives the grid back, every
    bucket and the cell records as before; and [update] is [remove]
    followed by [insert], on every grid. *)
Theorem insert_remove_restores heap grid entity :
  reachable grid → ¬ holds grid entity →
  remove (insert heap grid entity) entity = grid ∧
  ∀ heap' grid' entity',
    update heap' grid' entity' = insert heap' (remove grid' entity') entity'.
Proof.
  intros Hr Hh. split; [|done].
  apply remove_insert; [by apply reachable_no_empty|done].
Qed.

End generic.

(** *** On doubles, and without rounding *)




(** Nor does [queryCircle] agree with a scan that evaluates the test
    as the code does: the entity at (64, 0) passes the rounded test for
    the query at (384, 0) with radius 256, and lies in a column the
    query does not visit. *)
Example queryCircle_misses_rounded_scan :
  queryCircle grazing (insertAll grazing (create 128) [2%positive]) 384 0 256
  = [] ∧
  bruteForceRounded grazing [2%positive] 384 0 256 = [2%positive] ∧
  bruteForce grazing [2%positive] 384 0 256 = [].
Proof. split_and!; vm_compute; reflexivity. Qed.

(** With a negative query radius the rounding plays no part: the
    first entity of [heap3], five away from (95, 50), is returned for
    the radius -30 although -30 + 20 is negative. *)
Example queryCircle_negative_radius :
  queryCircle (fl := exact) heap3
    (insertAll (fl := exact) heap3 (create (fl := exact) 128) [1%positive])
    95 50 (-30)
  = [1%positive] ∧
  bruteForce heap3 [1%positive] 95 50 (-30) = [].
Proof. split; vm_compute; reflexivity. Qed.

(** C8 as stated fails: [update] of an entity that was never inserted
    is not a no-op, the grid records the entity afterwards. *)
Lemma update_inserts_absent :
  entityCells (create 128) !! 1%positive = None ∧
  update heap3 (create 128) 1%positive ≠ create 128.
Proof.
  split; [done|]. intros Heq.
  apply (f_equal (λ g, entityCells g !! 1%positive)) in Heq.
  vm_compute in Heq. discriminate.
Qed.

Lemma remove_absent_noop_witness :
  remove (insert heap3 (create 128) 1%positive) 2%positive
  = insert heap3 (create 128) 1%positive ∧
  update heap3 (insert heap3 (create 128) 1%positive) 2%positive
  = insert heap3 (insert heap3 (create 128) 1%positive) 2%positive.
Proof.
  apply (remove_absent_noop heap3 (insert heap3 (create 128) 1%positive) 2%positive).
  reflexivity.
Defined.

Lemma insert_remove_restores_witness :
  remove (insert heap3 (insert heap3 (create 128) 1%positive) 2%positive) 2%positive
  = insert heap3 (create 128) 1%positive ∧
  ∀ heap' grid' entity',
    update heap' grid' entity' = insert heap' (remove grid' entity') entity'.
Proof.
  apply (insert_remove_restores heap3 (insert heap3 (create 128) 1%positive)
           2%positive).
  - apply reach_insert, reach_create.
  - intros [[keys Hk]|(k & b & Hk & Hin)]; [discriminate|].
    rewrite insert_cells_lookup in Hk.
    change (cells (create 128) !! k) with (@lookup _ _ (gmap Z (list ref)) _ k ∅) in Hk.
    rewrite lookup_empty in Hk. case_decide; [|discriminate].
    injection Hk as <-. apply list_elem_of_singleton in Hin. discriminate.
Defined.

End IndexProperties.

Module ZoneProperties.
Import JS Binary64 MapGenerator Reference MapGeneratorFacts ReferenceFacts
  Examples.
Local Open Scope string_scope.
Local Open Scope list_scope.
Local Open Scope Q_scope.

Section generic.
Context `{SeededRandom} `{JSMath} {fl : Float}.

(** C10.  Every zone [generate] returns has at least one elite spawn,
    whatever the elite density and the configured cap are. *)
Theorem generate_elite_at_least_one state actConfig zoneSeed options caller :
  (1 ≤ length (Zone.eliteSpawns
                 (generate state actConfig zoneSeed options caller).1))%nat.
Proof.
  destruct (generate_run state actConfig zoneSeed options caller)
    as (exit & s1 & s2 & s3 & s4 & zR & s5 & zO & s6 & _ & _ & _ & He & _).
  rewrite He, generateEliteSpawns_length. lia.
Qed.

(** C6.  Below depth 3 the returned zone has no objective; below depth 5
    its objective, if any, is neither ['survival'] nor ['corruption'].
    The depth is the one [generate] works with, [options.depth || 1]. *)
Theorem objective_gating state actConfig zoneSeed options caller :
  let depth := depth_or (Options.depth options) in
  let z := (generate state actConfig zoneSeed options caller).1 in
  ((depth < 3)%Z → Zone.objective z = None) ∧
  ((depth < 5)%Z → ∀ o, Zone.objective z = Some o →
     Objective.type o ≠ "survival" ∧ Objective.type o ≠ "corruption").
Proof.
  intros depth z.
  destruct (generate_run state actConfig zoneSeed options caller)
    as (exit & s1 & s2 & s3 & s4 & zR & s5 & zO & s6 & _ & _ & _ & _ & _ & _ & _ & Ho).
  fold z depth in Ho. split.
  - intros Hd. rewrite Ho. by apply generateObjective_none.
  - intros Hd o Hz. rewrite Ho in Hz.
    apply generateObjective_type in Hz as [roll Hp].
    pose proof (picked_objective_gated depth roll Hd) as Hin.
    rewrite Hp in Hin.
    repeat (apply elem_of_cons in Hin as [[= ->]|Hin]; [by split|]).
    by apply elem_of_nil in Hin.
Qed.

(** A spawn point in the lower half of the zone sends the exit to
    the top edge, whichever edge the spawn point is on. *)
Lemma exit_top_when_spawn_low spawn w h s :
  h / 2 < Point.y spawn →
  Point.y (generateExitPoint spawn w h s).1 = 100.
Proof.
  intros Hy. unfold generateExitPoint.
  rewrite (proj2 (Qlt_bool_true _ _) Hy).
  unfold bind. by destruct (range 100 (w - 100) s).
Qed.

(** With a generator that keeps [int] within its bounds, the tests
    allotted to a loop with a redrawn bound are never used up: more
    of them change nothing. *)
Lemma for_int_bound_fuel `{!SeededRandomSpec} {S} fuel extra i lo hi
    (body : Z → S → Rand S) acc s :
  (lo ≤ hi)%Z → (i ≤ hi)%Z → (hi < i + Z.of_nat fuel)%Z →
  for_int_bound (fuel + extra) i lo hi body acc s =
  for_int_bound fuel i lo hi body acc s.
Proof.
  intros Hlo. revert i acc s.
  induction fuel as [|fuel IH]; intros i acc s Hi Hf; [lia|].
  cbn [for_int_bound Nat.add]. unfold bind, int.
  pose proof (rng_int_bounds lo hi s Hlo) as Hn.
  destruct (rng_int lo hi s) as [n s1]. cbn [fst] in Hn.
  destruct (i <? n)%Z eqn:Hlt; [|done].
  apply Z.ltb_lt in Hlt.
  destruct (body i acc s1) as [acc' s2]. apply IH; lia.
Qed.

(** C2, amended.  Each placement pass clamps its own output:
    [generateEnemySpawns] returns at most [max(0, maxEnemySpawnsPerZone)]
    spawns and [generateObstacles], without the chaos pass, at most
    [max(0, maxObstaclesPerZone)] obstacles; the returned zone has at
    most [max(1, maxEliteSpawnsPerZone)] elite spawns and at most
    [max(maxDecorationsPerZone, 19)] decorations, 19 being the most the
    three large layers hold when [int] keeps to its range.  What POIs,
    resource nodes and the objective append to the enemy and obstacle
    lists of the zone is under no cap. *)
Theorem budget_clamps `{!SeededRandomSpec} state actConfig zoneSeed options
    caller pool density w h spawn exit opts s1 s2 :
  str_or (Options.difficulty opts) "normal" ≠ "chaos" →
  let tune := State.exploration state in
  let z := (generate state actConfig zoneSeed options caller).1 in
  (Z.of_nat (length (generateEnemySpawns tune pool density w h spawn exit s1).1)
   ≤ Z.max 0 (typeof_number (Tune.maxEnemySpawnsPerZone tune) 120))%Z ∧
  (Z.of_nat (length (generateObstacles tune density w h opts s2).1)
   ≤ Z.max 0 (typeof_number (Tune.maxObstaclesPerZone tune) 1200))%Z ∧
  (Z.of_nat (length (Zone.eliteSpawns z))
   ≤ Z.max 1 (typeof_number (Tune.maxEliteSpawnsPerZone tune) 8))%Z ∧
  (Z.of_nat (length (Zone.decorations z))
   ≤ Z.max (typeof_number (Tune.maxDecorationsPerZone tune) 3000) 19)%Z.
Proof.
  intros Hdiff tune z.
  destruct (generate_run state actConfig zoneSeed options caller)
    as (ex & r1 & r2 & r3 & r4 & zR & r5 & zO & r6 & _ & _ & _ & He & Hd & _).
  fold z tune in He, Hd. split_and!.
  - unfold generateEnemySpawns.
    set (count := Math_maxZ 0 _).
    destruct (enemy_spawn_loop_placed (Z.to_nat (count * 3)) pool count w h
                spawn exit
                (typeof_number (Tune.enemySpawnMinDistFromSpawn tune) 300)
                (typeof_number (Tune.enemySpawnMinDistFromExit tune) 200)
                (typeof_number (Tune.enemySpawnMinDistBetween tune) 150)
                [] s1 (placed_nil _ _ _ _ _ _)) as [Hlen _].
    unfold count, Math_maxZ, Math_minZ in *. lia.
  - by apply generateObstacles_length.
  - rewrite He, generateEliteSpawns_length. lia.
  - rewrite Hd. apply generateDecorations_length.
Qed.

(** C4, amended.  The spawns [generateEnemySpawns] returns are each at
    least the configured distances away from the spawn point, from the
    exit point and from every spawn accepted before them; every
    resource node of the returned zone is at least 300 away from the
    spawn point and 200 from the exit point.  Elite spawns, and resource
    nodes among themselves, are under no distance check. *)
Theorem placement_distances state actConfig zoneSeed options caller
    pool density w h spawn exit s :
  let tune := State.exploration state in
  let dS := typeof_number (Tune.enemySpawnMinDistFromSpawn tune) 300 in
  let dE := typeof_number (Tune.enemySpawnMinDistFromExit tune) 200 in
  let dB := typeof_number (Tune.enemySpawnMinDistBetween tune) 150 in
  let spawns := (generateEnemySpawns tune pool density w h spawn exit s).1 in
  let z := (generate state actConfig zoneSeed options caller).1 in
  Forall (far_from spawn dS) spawns ∧
  Forall (far_from exit dE) spawns ∧
  spaced dB spawns ∧
  Forall (λ n, clear_of (Zone.spawn z) (exit_of z)
                 (Obstacle.x n) (Obstacle.y n))
         (Zone.resourceNodes z).
Proof.
  intros tune dS dE dB spawns z.
  assert (placed (Math_maxZ 0 (Math_minZ (Math_floor (w * h * density))
            (typeof_number (Tune.maxEnemySpawnsPerZone tune) 120%Z)))
            spawn exit dS dE dB spawns) as (_ & HS & HE & HB).
  { apply enemy_spawn_loop_placed, placed_nil. }
  split_and!; try done.
  destruct (generate_run state actConfig zoneSeed options caller)
    as (ex & r1 & r2 & r3 & r4 & zR & r5 & zO & r6 & _ & _ & _ & _ & _ & F & Hn & _).
  fold z in F, Hn. rewrite Hn.
  destruct F as (_ & _ & Fs & Fe & _).
  replace (Zone.spawn z) with (Zone.spawn zR).
  replace (exit_of z) with (exit_of zR) by (unfold exit_of; by rewrite Fe).
  apply generateResourceNodes_clear.
Qed.

End generic.

(** *** On the reference instances *)

Lemma caps_zero_counts :
  let z := (generate (state_of caps_zero) (act 1000 1000) 1 (at_depth 1) idle).1 in
  (length (Zone.enemySpawns z), length (Zone.eliteSpawns z),
   length (Zone.obstacles z), length (Zone.decorations z))
  = (5, 1, 6, 16)%nat.
Proof. vm_compute. reflexivity. Qed.

(** C2 as stated fails: with every cap at zero, the zone of seed 1 has
    five enemy spawns, one elite spawn, six obstacles and sixteen
    decorations. *)
Lemma budget_exceeded :
  ¬ budget_respected caps_zero
      (generate (state_of caps_zero) (act 1000 1000) 1 (at_depth 1) idle).1.
Proof.
  pose proof caps_zero_counts as Hc. cbv zeta in Hc.
  set (z := (generate _ _ _ _ _).1) in *. clearbody z.
  injection Hc as He Hl Ho Hd.
  intros (H1 & _). rewrite He in H1. vm_compute in H1. by apply H1.
Qed.

Lemma budget_clamps_witness :
  let state := state_of caps_zero in
  let tune := State.exploration state in
  let z := (generate state (act 1000 1000) 1 (at_depth 1) idle).1 in
  (Z.of_nat (length (generateEnemySpawns tune ["grunt"] 0.0005 1000 1000
                       corner top started).1)
   ≤ Z.max 0 (typeof_number (Tune.maxEnemySpawnsPerZone tune) 120))%Z ∧
  (Z.of_nat (length (generateObstacles tune 0.0002 1000 1000 (at_depth 1) started).1)
   ≤ Z.max 0 (typeof_number (Tune.maxObstaclesPerZone tune) 1200))%Z ∧
  (Z.of_nat (length (Zone.eliteSpawns z))
   ≤ Z.max 1 (typeof_number (Tune.maxEliteSpawnsPerZone tune) 8))%Z ∧
  (Z.of_nat (length (Zone.decorations z))
   ≤ Z.max (typeof_number (Tune.maxDecorationsPerZone tune) 3000) 19)%Z.
Proof.
  apply (budget_clamps (state_of caps_zero) (act 1000 1000) 1 (at_depth 1) idle
           ["grunt"] 0.0005 1000 1000 corner top (at_depth 1) started started).
  vm_compute. discriminate.
Defined.

Lemma tiny_zone_elites :
  let z := (generate (state_of few_stars) (act 400 400) 1 (at_depth 1) idle).1 in
  (λ e, (EliteSpawn.x e, EliteSpawn.y e)) <$> Zone.eliteSpawns z
  = replicate 8 (200, 200).
Proof. vm_compute. reflexivity. Qed.

(** C4 as stated fails: in a zone of 400 by 400 all eight elite spawns
    sit on the point (200, 200), at distance 0 from each other. *)
Lemma elites_coincide :
  ¬ distances_respected few_stars
      (generate (state_of few_stars) (act 400 400) 1 (at_depth 1) idle).1.
Proof.
  pose proof tiny_zone_elites as He. cbv zeta in He.
  set (z := (generate _ _ _ _ _).1) in *. clearbody z.
  intros Hd.
  set (p := {| Point.x := 200; Point.y := 200 |}).
  assert ((λ e, {| Point.x := EliteSpawn.x e; Point.y := EliteSpawn.y e |})
            <$> Zone.eliteSpawns z = replicate 8 p) as Hps.
  { revert He. generalize (Zone.eliteSpawns z). intros l.
    change (replicate 8 (200, 200)) with ((λ q : Point.t, (Point.x q, Point.y q)) <$> replicate 8 p).
    revert l. generalize (replicate 8 p). intros ps l. revert ps.
    induction l as [|e l IH]; intros [|q ps]; try done.
    rewrite !fmap_cons. intros [= Hx Hy Hl]. f_equal; [|by apply IH].
    destruct q. simpl in *. by subst. }
  destruct (Hd (replicate 8 p)) as [_ Hap].
  { unfold categories. rewrite Hps. apply list_elem_of_further, list_elem_of_here. }
  specialize (Hap 0%nat 1%nat p p ltac:(done) eq_refl eq_refl).
  vm_compute in Hap. by apply Hap.
Qed.

Lemma objective_gating_witness :
  let z := (generate (state_of few_stars) (act 1000 1000) 1 (at_depth 2) idle).1 in
  Zone.objective z = None ∧
  (∀ o, Zone.objective z = Some o →
     Objective.type o ≠ "survival" ∧ Objective.type o ≠ "corruption").
Proof.
  destruct (objective_gating (state_of few_stars) (act 1000 1000) 1
              (at_depth 2) idle) as [H3 H5].
  split; [apply H3; reflexivity | apply H5; reflexivity].
Defined.

(** C7 fails on the code.  For seed 424242 in a zone of 1000 by 1000 the
    spawn point is on the left edge, in the lower half, and the exit
    point is on the top edge, not on the right one. *)
Theorem exit_on_top_for_left_spawn :
  let z := (generate (state_of few_stars) (act 1000 1000) 424242
              (at_depth 1) idle).1 in
  Point.x (Zone.spawn z) = 100 ∧
  500 < Point.y (Zone.spawn z) ∧
  ∃ exit, Zone.exit z = Some exit ∧
          Point.y exit = 100 ∧ ¬ Point.x exit == 1000 - 100.
Proof.
  vm_compute. split; [reflexivity|]. split; [reflexivity|].
  eexists. split; [reflexivity|]. split; [reflexivity|]. discriminate.
Qed.

(** C5 fails on the code.  With a template of exactly five members,
    [applyPackDirector] turns three spawns into five: the pack takes the
    three slots there are and produces all five of its members. *)
Theorem pack_director_adds_spawns :
  length three_spawns = 3%nat ∧
  length (applyPackDirector (Some squad_of_five) three_spawns ["grunt"]
            corner top started).1 = 5%nat.
Proof. split; vm_compute; reflexivity. Qed.

End ZoneProperties.

(** ** Invariants of the spatial index *)

Module IndexInvariants.
Import JS SpatialHash SpatialHashFacts.
Local Open Scope Q_scope.

Section index.
Context {fl : Float}.

Lemma insert_invCell h g e : invCell (insert h g e) = invCell g.
Proof. done. Qed.

Lemma remove_invCell g e : invCell (remove g e) = invCell g.
Proof. unfold remove. by destruct (entityCells g !! e). Qed.

Lemma remove_cellSize g e : cellSize (remove g e) = cellSize g.
Proof. unfold remove. by destruct (entityCells g !! e). Qed.

Lemma reachable_invCell g : reachable g → invCell g = 1 ⊘ cellSize g.
Proof.
  induction 1 as [cs|g _ IH|h g e _ IH|g e _ IH|h g e _ IH]; try done.
  - by rewrite remove_invCell, remove_cellSize.
  - unfold update. cbn [insert invCell cellSize].
    by rewrite remove_invCell, remove_cellSize.
Qed.

Lemma query_no_cells g x y r : cells g = ∅ → query g x y r = [].
Proof.
  intros Hc. apply elem_of_nil_inv. intros e Hin.
  apply elem_of_query in Hin as (cx & cy & b & _ & _ & Hb & _).
  by rewrite Hc, lookup_empty in Hb.
Qed.

Lemma create_consistent cs : consistent (create cs).
Proof.
  intros k e. simpl. split.
  - intros (b & Hb & _). by rewrite lookup_empty in Hb.
  - intros (keys & Hk & _). by rewrite lookup_empty in Hk.
Qed.

Lemma clear_consistent g : consistent (clear g).
Proof.
  intros k e. simpl. split.
  - intros (b & Hb & _). by rewrite lookup_empty in Hb.
  - intros (keys & Hk & _). by rewrite lookup_empty in Hk.
Qed.

Lemma consistent_absent g e k b :
  consistent g → entityCells g !! e = None → cells g !! k = Some b → e ∉ b.
Proof.
  intros Hg Hnone Hb Hin.
  destruct (proj1 (Hg k e)) as (keys & Hk & _); [eauto|]. congruence.
Qed.

Lemma insert_consistent h g e :
  consistent g → entityCells g !! e = None → consistent (insert h g e).
Proof.
  intros Hg Hnone k e'. rewrite insert_cells_lookup.
  change (entityCells (insert h g e))
    with (<[e := _entityCells g (h e)]> (entityCells g)).
  destruct (decide (e' = e)) as [->|Hne].
  - rewrite lookup_insert_eq. split.
    + intros (b & Hb & Hin). exists (_entityCells g (h e)). split; [done|].
      case_decide as Hk; [done|].
      exfalso. by eapply consistent_absent.
    + intros (keys & [= <-] & Hk). rewrite decide_True by done.
      eexists. split; [done|]. apply elem_of_set_add. by left.
  - rewrite lookup_insert_ne by done. rewrite <-(Hg k e'). split.
    + intros (b & Hb & Hin). case_decide.
      * injection Hb as <-. apply elem_of_set_add in Hin as [?|Hin]; [done|].
        destruct (cells g !! k) as [b0|]; simpl in Hin;
          [eauto | by apply elem_of_nil in Hin].
      * eauto.
    + intros (b & Hb & Hin). case_decide; [|eauto].
      eexists. split; [done|]. apply elem_of_set_add. right. by rewrite Hb.
Qed.

Lemma remove_cells_lookup g e keys k :
  entityCells g !! e = Some keys →
  cells (remove g e) !! k =
    if decide (k ∈ keys) then delete_entry e (cells g !! k) else cells g !! k.
Proof.
  intros Hk. unfold remove. rewrite Hk. simpl. apply delete_cells_lookup.
Qed.

Lemma elem_of_delete_entry e e' o :
  (∃ b, delete_entry e o = Some b ∧ e' ∈ b) ↔
  e' ≠ e ∧ ∃ b, o = Some b ∧ e' ∈ b.
Proof.
  unfold delete_entry. destruct o as [b0|].
  - case_decide as Hlen.
    + split; [by intros (b & ? & _)|].
      intros (Hne & b & [= <-] & Hin). exfalso.
      assert (e' ∈ set_delete e b0) as Hd by (by apply elem_of_set_delete).
      destruct (set_delete e b0); [by apply elem_of_nil in Hd|done].
    + split.
      * intros (b & [= <-] & Hin). apply elem_of_set_delete in Hin as [??]. eauto.
      * intros (Hne & b & [= <-] & Hin). eexists. split; [done|].
        by apply elem_of_set_delete.
  - split; [by intros (b & ? & _)|by intros (_ & b & ? & _)].
Qed.

Lemma remove_consistent g e : consistent g → consistent (remove g e).
Proof.
  intros Hg. destruct (entityCells g !! e) as [keys|] eqn:Hkeys.
  2:{ unfold remove. by rewrite Hkeys. }
  intros k e'. rewrite (remove_cells_lookup _ _ keys) by done.
  assert (entityCells (remove g e) = delete e (entityCells g)) as ->.
  { unfold remove. by rewrite Hkeys. }
  destruct (decide (e' = e)) as [->|Hne].
  - rewrite lookup_delete_eq. split; [|by intros (? & ? & _)].
    intros (b & Hb & Hin). exfalso. case_decide as Hk.
    + destruct (proj1 (elem_of_delete_entry e e (cells g !! k))) as [Hc _];
        [eauto|done].
    + apply Hk. destruct (proj1 (Hg k e)) as (keys' & Hk' & Hin'); [eauto|].
      congruence.
  - rewrite lookup_delete_ne by done. rewrite <-(Hg k e'). case_decide.
    + rewrite elem_of_delete_entry. tauto.
    + done.
Qed.

Lemma remove_absent g e : entityCells (remove g e) !! e = None.
Proof.
  unfold remove. destruct (entityCells g !! e) eqn:E; [|done].
  simpl. apply lookup_delete_eq.
Qed.

Lemma update_consistent h g e : consistent g → consistent (update h g e).
Proof.
  intros Hg. unfold update.
  apply insert_consistent; [by apply remove_consistent | apply remove_absent].
Qed.

End index.



End IndexInvariants.

Module IndexFrames.
Import JS SpatialHash SpatialHashFacts IndexInvariants.
Local Open Scope Q_scope.

Section index.
Context {fl : Float}.

Lemma insert_bucket_other h g e e' k :
  e' ≠ e →
  (∃ b, cells (insert h g e) !! k = Some b ∧ e' ∈ b) ↔
  (∃ b, cells g !! k = Some b ∧ e' ∈ b).
Proof.
  intros Hne. rewrite insert_cells_lookup. case_decide; [|done]. split.
  - intros (b & [= <-] & Hin). apply elem_of_set_add in Hin as [?|Hin]; [done|].
    destruct (cells g !! k) as [b0|]; simpl in Hin;
      [eauto | by apply elem_of_nil in Hin].
  - intros (b & Hb & Hin). eexists. split; [done|].
    apply elem_of_set_add. right. by rewrite Hb.
Qed.

Lemma remove_bucket_other g e e' k :
  e' ≠ e →
  (∃ b, cells (remove g e) !! k = Some b ∧ e' ∈ b) ↔
  (∃ b, cells g !! k = Some b ∧ e' ∈ b).
Proof.
  intros Hne. destruct (entityCells g !! e) as [keys|] eqn:Hkeys.
  2:{ unfold remove. by rewrite Hkeys. }
  rewrite (remove_cells_lookup _ _ keys) by done. case_decide; [|done].
  rewrite elem_of_delete_entry. tauto.
Qed.

Lemma query_ext g g' x y r e :
  invCell g = invCell g' →
  (∀ k, (∃ b, cells g !! k = Some b ∧ e ∈ b) ↔
        (∃ b, cells g' !! k = Some b ∧ e ∈ b)) →
  e ∈ query g x y r ↔ e ∈ query g' x y r.
Proof.
  intros Hinv Hb. rewrite !elem_of_query, Hinv. split.
  - intros (cx & cy & b & Hx & Hy & Hk & Hin).
    destruct (proj1 (Hb (cell_key cx cy))) as (b' & Hk' & Hin'); [eauto|].
    by exists cx, cy, b'.
  - intros (cx & cy & b & Hx & Hy & Hk & Hin).
    destruct (proj2 (Hb (cell_key cx cy))) as (b' & Hk' & Hin'); [eauto|].
    by exists cx, cy, b'.
Qed.

End index.

Lemma lxor_mod_pow2 a b n :
  (0 ≤ n)%Z →
  (Z.lxor a b `mod` 2 ^ n = Z.lxor (a `mod` 2 ^ n) (b `mod` 2 ^ n))%Z.
Proof.
  intros Hn. apply Z.bits_inj'. intros i Hi.
  rewrite Z.lxor_spec, !Z.testbit_mod_pow2 by lia.
  rewrite Z.lxor_spec. by destruct (i <? n)%Z.
Qed.

Lemma lxor_cancel_r a b c : Z.lxor a c = Z.lxor b c → a = b.
Proof.
  intros Heq. apply (f_equal (λ t, Z.lxor t c)) in Heq.
  by rewrite !Z.lxor_assoc, Z.lxor_nilpotent, !Z.lxor_0_r in Heq.
Qed.

Lemma ToInt32_small z : (- 2 ^ 31 ≤ z < 2 ^ 31)%Z → ToInt32 z = z.
Proof. intros Hz. unfold ToInt32. rewrite Z.mod_small; lia. Qed.

Lemma cell_key_window cx cy :
  (- 2 ^ 15 ≤ cx < 2 ^ 15)%Z → (- 2 ^ 15 ≤ cy < 2 ^ 15)%Z →
  cell_key cx cy = Z.lxor (cx * 2 ^ 16) cy.
Proof.
  intros Hx Hy. unfold cell_key, xor32, shl32.
  rewrite Z.shiftl_mul_pow2 by lia.
  rewrite (ToInt32_small cx) by lia.
  rewrite !(ToInt32_small (cx * 2 ^ 16)) by lia.
  by rewrite (ToInt32_small cy) by lia.
Qed.

End IndexFrames.

(** ** Laws of the spatial index *)

Module IndexLaws.
Import JS Binary64 Binary64Facts SpatialHash SpatialHashFacts IndexInvariants
  IndexFrames World Examples.
Local Open Scope Q_scope.

Section generic.
Context {fl : Float}.

(** X1.  On a grid the operations can produce, [clear] gives the grid
    [create] makes for the same cell size, and no query finds anything
    on it. *)
Theorem clear_resets g :
  reachable g →
  clear g = create (cellSize g) ∧
  ∀ heap x y r, query (clear g) x y r = [] ∧ queryCircle heap (clear g) x y r = [].
Proof.
  intros Hr. split.
  - apply grid_eq; try done. simpl. by apply reachable_invCell.
  - intros heap x y r. unfold queryCircle. by rewrite query_no_cells.
Qed.

(** X2.  Inserting an entity that has not moved a second time changes
    nothing: buckets are sets, and the cell record is overwritten with
    the same keys. *)
Theorem insert_idempotent heap grid entity :
  insert heap (insert heap grid entity) entity = insert heap grid entity.
Proof.
  apply grid_eq; try done.
  - apply map_eq. intros k. rewrite !insert_cells_lookup.
    change (_entityCells (insert heap grid entity) (heap entity))
      with (_entityCells grid (heap entity)).
    case_decide; [|done]. simpl. by rewrite set_add_idem.
  - simpl. apply insert_insert_eq.
Qed.

(** X3.  The buckets and the cell records agree on the empty grid and
    after [clear], and they go on agreeing through [remove], through
    [update], and through [insert] of an entity that is not
    registered. *)
Theorem consistent_invariant heap grid entity cellSize :
  consistent (create cellSize) ∧
  consistent (clear grid) ∧
  (consistent grid →
     consistent (remove grid entity) ∧
     consistent (update heap grid entity) ∧
     (entityCells grid !! entity = None → consistent (insert heap grid entity))).
Proof.
  split; [apply create_consistent|]. split; [apply clear_consistent|].
  intros Hg. split; [by apply remove_consistent|].
  split; [by apply update_consistent|]. by apply insert_consistent.
Qed.

(** X4.  On a grid whose buckets and cell records agree, an entity that
    was removed is returned by no query. *)
Theorem removed_not_returned heap grid entity x y r :
  consistent grid →
  (entity ∉ query (remove grid entity) x y r) ∧
  (entity ∉ queryCircle heap (remove grid entity) x y r).
Proof.
  intros Hg.
  assert (entity ∉ query (remove grid entity) x y r) as Hq.
  { intros Hin. apply elem_of_query in Hin as (cx & cy & b & _ & _ & Hb & Hin).
    eapply (consistent_absent (remove grid entity));
      [by apply remove_consistent | apply remove_absent | done | done]. }
  split; [done|]. unfold queryCircle. rewrite list_elem_of_filter. tauto.
Qed.

(** X5.  [insert], [remove] and [update] of one entity leave what the
    queries return of every other entity as it was. *)
Theorem others_unaffected heap grid entity other x y r :
  other ≠ entity →
  (other ∈ query (insert heap grid entity) x y r ↔ other ∈ query grid x y r) ∧
  (other ∈ query (remove grid entity) x y r ↔ other ∈ query grid x y r) ∧
  (other ∈ query (update heap grid entity) x y r ↔ other ∈ query grid x y r).
Proof.
  intros Hne.
  assert (∀ g, other ∈ query (insert heap g entity) x y r ↔ other ∈ query g x y r)
    as Hins.
  { intros g. apply query_ext; [done|]. intros k. by apply insert_bucket_other. }
  assert (other ∈ query (remove grid entity) x y r ↔ other ∈ query grid x y r)
    as Hrem.
  { apply query_ext; [apply remove_invCell|].
    intros k. by apply remove_bucket_other. }
  split; [apply Hins|]. split; [done|].
  unfold update. by rewrite Hins.
Qed.

(** X6.  A larger radius loses no candidate: what [query] returns for a
    radius it returns for every larger one, on a grid whose inverse
    cell size is not negative. *)
Theorem query_monotone {fls : FloatSpec} grid x y r r' entity :
  0 <= invCell grid → r <= r' →
  entity ∈ query grid x y r → entity ∈ query grid x y r'.
Proof.
  intros Hinv Hr. rewrite !elem_of_query.
  intros (cx & cy & b & Hx & Hy & Hb & Hin). exists cx, cy, b.
  unfold fadd, fsub, fmul in *.
  pose proof (cell_le (invCell grid) (x - r') (x - r) Hinv ltac:(lra)).
  pose proof (cell_le (invCell grid) (x + r) (x + r') Hinv ltac:(lra)).
  pose proof (cell_le (invCell grid) (y - r') (y - r) Hinv ltac:(lra)).
  pose proof (cell_le (invCell grid) (y + r) (y + r') Hinv ltac:(lra)).
  split_and!; try done; lia.
Qed.


(** X8.  [checkCollision] does not depend on the order of its two
    arguments, and every entity collides with itself. *)
Theorem checkCollision_symmetric {fls : FloatSpec} a b :
  checkCollision a b = checkCollision b a ∧ checkCollision a a = true.
Proof.
  unfold checkCollision, fadd, fsub, fmul. split.
  - apply eq_true_iff_eq. rewrite !Qle_bool_iff.
    set (ra := num_or (radius a) (num_or (SpatialHash.r a) 16)).
    set (rb := num_or (radius b) (num_or (SpatialHash.r b) 16)).
    assert (∀ p q, round (q - p) * round (q - p) == round (p - q) * round (p - q))
      as Hsq.
    { intros p q. rewrite (round_comp (q - p) (- (p - q))) by ring.
      rewrite round_opp. ring. }
    rewrite (round_comp (round (round (SpatialHash.x b - SpatialHash.x a)
                                * round (SpatialHash.x b - SpatialHash.x a))
                         + round (round (SpatialHash.y b - SpatialHash.y a)
                                  * round (SpatialHash.y b - SpatialHash.y a)))
               (round (round (SpatialHash.x a - SpatialHash.x b)
                       * round (SpatialHash.x a - SpatialHash.x b))
                + round (round (SpatialHash.y a - SpatialHash.y b)
                         * round (SpatialHash.y a - SpatialHash.y b)))).
    2:{ apply Qplus_comp; apply round_comp, Hsq. }
    rewrite (round_comp (round (rb + ra) * round (rb + ra))
               (round (ra + rb) * round (ra + rb))).
    2:{ rewrite (round_comp (rb + ra) (ra + rb)) by ring. done. }
    done.
  - apply Qle_bool_iff.
    set (m := round (_ + _)) at 2 3.
    assert (∀ p, round (round (p - p) * round (p - p)) == 0) as Hz.
    { intros p. rewrite (round_comp (p - p) 0) by ring.
      rewrite (round_comp (round 0 * round 0) 0); [apply round_0|].
      rewrite round_0. ring. }
    rewrite (round_comp (round (round (SpatialHash.x a - SpatialHash.x a)
                                * round (SpatialHash.x a - SpatialHash.x a))
                         + round (round (SpatialHash.y a - SpatialHash.y a)
                                  * round (SpatialHash.y a - SpatialHash.y a)))
               0).
    2:{ rewrite !Hz. ring. }
    rewrite round_0. apply round_nonneg. nra.
Qed.

(** X9.  Cells whose two indices fit in sixteen signed bits have keys
    of their own: two of them with the same key [(cx << 16) ^ cy] are
    the same cell. *)
Theorem cell_key_injective cx cy cx' cy' :
  (- 2 ^ 15 ≤ cx < 2 ^ 15)%Z → (- 2 ^ 15 ≤ cy < 2 ^ 15)%Z →
  (- 2 ^ 15 ≤ cx' < 2 ^ 15)%Z → (- 2 ^ 15 ≤ cy' < 2 ^ 15)%Z →
  cell_key cx cy = cell_key cx' cy' → cx = cx' ∧ cy = cy'.
Proof.
  intros Hx Hy Hx' Hy' Hk.
  rewrite !cell_key_window in Hk by done.
  assert (cy = cy') as <-.
  { apply (f_equal (λ t, (t `mod` 2 ^ 16)%Z)) in Hk.
    rewrite !lxor_mod_pow2 in Hk by lia.
    rewrite !Z.mod_mul in Hk by lia.
    rewrite !Z.lxor_0_l in Hk.
    change (2 ^ 16)%Z with 65536%Z in Hk. change (2 ^ 15)%Z with 32768%Z in *.
    Z.to_euclidean_division_equations. lia. }
  split; [|done]. apply lxor_cancel_r in Hk.
  change (2 ^ 16)%Z with 65536%Z in Hk. lia.
Qed.


End generic.

(** *** On doubles *)

Lemma clear_resets_witness :
  clear (insert heap3 (create 128) 1%positive) = create 128 ∧
  ∀ heap x y r,
    query (clear (insert heap3 (create 128) 1%positive)) x y r = [] ∧
    queryCircle heap (clear (insert heap3 (create 128) 1%positive)) x y r = [].
Proof.
  apply (clear_resets (insert heap3 (create 128) 1%positive)).
  apply reach_insert, reach_create.
Defined.

(** Without the agreement of X3 a removed entity can stay behind: an
    entity inserted twice at two positions keeps its first bucket
    entry after [remove]. *)
Example reinsert_leaves_stale_entry :
  query (remove (insert heap3_moved (insert heap3 (create 128) 1%positive)
                   1%positive) 1%positive) 100 50 20
  = [1%positive].
Proof. vm_compute. reflexivity. Qed.

Lemma removed_not_returned_witness :
  (1%positive ∉ query (remove (insert heap3 (create 128) 1%positive) 1%positive)
                   100 50 20) ∧
  (1%positive ∉ queryCircle heap3
                   (remove (insert heap3 (create 128) 1%positive) 1%positive)
                   100 50 20).
Proof.
  apply (removed_not_returned heap3 (insert heap3 (create 128) 1%positive)).
  apply insert_consistent; [apply create_consistent | reflexivity].
Defined.

Lemma others_unaffected_witness :
  (2%positive ∈ query (insert heap3 (insert heap3 (create 128) 2%positive)
                         1%positive) 200 50 20
     ↔ 2%positive ∈ query (insert heap3 (create 128) 2%positive) 200 50 20) ∧
  (2%positive ∈ query (remove (insert heap3 (create 128) 2%positive)
                         1%positive) 200 50 20
     ↔ 2%positive ∈ query (insert heap3 (create 128) 2%positive) 200 50 20) ∧
  (2%positive ∈ query (update heap3 (insert heap3 (create 128) 2%positive)
                         1%positive) 200 50 20
     ↔ 2%positive ∈ query (insert heap3 (create 128) 2%positive) 200 50 20).
Proof.
  apply (others_unaffected heap3 (insert heap3 (create 128) 2%positive)
           1%positive 2%positive 200 50 20).
  discriminate.
Defined.

Lemma query_monotone_witness :
  1%positive ∈ query (insert heap3 (create 128) 1%positive) 100 50 20 ∧
  1%positive ∈ query (insert heap3 (create 128) 1%positive) 100 50 300.
Proof.
  assert (1%positive ∈ query (insert heap3 (create 128) 1%positive) 100 50 20)
    as Hin.
  { replace (query (insert heap3 (create 128) 1%positive) 100 50 20)
      with [1%positive] by (by vm_compute).
    apply list_elem_of_here. }
  split; [exact Hin|].
  apply (query_monotone (insert heap3 (create 128) 1%positive) 100 50 20 300);
    [by vm_compute | by vm_compute | exact Hin].
Defined.


Lemma checkCollision_symmetric_witness :
  checkCollision (heap3 1%positive) (heap3 2%positive)
  = checkCollision (heap3 2%positive) (heap3 1%positive) ∧
  checkCollision (heap3 1%positive) (heap3 1%positive) = true.
Proof. apply (checkCollision_symmetric (heap3 1%positive) (heap3 2%positive)). Defined.

Lemma cell_key_injective_witness :
  cell_key 3 (-4) = cell_key (1 + 2) (-4) ∧ (3 = 1 + 2)%Z ∧ (-4 = -4)%Z.
Proof.
  split; [reflexivity|].
  apply (cell_key_injective 3 (-4) (1 + 2) (-4)); first [lia | reflexivity].
Defined.


End IndexLaws.

(** ** Arithmetic of the zone seed *)

Module SeedFacts.
Import JS SpatialHashFacts MapGenerator IndexFrames.

Lemma ToInt32_mod z : (ToInt32 z `mod` 2 ^ 32 = z `mod` 2 ^ 32)%Z.
Proof.
  unfold ToInt32. change (2 ^ 32)%Z with 4294967296%Z.
  change (2 ^ 31)%Z with 2147483648%Z.
  Z.to_euclidean_division_equations. lia.
Qed.

Lemma imul_mod a b : (imul a b `mod` 2 ^ 32 = (a * b) `mod` 2 ^ 32)%Z.
Proof.
  unfold imul. rewrite ToInt32_mod.
  rewrite Z.mul_mod, !ToInt32_mod, <-Z.mul_mod by lia. done.
Qed.

Lemma lxor_cancel_l a b c : Z.lxor c a = Z.lxor c b → a = b.
Proof. rewrite !(Z.lxor_comm c). apply lxor_cancel_r. Qed.

Lemma ToInteger_Z q z : (q == inject_Z z)%Q → ToInteger q = z.
Proof.
  intros Hq. unfold ToInteger.
  rewrite (Qfloor_comp _ _ Hq), (Qceiling_comp _ _ Hq), Qfloor_Z, Qceiling_Z.
  by destruct (Qle_bool 0 q).
Qed.

Section seed.
Context {fl : Float}.

(** The seed as arithmetic modulo [2^32]. *)
Lemma createZoneSeed_mod actSeed zoneIndex :
  createZoneSeed actSeed zoneIndex =
    Z.lxor (actSeed `mod` 2 ^ 32)
           ((ToInteger (inject_Z zoneIndex ⊕ 1)%Q * 2654435769) `mod` 2 ^ 32).
Proof.
  unfold createZoneSeed, ToUint32, xor32.
  rewrite lxor_mod_pow2 by lia. rewrite !ToInt32_mod, imul_mod.
  rewrite Z.mod_mod by lia. f_equal.
  rewrite Z.mul_mod, Z.mod_mod, <-Z.mul_mod by lia. done.
Qed.

(** Below [2 ^ 53] the addition [zoneIndex + 1] is exact. *)
Lemma next_index_exact {fls : FloatSpec} zoneIndex :
  (- 2 ^ 53 ≤ zoneIndex < 2 ^ 53)%Z →
  ToInteger (inject_Z zoneIndex ⊕ 1)%Q = (zoneIndex + 1)%Z.
Proof.
  intros Hz. apply ToInteger_Z. unfold fadd.
  rewrite (round_comp _ (inject_Z (zoneIndex + 1)))
    by (by rewrite inject_Z_plus).
  apply round_integer. lia.
Qed.

End seed.

Lemma golden_inverse x :
  ((x * 2654435769 * 340573321) `mod` 2 ^ 32 = x `mod` 2 ^ 32)%Z.
Proof.
  replace (x * 2654435769 * 340573321)%Z
    with (x + x * 210485888 * 2 ^ 32)%Z by lia.
  apply Z.mod_add. lia.
Qed.

Lemma golden_injective x y :
  ((x * 2654435769) `mod` 2 ^ 32 = (y * 2654435769) `mod` 2 ^ 32)%Z →
  (x `mod` 2 ^ 32 = y `mod` 2 ^ 32)%Z.
Proof.
  intros Heq. rewrite <-(golden_inverse x), <-(golden_inverse y).
  rewrite (Z.mul_mod (x * _)), (Z.mul_mod (y * _)) by lia. by rewrite Heq.
Qed.

Lemma lxor_nonneg_bound a b :
  (0 ≤ a < 2 ^ 32)%Z → (0 ≤ b < 2 ^ 32)%Z → (0 ≤ Z.lxor a b < 2 ^ 32)%Z.
Proof.
  intros Ha Hb.
  assert (Z.lxor a b = Z.lxor a b `mod` 2 ^ 32)%Z as ->.
  { rewrite lxor_mod_pow2 by lia. by rewrite !Z.mod_small by lia. }
  apply Z.mod_pos_bound. lia.
Qed.

End SeedFacts.

(** ** The passes of [generate], one by one *)

Module GenerateSteps.
Import JS MapGenerator Reference MapGeneratorFacts ReferenceFacts.
Local Open Scope string_scope.
Local Open Scope list_scope.
Local Open Scope Q_scope.

Section passes.
Context `{SeededRandom} `{JSMath} {fl : Float}.

(** The passes of [generate], one after the other, with the state
    each of them starts from. *)
Lemma generate_steps state actConfig zoneSeed options caller :
  let cfg := default GenCfg.empty (ActConfig.generation actConfig) in
  let depth := depth_or (Options.depth options) in
  let mods := arr_or (Options.mods options) [] in
  let diff := str_or (Options.difficulty options) "normal" in
  let tune := State.exploration state in
  let crampedMult := if has mods "CRAMPED_ZONE" then 0.85 else 1.0 in
  let mapScale := match Tune.mapScale tune with
                  | Some m => if Qlt_bool 0 m then m else 1.0
                  | None => 1.0
                  end in
  let pool := arr_or (ActConfig.pool actConfig) ["grunt"] in
  ∃ w0 s1 h0 s2 spawn s3 parallax s4 exit s5 enemy0 s6 enemy1 s7 elites s8
    obstacles s9 decorations s10 pois zoneP s11 nodes zoneR s12 obj zoneO s13
    branch s14,
    let w := scale_dimension crampedMult mapScale w0 in
    let h := scale_dimension crampedMult mapScale h0 in
    let zone0 :=
      {| Zone.seed := zoneSeed; Zone.width := w; Zone.height := h;
         Zone.biome := Some (str_or (ActConfig.biome actConfig) "space");
         Zone.isBossZone := false; Zone.spawn := spawn;
         Zone.exit := Some exit; Zone.enemySpawns := enemy1;
         Zone.eliteSpawns := elites; Zone.bossSpawn := None;
         Zone.obstacles := obstacles; Zone.decorations := decorations;
         Zone.parallax := parallax; Zone.pois := [];
         Zone.resourceNodes := []; Zone.objective := None;
         Zone.branchExits := None |} in
    pickRange (GenCfg.width cfg) 1500 3000 (rng_new zoneSeed) = (w0, s1) ∧
    pickRange (GenCfg.height cfg) 1500 3000 s1 = (h0, s2) ∧
    generateSpawnPoint w h s2 = (spawn, s3) ∧
    generateParallax tune actConfig w h s3 = (parallax, s4) ∧
    generateExitPoint spawn w h s4 = (exit, s5) ∧
    generateEnemySpawns tune pool (enemyDensity_of tune cfg depth mods diff)
      w h spawn exit s5 = (enemy0, s6) ∧
    applyPackDirector (State.packs state) enemy0 pool spawn exit s6
      = (enemy1, s7) ∧
    generateEliteSpawns tune
      (arr_or (ActConfig.elitePool actConfig) ["commander"])
      (eliteDensity_of tune cfg depth mods diff) w h s7 = (elites, s8) ∧
    generateObstacles tune (obstacleDensity_of cfg depth mods diff) w h
      {| Options.depth := Some depth; Options.mods := Some mods;
         Options.difficulty := None |} s8 = (obstacles, s9) ∧
    generateDecorations tune (ActConfig.biome actConfig) w h s9
      = (decorations, s10) ∧
    generatePOIs zone0 actConfig options s10 = (pois, zoneP, s11) ∧
    generateResourceNodes zoneP actConfig options s11 = (nodes, zoneR, s12) ∧
    generateObjective zoneR depth s12 = (obj, zoneO, s13) ∧
    (if (3 <=? depth)%Z then generateBranchExits zoneO depth else ret None) s13
      = (branch, s14) ∧
    (generate state actConfig zoneSeed options caller).1
      = set_results zoneO pois nodes obj branch.
Proof.
  intros cfg depth mods diff tune crampedMult mapScale pool.
  unfold generate.
  destruct (generate_from state actConfig zoneSeed options (rng_new zoneSeed))
    as [z s_end] eqn:E. cbn [fst].
  unfold generate_from in E.
  apply bind_run in E as (w0 & s1 & E1 & E).
  apply bind_run in E as (h0 & s2 & E2 & E).
  apply bind_run in E as (spawn & s3 & E3 & E).
  apply bind_run in E as (parallax & s4 & E4 & E).
  apply bind_run in E as (exit & s5 & E5 & E).
  apply bind_run in E as (enemy0 & s6 & E6 & E).
  apply bind_run in E as (enemy1 & s7 & E7 & E).
  apply bind_run in E as (elites & s8 & E8 & E).
  apply bind_run in E as (obstacles & s9 & E9 & E).
  apply bind_run in E as (decorations & s10 & E10 & E).
  apply bind_run in E as ([pois zoneP] & s11 & E11 & E).
  apply bind_run in E as ([nodes zoneR] & s12 & E12 & E).
  apply bind_run in E as ([obj zoneO] & s13 & E13 & E).
  apply bind_run in E as (branch & s14 & E14 & E).
  injection E as <- _.
  exists w0, s1, h0, s2, spawn, s3, parallax, s4, exit, s5, enemy0, s6,
    enemy1, s7, elites, s8, obstacles, s9, decorations, s10, pois, zoneP, s11,
    nodes, zoneR, s12, obj, zoneO, s13, branch, s14.
  cbv zeta. split_and!; done.
Qed.

End passes.
End GenerateSteps.

Module ZoneShape.
Import JS MapGenerator Reference MapGeneratorFacts ReferenceFacts GenerateSteps.
Local Open Scope string_scope.
Local Open Scope list_scope.
Local Open Scope Q_scope.

Section passes.
Context `{SeededRandom} `{JSMath} {fl : Float}.

Lemma set_lists_same z : set_lists z (Zone.enemySpawns z) (Zone.obstacles z) = z.
Proof. by destruct z. Qed.

Lemma set_lists_twice z es os es' os' :
  set_lists (set_lists z es os) es' os' = set_lists z es' os'.
Proof. done. Qed.

(** The enemy spawns a POI contributes to the zone. *)
Lemma poi_loop_shape pts : ∀ i tier depth actConfig ps zone s ps' zone' s',
  poi_loop pts i tier depth actConfig (ps, zone) s = (ps', zone', s') →
  ∃ new,
    ps' = ps ++ new ∧
    zone' = set_lists zone
              (Zone.enemySpawns zone ++ (new ≫= λ p, poi_spawn p <$> POI.enemies p))
              (Zone.obstacles zone ++ (new ≫= POI.obstacles)).
Proof.
  induction pts as [|pt pts IH]; intros i tier depth actConfig ps zone s ps' zone' s' E.
  - injection E as <- <- _. exists []. simpl.
    by rewrite !app_nil_r, set_lists_same.
  - cbn [poi_loop] in E.
    apply bind_run in E as (ty & s1 & _ & E).
    apply bind_run in E as ([p|] & s2 & _ & E).
    + cbn [fst snd] in E. apply IH in E as (new & -> & ->).
      exists (p :: new). split; [by rewrite <-app_assoc|].
      unfold push_obstacles, push_enemySpawns. cbn [set_lists Zone.enemySpawns Zone.obstacles].
      rewrite !bind_cons, <-!app_assoc. done.
    + apply IH in E as (new & -> & ->). by exists new.
Qed.

Lemma generatePOIs_shape zone actConfig options s pois zone' s' :
  generatePOIs zone actConfig options s = (pois, zone', s') →
  zone' = set_lists zone
            (Zone.enemySpawns zone ++ (pois ≫= λ p, poi_spawn p <$> POI.enemies p))
            (Zone.obstacles zone ++ (pois ≫= POI.obstacles)).
Proof.
  unfold generatePOIs. intros E.
  apply bind_run in E as (n & s1 & _ & E).
  apply bind_run in E as (pts & s2 & _ & E).
  apply poi_loop_shape in E as (new & -> & ->). done.
Qed.

Lemma generateResourceNodes_shape zone actConfig options s nodes zone' s' :
  generateResourceNodes zone actConfig options s = (nodes, zone', s') →
  zone' = set_lists zone (Zone.enemySpawns zone) (Zone.obstacles zone ++ nodes).
Proof.
  unfold generateResourceNodes. intros E.
  apply bind_run in E as (n & s1 & _ & E).
  apply bind_run in E as (made & s2 & _ & E).
  by injection E as <- <- _.
Qed.

Lemma generateObjective_shape zone depth s obj zone' s' :
  generateObjective zone depth s = (obj, zone', s') →
  zone' = set_lists zone (Zone.enemySpawns zone)
            (Zone.obstacles zone ++ from_option Objective.generators [] obj).
Proof.
  unfold generateObjective. intros E.
  assert (zone = set_lists zone (Zone.enemySpawns zone) (Zone.obstacles zone ++ []))
    as Hsame by (by rewrite app_nil_r, set_lists_same).
  destruct (depth <=? 2)%Z; [by injection E as <- <- _|].
  apply bind_run in E as (roll & s1 & _ & E).
  repeat (destruct (is_str _ _); [try by injection E as <- <- _|]);
    try by injection E as <- <- _.
  apply bind_run in E as (gens & s2 & _ & E). by injection E as <- <- _.
Qed.

(** The zone [generate] returns, field by field. *)
Lemma generate_shape state actConfig zoneSeed options caller :
  let cfg := default GenCfg.empty (ActConfig.generation actConfig) in
  let depth := depth_or (Options.depth options) in
  let mods := arr_or (Options.mods options) [] in
  let diff := str_or (Options.difficulty options) "normal" in
  let tune := State.exploration state in
  let crampedMult := if has mods "CRAMPED_ZONE" then 0.85 else 1.0 in
  let mapScale := match Tune.mapScale tune with
                  | Some m => if Qlt_bool 0 m then m else 1.0
                  | None => 1.0
                  end in
  let pool := arr_or (ActConfig.pool actConfig) ["grunt"] in
  ∃ w0 s_height h0 s_spawn spawn parallax s_par exit s_exit enemy0 s_enemy
    enemy1 s_pack elites s_elite obstacles s_obs decorations s_dec pois zoneP
    s_poi nodes zoneR s_res obj zoneO s_obj branch s_branch s_end,
    let w := scale_dimension crampedMult mapScale w0 in
    let h := scale_dimension crampedMult mapScale h0 in
    let zone0 :=
      {| Zone.seed := zoneSeed; Zone.width := w; Zone.height := h;
         Zone.biome := Some (str_or (ActConfig.biome actConfig) "space");
         Zone.isBossZone := false; Zone.spawn := spawn;
         Zone.exit := Some exit; Zone.enemySpawns := enemy1;
         Zone.eliteSpawns := elites; Zone.bossSpawn := None;
         Zone.obstacles := obstacles; Zone.decorations := decorations;
         Zone.parallax := parallax; Zone.pois := [];
         Zone.resourceNodes := []; Zone.objective := None;
         Zone.branchExits := None |} in
    pickRange (GenCfg.width cfg) 1500 3000 (rng_new zoneSeed) = (w0, s_height) ∧
    pickRange (GenCfg.height cfg) 1500 3000 s_height = (h0, s_spawn) ∧
    generateSpawnPoint w h s_spawn = (spawn, s_par) ∧
    generateParallax tune actConfig w h s_par = (parallax, s_exit) ∧
    generateExitPoint spawn w h s_exit = (exit, s_enemy) ∧
    generateEnemySpawns tune pool (enemyDensity_of tune cfg depth mods diff)
      w h spawn exit s_enemy = (enemy0, s_pack) ∧
    applyPackDirector (State.packs state) enemy0 pool spawn exit s_pack
      = (enemy1, s_elite) ∧
    generateEliteSpawns tune
      (arr_or (ActConfig.elitePool actConfig) ["commander"])
      (eliteDensity_of tune cfg depth mods diff) w h s_elite = (elites, s_obs) ∧
    generateObstacles tune (obstacleDensity_of cfg depth mods diff) w h
      {| Options.depth := Some depth; Options.mods := Some mods;
         Options.difficulty := None |} s_obs = (obstacles, s_dec) ∧
    generateDecorations tune (ActConfig.biome actConfig) w h s_dec
      = (decorations, s_poi) ∧
    generatePOIs zone0 actConfig options s_poi = (pois, zoneP, s_res) ∧
    generateResourceNodes zoneP actConfig options s_res = (nodes, zoneR, s_obj) ∧
    generateObjective zoneR depth s_obj = (obj, zoneO, s_branch) ∧
    (if (3 <=? depth)%Z then generateBranchExits zoneO depth else ret None)
      s_branch = (branch, s_end) ∧
    (generate state actConfig zoneSeed options caller).1 =
      set_results
        (set_lists zone0
           (enemy1 ++ (pois ≫= λ p, poi_spawn p <$> POI.enemies p))
           (obstacles ++ (pois ≫= POI.obstacles) ++ nodes
            ++ from_option Objective.generators [] obj))
        pois nodes obj branch.
Proof.
  intros cfg depth mods diff tune crampedMult mapScale pool.
  destruct (generate_steps state actConfig zoneSeed options caller)
    as (w0 & s1 & h0 & s2 & spawn & s3 & parallax & s4 & exit & s5 & enemy0
        & s6 & enemy1 & s7 & elites & s8 & obstacles & s9 & decorations & s10
        & pois & zoneP & s11 & nodes & zoneR & s12 & obj & zoneO & s13
        & branch & s14 & Hsteps).
  cbv zeta in Hsteps.
  destruct Hsteps as (E1 & E2 & E3 & E4 & E5 & E6 & E7 & E8 & E9 & E10 & E11
                      & E12 & E13 & E14 & Hz).
  exists w0, s1, h0, s2, spawn, parallax, s3, exit, s4, enemy0, s5, enemy1, s6,
    elites, s7, obstacles, s8, decorations, s9, pois, zoneP, s10, nodes,
    zoneR, s11, obj, zoneO, s12, branch, s13, s14.
  cbv zeta. split_and!; try done.
  rewrite Hz.
  rewrite (generateObjective_shape _ _ _ _ _ _ E13).
  rewrite (generateResourceNodes_shape _ _ _ _ _ _ _ E12).
  rewrite (generatePOIs_shape _ _ _ _ _ _ _ E11).
  cbn [set_lists Zone.enemySpawns Zone.obstacles]. by rewrite <-!app_assoc.
Qed.

(** *** Spawn and exit *)

Lemma generateSpawnPoint_line w h s :
  let p := (generateSpawnPoint w h s).1 in
  Point.y p = h - 100 ∨ Point.x p = 100 ∨ Point.x p = w - 100.
Proof.
  unfold generateSpawnPoint. cbv zeta. apply bind_post. intros edge s1.
  repeat (destruct (is_str edge _);
          [apply bind_post; intros ? ?; simpl; auto|]).
  simpl. auto.
Qed.

Lemma generateExitPoint_cases spawn w h s :
  let e := (generateExitPoint spawn w h s).1 in
  (h / 2 < Point.y spawn ∧ Point.y e = 100) ∨
  (Point.y spawn <= h / 2 ∧ Point.x spawn < w / 2 ∧ Point.x e = w - 100) ∨
  (Point.y spawn <= h / 2 ∧ w / 2 <= Point.x spawn ∧ Point.x e = 100).
Proof.
  unfold generateExitPoint. cbv zeta.
  destruct (Qlt_bool (h / 2) (Point.y spawn)) eqn:Hy.
  { apply Qlt_bool_true in Hy. left. split; [done|].
    apply bind_post. by intros ? ?. }
  apply Qlt_bool_false in Hy.
  destruct (Qlt_bool (Point.x spawn) (w / 2)) eqn:Hx.
  - apply Qlt_bool_true in Hx. right. left. split; [done|]. split; [done|].
    apply bind_post. by intros ? ?.
  - apply Qlt_bool_false in Hx. right. right. split; [done|]. split; [done|].
    apply bind_post. by intros ? ?.
Qed.

(** *** Parallax *)

Lemma generateStarfield_length w h density maxCount s :
  length (generateStarfield w h density maxCount s).1 =
    Z.to_nat (if Qle_bool 1 maxCount
              then Z.min (Qfloor (w ⊗ h ⊗ density)) (Qfloor maxCount)
              else Qfloor (w ⊗ h ⊗ density)).
Proof.
  unfold generateStarfield. rewrite for_count_length. f_equal.
  unfold Math_floor, Math_minZ.
  destruct (Qle_bool 1 maxCount) eqn:Hone.
  - apply Qle_bool_iff in Hone.
    rewrite (proj2 (Qlt_bool_true 0 maxCount)) by lra.
    assert (1 ≤ Qfloor maxCount)%Z as Hf.
    { change 1%Z with (Qfloor 1). by apply Qfloor_resp_le. }
    destruct (Qfloor maxCount =? 0)%Z eqn:E; [lia|done].
  - destruct (Qlt_bool 0 maxCount) eqn:Hpos; [|done].
    apply Qlt_bool_true in Hpos.
    assert (Qfloor maxCount = 0)%Z as ->; [|done].
    assert (¬ 1 <= maxCount) as Hn.
    { intros Hc. apply Qle_bool_iff in Hc. congruence. }
    apply Qnot_le_lt in Hn.
    assert (0 ≤ Qfloor maxCount)%Z.
    { change 0%Z with (Qfloor 0). apply Qfloor_resp_le. lra. }
    assert (Qfloor maxCount < 1)%Z; [|lia].
    rewrite Zlt_Qlt. eapply Qle_lt_trans; [apply Qfloor_le|exact Hn].
Qed.

Lemma generateParallax_layers tune actConfig w h s :
  let p := (generateParallax tune actConfig w h s).1 in
  ∃ s1 s2,
    Parallax.background_stars p =
      (generateStarfield (w ⊗ 1.5) (h ⊗ 1.5) (round 0.0003)
         (typeof_number (Tune.maxStarsBackground tune) 1800) s).1 ∧
    Parallax.midground_stars p =
      (generateStarfield (w ⊗ round 1.3) (h ⊗ round 1.3) (round 0.0002)
         (typeof_number (Tune.maxStarsMidground tune) 1200) s1).1 ∧
    Parallax.foreground_objects p =
      (generateNebulaWisps w h (ActConfig.nebula actConfig) s2).1.
Proof.
  unfold generateParallax. cbv zeta. unfold bind.
  destruct (generateStarfield (w ⊗ 1.5) _ _ _ s) as [bg s1].
  destruct (generateStarfield (w ⊗ round 1.3) _ _ _ s1) as [mid s2] eqn:Emid.
  destruct (generateNebulaWisps w h _ s2) as [wisps s3] eqn:Ewisps.
  exists s1, s2. by rewrite Emid, Ewisps.
Qed.

End passes.
End ZoneShape.

Module PoiFacts.
Import JS MapGenerator Reference MapGeneratorFacts ReferenceFacts GenerateSteps
  ZoneShape.
Local Open Scope string_scope.
Local Open Scope list_scope.
Local Open Scope Q_scope.

Section passes.
Context `{SeededRandom} `{JSMath} {fl : Float}.

(** *** [pick] *)

Lemma pick_elem {A} (l : list A) s x : (pick l s).1 = Some x → x ∈ l.
Proof.
  unfold pick, bind, ret. destruct (rng_index (length l) s) as [i s1].
  simpl. apply list_elem_of_lookup_2.
Qed.

Lemma pick_nonempty `{!SeededRandomSpec} {A} (l : list A) s :
  l ≠ [] → ∃ x, (pick l s).1 = Some x ∧ x ∈ l.
Proof.
  intros Hl. unfold pick, bind, ret.
  pose proof (rng_index_bounds (length l) s) as Hi.
  destruct (rng_index (length l) s) as [i s1]. simpl in *.
  destruct (lookup_lt_is_Some_2 l i) as [x Hx].
  { apply Hi. destruct l; [done|simpl; lia]. }
  exists x. split; [done|]. by eapply list_elem_of_lookup_2.
Qed.

(** *** Points of interest *)

Lemma Math_max_min_clamp (lo hi v : Q) :
  lo <= Math_max lo (Math_min hi v) ∧
  (lo <= hi → Math_max lo (Math_min hi v) <= hi).
Proof.
  unfold Math_max, Math_min.
  destruct (Qle_bool hi v) eqn:E1.
  - apply Qle_bool_iff in E1.
    destruct (Qle_bool lo hi) eqn:E2.
    + apply Qle_bool_iff in E2. split; [done|]. intros _. apply Qle_refl.
    + split; [apply Qle_refl|]. done.
  - assert (v <= hi) as Hv.
    { apply Qlt_le_weak, Qnot_le_lt. intros Hc.
      apply Qle_bool_iff in Hc. congruence. }
    destruct (Qle_bool lo v) eqn:E2.
    + apply Qle_bool_iff in E2. done.
    + split; [apply Qle_refl|]. done.
Qed.

Lemma generatePathPoints_clamped spawn exit w h count s :
  Forall (λ pt, 200 <= Point.x pt ∧ 200 <= Point.y pt ∧
                (400 <= w → Point.x pt <= w - 200) ∧
                (400 <= h → Point.y pt <= h - 200))
         (_generatePathPoints spawn exit w h count s).1.
Proof.
  unfold _generatePathPoints. cbv zeta. apply for_n_Forall. intros i s1.
  apply bind_post. intros offset s2. cbn [fst ret Point.x Point.y].
  match goal with
  | |- _ <= Math_max 200 (Math_min (w - 200) ?vx) ∧
       _ <= Math_max 200 (Math_min (h - 200) ?vy) ∧ _ =>
      destruct (Math_max_min_clamp 200 (w - 200) vx) as [Hx1 Hx2];
      destruct (Math_max_min_clamp 200 (h - 200) vy) as [Hy1 Hy2]
  end.
  split; [done|]. split; [done|]. split.
  - intros Hw. apply Hx2. lra.
  - intros Hh. apply Hy2. lra.
Qed.

(** A POI is made at the point asked for, of the type asked for. *)
Lemma createPOI_made type cx cy depth actConfig index s p :
  (_createPOI type cx cy depth actConfig index s).1 = Some p →
  POI.x p = cx ∧ POI.y p = cy ∧ type = Some (POI.type p).
Proof.
  unfold _createPOI. cbv zeta. revert p.
  repeat (
    match goal with
    | |- ∀ p, ((if is_str type ?t then _ else _) s).1 = Some p → _ =>
        let E := fresh "E" in
        destruct (is_str type t) eqn:E;
        [apply bool_decide_eq_true in E;
         repeat (apply bind_post; intros ? ?);
         intros p [= <-]; by rewrite E |]
    end).
  by intros p.
Qed.

(** The types of depth 50 are all the types there are. *)
Lemma tier_types_known depth t :
  t ∈ _getPOITypesForTier depth → t ∈ _getPOITypesForTier 50.
Proof.
  unfold _getPOITypesForTier. cbn [Z.leb Z.compare Pos.compare Pos.compare_cont].
  rewrite !elem_of_app.
  destruct (5 <=? depth)%Z, (10 <=? depth)%Z, (20 <=? depth)%Z,
    (50 <=? depth)%Z; rewrite ?elem_of_cons, ?elem_of_nil; tauto.
Qed.

Lemma createPOI_known t cx cy depth actConfig index s :
  t ∈ _getPOITypesForTier 50 →
  is_Some (_createPOI (Some t) cx cy depth actConfig index s).1.
Proof.
  unfold _getPOITypesForTier. cbn [Z.leb Z.compare Pos.compare Pos.compare_cont].
  rewrite !elem_of_app, !elem_of_cons, !elem_of_nil.
  intros Ht. unfold _createPOI. cbv zeta.
  repeat (
    match goal with
    | |- is_Some ((if is_str (Some t) ?ty then _ else _) s).1 =>
        let E := fresh "E" in
        destruct (is_str (Some t) ty) eqn:E;
        [repeat (apply bind_post; intros ? ?); by eexists
        |apply bool_decide_eq_false in E]
    end).
  exfalso. intuition congruence.
Qed.

Lemma poi_loop_Forall (P : POI.t → Prop) (Q : Point.t → Prop) tier depth
    actConfig :
  (∀ pt ty i s p,
     Q pt → (∀ t, ty = Some t → t ∈ tier) →
     (_createPOI ty (Point.x pt) (Point.y pt) depth actConfig i s).1 = Some p →
     P p) →
  ∀ pts i st s,
    Forall Q pts → Forall P st.1 →
    Forall P (poi_loop pts i tier depth actConfig st s).1.1.
Proof.
  intros Hmake pts. induction pts as [|pt pts IH]; intros i st s Hpts Hst;
    [done|].
  apply Forall_cons in Hpts as [Hpt Hpts].
  cbn [poi_loop]. unfold bind at 1.
  pose proof (pick_elem tier s) as Hty.
  destruct (pick tier s) as [ty s1]. cbn [fst] in Hty.
  unfold bind at 1.
  pose proof (Hmake pt ty i s1) as Hp.
  destruct (_createPOI ty _ _ _ _ _ s1) as [[p|] s2]; cbn [fst] in Hp.
  - apply IH; [done|]. cbn [fst]. apply Forall_app. split; [done|].
    constructor; [|done]. by apply Hp.
  - by apply IH.
Qed.

Lemma poi_loop_length `{!SeededRandomSpec} tier depth actConfig :
  tier ≠ [] → (∀ t, t ∈ tier → t ∈ _getPOITypesForTier 50) →
  ∀ pts i st s,
    length (poi_loop pts i tier depth actConfig st s).1.1
    = (length st.1 + length pts)%nat.
Proof.
  intros Htier Hknown pts. induction pts as [|pt pts IH]; intros i st s.
  - simpl. lia.
  - cbn [poi_loop]. unfold bind at 1.
    destruct (pick_nonempty tier s Htier) as (t & Ht & Hin).
    destruct (pick tier s) as [ty s1]. cbn [fst] in Ht. subst ty.
    unfold bind at 1.
    destruct (createPOI_known t (Point.x pt) (Point.y pt) depth actConfig i s1)
      as [p Hp]; [by apply Hknown|].
    destruct (_createPOI (Some t) _ _ _ _ _ s1) as [o s2]. cbn [fst] in Hp.
    subst o. rewrite IH. cbn [fst]. rewrite length_app. simpl. lia.
Qed.

Lemma tier_nonempty depth : _getPOITypesForTier depth ≠ [].
Proof. done. Qed.

Lemma generatePOIs_count `{!SeededRandomSpec} zone actConfig options s :
  (0 ≤ depth_or (Options.depth options))%Z →
  (2 ≤ length (generatePOIs zone actConfig options s).1.1 ≤ 7)%nat.
Proof.
  intros Hd. unfold generatePOIs. cbv zeta.
  set (maxPOIs := Math_minZ 7 _).
  assert (2 ≤ maxPOIs ≤ 7)%Z as Hmax.
  { unfold maxPOIs, Math_minZ, Math_maxZ.
    assert (0 ≤ depth_or (Options.depth options) / 15)%Z
      by (apply Z.div_pos; lia). lia. }
  apply (bind_post_with (λ n, (2 ≤ n ≤ 7)%Z)).
  { pose proof (rng_int_bounds (Math_maxZ 2 (maxPOIs - 1)) maxPOIs s) as Hn.
    unfold int, Math_maxZ in *. lia. }
  intros n s1 Hn.
  apply (bind_post_with (λ pts : list Point.t, length pts = Z.to_nat n)).
  { apply for_count_length. }
  intros pts s2 Hl.
  rewrite (poi_loop_length _ _ _ (tier_nonempty _) (tier_types_known _)).
  cbn [fst length]. lia.
Qed.

Lemma generatePOIs_Forall (P : POI.t → Prop) zone actConfig options s :
  (∀ pt ty i s p,
     (200 <= Point.x pt ∧ 200 <= Point.y pt ∧
      (400 <= Zone.width zone → Point.x pt <= Zone.width zone - 200) ∧
      (400 <= Zone.height zone → Point.y pt <= Zone.height zone - 200)) →
     (∀ t, ty = Some t → t ∈ _getPOITypesForTier (depth_or (Options.depth options))) →
     (_createPOI ty (Point.x pt) (Point.y pt) (depth_or (Options.depth options))
        actConfig i s).1 = Some p →
     P p) →
  Forall P (generatePOIs zone actConfig options s).1.1.
Proof.
  intros Hmake. unfold generatePOIs. cbv zeta.
  apply bind_post. intros n s1. unfold bind at 1.
  pose proof (generatePathPoints_clamped (Zone.spawn zone) (exit_of zone)
                (Zone.width zone) (Zone.height zone) n s1) as Hpts.
  destruct (_generatePathPoints _ _ _ _ n s1) as [pts s2]. cbn [fst] in Hpts.
  eapply poi_loop_Forall; [exact Hmake|exact Hpts|constructor].
Qed.

End passes.
End PoiFacts.

Module NodeFacts.
Import JS MapGenerator Reference MapGeneratorFacts ReferenceFacts GenerateSteps
  ZoneShape PoiFacts.
Local Open Scope string_scope.
Local Open Scope list_scope.
Local Open Scope Q_scope.

Section passes.
Context `{SeededRandom} `{JSMath} {fl : Float}.

(** *** Resource nodes *)

Lemma weighted_walk_elem {A} (table : list (A * Q)) roll a :
  weighted_walk table roll = Some a → a ∈ table.*1.
Proof.
  revert roll. induction table as [|[a' wt] table IH]; intros roll; [done|].
  cbn [weighted_walk]. destruct (Qle_bool _ 0).
  - intros [= <-]. apply list_elem_of_here.
  - intros Hw. apply list_elem_of_further. by eapply IH.
Qed.

Lemma node_position_inside `{!SeededRandomSpec} attempts w h spawn exit s x y :
  300 <= w → 300 <= h →
  (node_position attempts w h spawn exit s).1 = Some (x, y) →
  150 <= x <= w - 150 ∧ 150 <= y <= h - 150.
Proof.
  intros Hw Hh. revert s. induction attempts as [|n IH]; intros s; [done|].
  cbn [node_position]. unfold bind at 1.
  pose proof (rng_range_bounds 150 (w - 150) s ltac:(lra)) as Hx.
  destruct (range 150 (w - 150) s) as [x' s1] eqn:Ex.
  unfold range in Ex. rewrite Ex in Hx. cbn [fst] in Hx.
  unfold bind at 1.
  pose proof (rng_range_bounds 150 (h - 150) s1 ltac:(lra)) as Hy.
  destruct (range 150 (h - 150) s1) as [y' s2] eqn:Ey.
  unfold range in Ey. rewrite Ey in Hy. cbn [fst] in Hy.
  destruct (Qlt_bool _ 300); [apply IH|].
  destruct (Qlt_bool _ 200); [apply IH|].
  by intros [= -> ->].
Qed.

Lemma weighted_pick_elem {A} (table : list (A * Q)) roll a :
  match weighted_walk table roll with
  | Some a => Some a
  | None => fst <$> head table
  end = Some a → a ∈ table.*1.
Proof.
  destruct (weighted_walk table roll) as [a'|] eqn:E.
  - intros [= <-]. by eapply weighted_walk_elem.
  - destruct table as [|[a' wt] table]; [done|].
    intros [= <-]. apply list_elem_of_here.
Qed.

(** What every resource node is like. *)
Lemma resource_node_made `{!SeededRandomSpec} depth w h spawn exit s n :
  (resource_node depth w h spawn exit s).1 = Some n →
  (∃ nt, nt ∈ (nodeTypes depth).*1 ∧ Obstacle.type n = Some (NodeType.type nt)) ∧
  Obstacle.destructible n = true ∧
  (∃ r, Obstacle.radius n = Q_of r ∧ (25 ≤ r ≤ 50)%Z) ∧
  (∃ hp, Obstacle.hp n = Some (Q_of hp) ∧ (25 ≤ hp ≤ 55)%Z) ∧
  (300 <= w → 300 <= h →
   150 <= Obstacle.x n <= w - 150 ∧ 150 <= Obstacle.y n <= h - 150).
Proof.
  unfold resource_node. unfold bind at 1.
  pose proof (λ (Hw : 300 <= w) (Hh : 300 <= h) x y,
                node_position_inside 20 w h spawn exit s x y Hw Hh) as Hpos.
  destruct (node_position 20 w h spawn exit s) as [[[x y]|] s1]; [|done].
  cbn [fst] in Hpos.
  unfold bind at 1. destruct (range _ _ s1) as [roll s2].
  pose proof (weighted_pick_elem (nodeTypes depth) roll) as Hwalk.
  destruct (match weighted_walk (nodeTypes depth) roll with
            | Some nt => Some nt
            | None => fst <$> head (nodeTypes depth)
            end) as [nt|]; [|done].
  specialize (Hwalk nt eq_refl).
  unfold bind at 1.
  pose proof (rng_int_bounds 25 50 s2 ltac:(lia)) as Hr.
  destruct (int 25 50 s2) as [radius s3] eqn:Er.
  unfold int in Er. rewrite Er in Hr. cbn [fst] in Hr.
  unfold bind at 1.
  pose proof (rng_int_bounds 25 55 s3 ltac:(lia)) as Hhp.
  destruct (int 25 55 s3) as [hp s4] eqn:Ehp.
  unfold int in Ehp. rewrite Ehp in Hhp. cbn [fst] in Hhp.
  unfold bind at 1. destruct (range 0 TWO_PI s4) as [rot s5].
  intros [= <-]. cbn. split_and!; eauto.
Qed.

Lemma generateResourceNodes_Forall (P : Obstacle.t → Prop) zone actConfig
    options s :
  (∀ s n, (resource_node (depth_or (Options.depth options))
             (Zone.width zone) (Zone.height zone)
             (Zone.spawn zone) (exit_of zone) s).1 = Some n → P n) →
  Forall P (generateResourceNodes zone actConfig options s).1.1.
Proof.
  intros Hnode.
  unfold generateResourceNodes. apply bind_post; intros count s1.
  unfold bind at 1.
  pose proof (for_n_Forall (λ o, ∀ n, o = Some n → P n)
    (Z.to_nat count) 0%Z
    (λ _, resource_node (depth_or (Options.depth options))
            (Zone.width zone) (Zone.height zone)
            (Zone.spawn zone) (exit_of zone)) s1) as Hall.
  unfold for_count.
  destruct (for_n _ _ _ s1) as [made s2]. cbn [fst] in *.
  apply Forall_forall. intros n Hn.
  apply list_elem_of_omap in Hn as (o & Ho & Heq).
  unfold id in Heq. subst o.
  rewrite Forall_forall in Hall.
  apply (λ Hb, Hall Hb (Some n) Ho n eq_refl).
  intros i s' n'. apply Hnode.
Qed.

Lemma omap_id_length {A} (l : list (option A)) :
  (length (omap id l) ≤ length l)%nat.
Proof.
  induction l as [|[a|] l IH]; [done| |]; cbn in *; lia.
Qed.

Lemma generateResourceNodes_count `{!SeededRandomSpec} zone actConfig options s :
  (0 ≤ depth_or (Options.depth options))%Z →
  (Z.of_nat (length (generateResourceNodes zone actConfig options s).1.1)
   ≤ Z.min 6 (3 + depth_or (Options.depth options) / 15))%Z.
Proof.
  intros Hd. unfold generateResourceNodes. cbv zeta.
  set (hi := Math_minZ 6 _).
  assert (0 ≤ depth_or (Options.depth options) / 15)%Z as Hdiv
    by (apply Z.div_pos; lia).
  apply (bind_post_with (λ n, (n ≤ hi)%Z)).
  { pose proof (rng_int_bounds 3 hi s) as Hn.
    unfold int, hi, Math_minZ in *. lia. }
  intros n s1 Hn.
  apply (bind_post_with (λ made : list (option Obstacle.t),
                           length made = Z.to_nat n)).
  { apply for_count_length. }
  intros made s2 Hl. cbn [fst ret].
  pose proof (omap_id_length made). unfold hi, Math_minZ in Hn. lia.
Qed.

(** *** Objective *)

Lemma generateObjective_quota zone depth s o :
  (generateObjective zone depth s).1.1 = Some o →
  Objective.progress o = 0 ∧ Objective.complete o = false ∧
  (Objective.type o = "exterminate" →
   Objective.exitLocked o = true ∧
   Objective.target o =
     Q_of (Z.max 5 (Qfloor (Q_of (Z.of_nat (length (Zone.enemySpawns zone)
                                             + length (Zone.eliteSpawns zone)))
                            * 0.8)))) ∧
  (Objective.type o = "lockdown" →
   Objective.exitLocked o = true ∧ Objective.target o = 3 ∧
   length (Objective.generators o) = 3%nat).
Proof.
  unfold generateObjective. destruct (depth <=? 2)%Z; [done|].
  unfold bind at 1. destruct (range 0 _ s) as [roll s1].
  unfold is_str.
  repeat case_bool_decide; try (intros [= <-]; by split_and!).
  unfold bind.
  pose proof (for_count_length 3 (generator zone depth) s1) as Hl.
  destruct (for_count _ _ s1) as [gens s2]. cbn [fst] in Hl.
  intros [= <-]. by split_and!.
Qed.

(** *** Branch exits *)


End passes.
End NodeFacts.

Module ObstacleFacts.
Import JS MapGenerator Reference MapGeneratorFacts ReferenceFacts GenerateSteps
  ZoneShape PoiFacts NodeFacts.
Local Open Scope string_scope.
Local Open Scope list_scope.
Local Open Scope Q_scope.

Ltac kind_solve :=
  split; [done|]; split; [by eexists|];
  let t := fresh "t" in
  let Ht := fresh "Ht" in
  intros t Ht; cbn in Ht; injection Ht as <-;
  rewrite elem_of_app, !elem_of_cons; tauto.

Section passes.
Context `{SeededRandom} `{JSMath} {fl : Float}.

Lemma wall_asteroid_kind mods w h budget bx by_ jx jy px py cw side walls s :
  Forall (regular_obstacle mods) walls →
  Forall (regular_obstacle mods)
    (wall_asteroid w h budget bx by_ jx jy px py cw side walls s).1.
Proof.
  intros Hw. unfold wall_asteroid.
  do 4 (apply bind_post; intros ? ?).
  destruct (_ || _); [done|].
  do 3 (apply bind_post; intros ? ?).
  cbn [fst ret]. apply Forall_app. split; [done|].
  constructor; [|done]. kind_solve.
Qed.

Lemma generateCorridorWalls_kind mods w h budget s :
  Forall (regular_obstacle mods) (_generateCorridorWalls w h budget s).1.
Proof.
  unfold _generateCorridorWalls. apply bind_post; intros ? ?.
  apply for_acc_inv; [done|]. intros ? walls ? Hw.
  unfold corridor.
  apply bind_post; intros ? ?.
  apply bind_post; intros [[[sx sy] ex] ey] ?.
  do 2 (apply bind_post; intros ? ?).
  apply for_acc_inv; [done|]. intros ? walls' ? Hw'.
  unfold wall_segment.
  do 2 (apply bind_post; intros ? ?).
  apply (bind_post_with (Forall (regular_obstacle mods))).
  - apply for_while_inv; [done|]. intros. by apply wall_asteroid_kind.
  - intros. apply for_while_inv; [done|]. intros. by apply wall_asteroid_kind.
Qed.

Lemma rock_kind mods (type : option string) (o : Obstacle.t) :
  (∀ t, type = Some t →
        t ∈ if has mods "MINEFIELD" then ["asteroid"; "debris"; "mine"; "mine"]
            else ["asteroid"; "debris"; "asteroid"]) ∨
  (∀ t, type = Some t →
        t ∈ if has mods "MINEFIELD" then ["asteroid"; "debris"; "mine"; "mine"]
            else ["asteroid"; "debris"]) →
  Obstacle.type o = type → Obstacle.destructible o = true →
  is_Some (Obstacle.hp o) → regular_obstacle mods o.
Proof.
  intros Hty Ho Hd Hhp. split; [done|]. split; [done|].
  intros t Ht. rewrite Ho in Ht.
  destruct Hty as [Hty|Hty]; specialize (Hty t Ht);
    destruct (has mods "MINEFIELD");
    rewrite elem_of_app, !elem_of_cons, ?elem_of_nil;
    rewrite !elem_of_cons, ?elem_of_nil in Hty; tauto.
Qed.

Lemma cluster_rock_kind mods depth cx cy r s :
  regular_obstacle mods (cluster_rock mods depth cx cy r s).1.
Proof.
  unfold cluster_rock. cbv zeta.
  do 2 (apply bind_post; intros ? ?).
  match goal with
  | |- context [pick ?l] =>
      apply (bind_post_with (λ ty, ∀ t, ty = Some t → t ∈ l));
        [intros t; apply pick_elem|]
  end.
  intros type ? Hty.
  do 2 (apply bind_post; intros ? ?).
  apply bind_post; intros hp ?.
  apply (rock_kind mods type); [by left| | |]; by eauto.
Qed.

Lemma scatter_rock_kind mods depth w h s :
  regular_obstacle mods (scatter_rock mods depth w h s).1.
Proof.
  unfold scatter_rock. cbv zeta.
  match goal with
  | |- context [pick ?l] =>
      apply (bind_post_with (λ ty, ∀ t, ty = Some t → t ∈ l));
        [intros t; apply pick_elem|]
  end.
  intros type ? Hty.
  do 4 (apply bind_post; intros ? ?).
  apply bind_post; intros hp ?.
  apply (rock_kind mods type); [by right| | |]; by eauto.
Qed.

Lemma generateObstacles_kind tune density w h depth mods s :
  Forall (regular_obstacle mods)
    (generateObstacles tune density w h
       {| Options.depth := Some depth; Options.mods := Some mods;
          Options.difficulty := None |} s).1.
Proof.
  unfold generateObstacles. cbv zeta.
  cbn [Options.depth Options.mods Options.difficulty arr_or default str_or].
  apply (bind_post_with (Forall (regular_obstacle mods)));
    [apply generateCorridorWalls_kind|].
  intros walls s1 Hwalls. apply bind_post; intros clusterCount s2.
  apply (bind_post_with (λ st : list Obstacle.t * Z,
                           Forall (regular_obstacle mods) st.1)).
  { apply for_while_inv; [done|]. intros ? st ? Hst _.
    unfold cluster. do 4 (apply bind_post; intros ? ?).
    apply for_while_inv; [done|]. intros ? st' ? Hst' _.
    eapply bind_post_with; [apply cluster_rock_kind|]. intros o ? Ho.
    cbn [fst ret]. apply Forall_app. split; [done|]. by constructor. }
  intros st s3 Hst.
  apply (bind_post_with (Forall (regular_obstacle mods))).
  { apply for_n_Forall. intros. apply scatter_rock_kind. }
  intros scattered s4 Hsc.
  rewrite bool_decide_eq_false_2 by done. cbn [fst ret].
  apply Forall_app. by split.
Qed.

End passes.
End ObstacleFacts.

Module PlacementFacts.
Import JS MapGenerator Reference MapGeneratorFacts ReferenceFacts GenerateSteps
  ZoneShape PoiFacts NodeFacts ObstacleFacts.
Local Open Scope string_scope.
Local Open Scope list_scope.
Local Open Scope Q_scope.

Section passes.
Context `{SeededRandom} `{JSMath} {fl : Float}.

Lemma poi_obstacle_kind mods x y type radius hp rotation props :
  type ∈ ["debris"; "asteroid"; "ore_rich"; "crystal_node"; "void_crystal";
          "salvage_wreck"] →
  regular_obstacle mods (poi_obstacle x y type radius hp rotation props).
Proof.
  intros Ht. split; [done|]. split; [by eexists|].
  intros t [= <-]. rewrite elem_of_app, !elem_of_cons.
  rewrite !elem_of_cons, elem_of_nil in Ht. tauto.
Qed.

Ltac obstacle_list mods :=
  first
    [ unfold for_count; apply for_n_Forall; intros ? ?;
      repeat (apply bind_post; intros ? ?);
      apply poi_obstacle_kind; rewrite !elem_of_cons; tauto
    | unfold for_redrawn; apply for_int_bound_inv;
      [ constructor; [apply poi_obstacle_kind; rewrite !elem_of_cons; tauto
                     |constructor]
      | intros ? ? ? ?; repeat (apply bind_post; intros ? ?);
        cbn [fst ret]; apply Forall_app; split; [done|];
        constructor; [|done];
        apply poi_obstacle_kind; rewrite !elem_of_cons; tauto ] ].

Lemma createPOI_obstacles mods type cx cy depth actConfig index s p :
  (_createPOI type cx cy depth actConfig index s).1 = Some p →
  Forall (regular_obstacle mods) (POI.obstacles p).
Proof.
  unfold _createPOI. cbv zeta. revert p.
  repeat (
    match goal with
    | |- ∀ p, ((if is_str type ?t then _ else _) s).1 = Some p → _ =>
        destruct (is_str type t);
        [repeat first
           [ apply (bind_post_with (Forall (regular_obstacle mods)));
             [obstacle_list mods | intros ? ? ?]
           | apply bind_post; intros ? ? ];
         intros p [= <-]; cbn [POI.obstacles poi]; first [done | constructor] |]
    end).
  by intros p.
Qed.

Lemma generator_kind mods zone depth i s :
  regular_obstacle mods (generator zone depth i s).1.
Proof.
  unfold generator. cbv zeta. apply bind_post. intros ? ?.
  split; [done|]. split; [by eexists|].
  intros t [= <-]. rewrite elem_of_app, !elem_of_cons. tauto.
Qed.

Lemma generateObjective_generators mods zone depth s o :
  (generateObjective zone depth s).1.1 = Some o →
  Forall (regular_obstacle mods) (Objective.generators o).
Proof.
  unfold generateObjective. destruct (depth <=? 2)%Z; [done|].
  unfold bind at 1. destruct (range 0 _ s) as [roll s1].
  unfold is_str.
  repeat case_bool_decide; try (intros [= <-]; by constructor).
  unfold bind.
  pose proof (for_n_Forall (regular_obstacle mods) 3 0 (generator zone depth) s1
                (generator_kind mods zone depth)) as Hg.
  unfold for_count. change (Z.to_nat 3) with 3%nat.
  destruct (for_n 3 0 _ s1) as [gens s2]. cbn [fst] in Hg.
  by intros [= <-].
Qed.

Lemma resource_node_kind mods depth w h spawn exit s n :
  (resource_node depth w h spawn exit s).1 = Some n →
  regular_obstacle mods n.
Proof.
  unfold resource_node. unfold bind at 1.
  destruct (node_position 20 w h spawn exit s) as [[[x y]|] s1]; [|done].
  unfold bind at 1. destruct (range _ _ s1) as [roll s2].
  pose proof (weighted_pick_elem (nodeTypes depth) roll) as Hwalk.
  destruct (match weighted_walk (nodeTypes depth) roll with
            | Some nt => Some nt
            | None => fst <$> head (nodeTypes depth)
            end) as [nt|]; [|done].
  specialize (Hwalk nt eq_refl).
  do 3 (unfold bind at 1; match goal with
        | |- context [let (_, _) := ?m ?st in _] => destruct (m st) as [? ?]
        end).
  intros [= <-]. split; [done|]. split; [by eexists|].
  intros t [= <-]. rewrite elem_of_app, !elem_of_cons.
  unfold nodeTypes in Hwalk. rewrite fmap_app, elem_of_app in Hwalk.
  destruct (30 <=? depth)%Z; cbn in Hwalk;
    rewrite !elem_of_cons, ?elem_of_nil in Hwalk;
    intuition (subst; auto).
Qed.

(** *** Enemy and elite placement *)

Lemma enemy_spawn_loop_inside `{!SeededRandomSpec} fuel pool count w h spawn
    exit dS dE dB spawns s :
  200 <= w → 200 <= h →
  let inside := λ e : EnemySpawn.t,
    (100 <= EnemySpawn.x e <= w - 100 ∧ 100 <= EnemySpawn.y e <= h - 100) ∧
    (∀ t, EnemySpawn.type e = Some t → t ∈ pool) ∧
    (∃ r, EnemySpawn.patrolRadius e = Some (Q_of r) ∧ (50 ≤ r ≤ 150)%Z) ∧
    EnemySpawn.active e = false ∧ EnemySpawn.killed e = false ∧
    EnemySpawn.packId e = None ∧ EnemySpawn.poiId e = None in
  Forall inside spawns →
  Forall inside
    (enemy_spawn_loop fuel pool count w h spawn exit dS dE dB spawns s).1.
Proof.
  intros Hw Hh inside. revert spawns s.
  induction fuel as [|fuel IH]; intros spawns s Hp; [done|].
  cbn [enemy_spawn_loop].
  destruct (Z.of_nat (length spawns) <? count)%Z; [|done].
  unfold bind at 1.
  pose proof (rng_range_bounds 100 (w - 100) s ltac:(lra)) as Hx.
  destruct (range 100 (w - 100) s) as [x s1] eqn:Ex.
  unfold range in Ex. rewrite Ex in Hx. cbn [fst] in Hx.
  unfold bind at 1.
  pose proof (rng_range_bounds 100 (h - 100) s1 ltac:(lra)) as Hy.
  destruct (range 100 (h - 100) s1) as [y s2] eqn:Ey.
  unfold range in Ey. rewrite Ey in Hy. cbn [fst] in Hy.
  destruct (Qlt_bool _ dS); [by apply IH|].
  destruct (Qlt_bool _ dE); [by apply IH|].
  destruct (too_close x y dB spawns); [by apply IH|].
  unfold bind at 1.
  pose proof (pick_elem pool s2) as Hty.
  destruct (pick pool s2) as [type s3]. cbn [fst] in Hty.
  unfold bind at 1. destruct (pick _ s3) as [patrol s4].
  unfold bind at 1.
  pose proof (rng_int_bounds 50 150 s4 ltac:(lia)) as Hr.
  destruct (int 50 150 s4) as [pr s5] eqn:Er.
  unfold int in Er. rewrite Er in Hr. cbn [fst] in Hr.
  apply IH. apply Forall_app. split; [done|].
  constructor; [|done]. unfold inside. cbn. split_and!; eauto; tauto.
Qed.

Lemma generateEliteSpawns_inside `{!SeededRandomSpec} tune pool density w h s :
  400 <= w → 400 <= h →
  Forall (λ e, (200 <= EliteSpawn.x e <= w - 200 ∧
                200 <= EliteSpawn.y e <= h - 200) ∧
               (∀ t, EliteSpawn.type e = Some t → t ∈ pool) ∧
               EliteSpawn.active e = false ∧ EliteSpawn.killed e = false)
         (generateEliteSpawns tune pool density w h s).1.
Proof.
  intros Hw Hh. unfold generateEliteSpawns. cbv zeta.
  apply for_n_Forall. intros i s0.
  apply (bind_post_with (λ x, 200 <= x <= w - 200)).
  { apply (rng_range_bounds 200 (w - 200) s0). lra. }
  intros x s1 Hx.
  apply (bind_post_with (λ y, 200 <= y <= h - 200)).
  { apply (rng_range_bounds 200 (h - 200) s1). lra. }
  intros y s2 Hy.
  apply (bind_post_with (λ ty, ∀ t, ty = Some t → t ∈ pool)).
  { intros t. apply pick_elem. }
  intros type s3 Hty. cbn. split_and!; eauto; tauto.
Qed.

(** *** Boss arena *)

Lemma generateBossArenaObstacles_pillars `{!SeededRandomSpec} w h s :
  let pillars := (generateBossArenaObstacles w h s).1 in
  (2 ≤ length pillars ≤ 4)%nat ∧
  Forall (λ o, Obstacle.type o = Some "pillar" ∧ Obstacle.radius o = 40 ∧
               Obstacle.destructible o = false ∧ Obstacle.hp o = None) pillars.
Proof.
  unfold generateBossArenaObstacles.
  apply (bind_post_with (λ n, (2 ≤ n ≤ 4)%Z)).
  { apply (rng_int_bounds 2 4 s). lia. }
  intros n s1 Hn. split.
  - rewrite for_count_length. lia.
  - apply for_n_Forall. intros i s2. apply bind_post. by intros ? ?.
Qed.

End passes.
End PlacementFacts.

Module PackFacts.
Import JS MapGenerator Reference MapGeneratorFacts ReferenceFacts GenerateSteps
  ZoneShape PoiFacts.
Local Open Scope string_scope.
Local Open Scope list_scope.
Local Open Scope Q_scope.

Lemma set_add_length {A} `{EqDecision A} (e : A) s :
  (length (set_add e s) ≤ S (length s))%nat.
Proof.
  unfold set_add. case_decide; [lia|]. rewrite length_app. simpl. lia.
Qed.

Lemma consume_length rest : ∀ used consumed size,
  (Z.of_nat (length (consume rest used consumed size))
   ≤ Z.of_nat (length used) + Z.max 0 (size - consumed))%Z.
Proof.
  induction rest as [|j rest IH]; intros used consumed size; cbn [consume];
    [lia|].
  destruct (consumed <? size)%Z eqn:Hc; [|lia].
  apply Z.ltb_lt in Hc. case_bool_decide.
  - specialize (IH used consumed size). lia.
  - specialize (IH (set_add j used) (consumed + 1)%Z size).
    pose proof (set_add_length j used). lia.
Qed.

Lemma omap_after_fmap {A B C} (f : B → option C) (g : A → B) (l : list A) :
  omap f (g <$> l) = omap (f ∘ g) l.
Proof.
  induction l as [|a l IH]; [done|]. cbn. rewrite IH. done.
Qed.

Lemma omap_lookup_seq {A} (l : list A) :
  omap (λ i, l !! i) (seq 0 (length l)) = l.
Proof.
  induction l as [|a l IH]; [done|].
  cbn [length seq omap list_omap]. simpl. f_equal.
  rewrite <-fmap_S_seq, omap_after_fmap. exact IH.
Qed.

(** The spawns that stay single are at least those whose index was
    not consumed. *)
Lemma singles_length {A} (l : list A) (used : list nat) :
  (length l ≤ length used
   + length (omap (λ i, if bool_decide (i ∈ used) then None else l !! i)
                  (seq 0 (length l))))%nat.
Proof.
  assert (∀ k : list nat, (∀ i, i ∈ k → i < length l)%nat → NoDup k →
            (length k ≤ length (filter (λ i, i ∈ used) k)
             + length (omap (λ i, if bool_decide (i ∈ used) then None
                                  else l !! i) k))%nat) as Hk.
  { induction k as [|i k IH]; intros Hlt Hnd; [done|].
    apply NoDup_cons in Hnd as [_ Hnd].
    specialize (IH (λ j Hj, Hlt j (list_elem_of_further _ _ _ Hj)) Hnd).
    destruct (decide (i ∈ used)) as [Hin|Hin].
    - rewrite filter_cons_True by done. cbn [omap list_omap].
      rewrite bool_decide_eq_true_2 by done. simpl. lia.
    - rewrite filter_cons_False by done. cbn [omap list_omap].
      rewrite bool_decide_eq_false_2 by done.
      destruct (lookup_lt_is_Some_2 l i) as [a ->];
        [apply Hlt, list_elem_of_here|]. simpl. lia. }
  specialize (Hk (seq 0 (length l))).
  assert (length (filter (λ i, i ∈ used) (seq 0 (length l))) ≤ length used)%nat
    as Hf.
  { apply submseteq_length, NoDup_submseteq.
    - apply NoDup_filter, NoDup_seq.
    - intros i Hi. by apply list_elem_of_filter in Hi as [? _]. }
  rewrite length_seq in Hk.
  specialize (Hk (λ i Hi, proj2 (proj1 (elem_of_seq _ _ _) Hi)) (NoDup_seq _ _)).
  simpl in Hk. lia.
Qed.

Section passes.
Context `{SeededRandom} `{JSMath} {fl : Float}.

Lemma build_memberTypes_size tpl s mt :
  (build_memberTypes tpl s).1 = Some mt → (1 ≤ length mt)%nat.
Proof.
  unfold build_memberTypes. destruct tpl as [t|]; [|done].
  destruct (PackTemplate.members t) as [|m ms]; [done|].
  unfold bind. destruct (memberTypes_loop _ _ s) as [l s1]. cbn [fst ret].
  destruct (length l <? 1)%nat eqn:E; [done|].
  apply Nat.ltb_ge in E. by intros [= <-].
Qed.

Lemma pack_loop_covers `{!SeededRandomSpec} packsData spawns pool spawnPt exitPt :
  (1 ≤ typeof_number (Packs.packSizeMin packsData) 3
     ≤ typeof_number (Packs.packSizeMax packsData) 5)%Z →
  ∀ rest used out packsMade s,
    (length used ≤ length out)%nat →
    (λ r : list nat * list EnemySpawn.t, (length r.1 ≤ length r.2)%nat)
      (pack_loop packsData spawns pool spawnPt exitPt rest used out
         packsMade s).1.
Proof.
  intros Hsize rest.
  induction rest as [|i rest IH]; intros used out pm s Hle; [done|].
  unfold pack_loop. cbv zeta. simpl.
  destruct (pm <? _)%Z; [|done].
  case_bool_decide; [by apply IH|].
  destruct (spawns !! i) as [anchor|]; [|by apply IH].
  destruct (negb _); [by apply IH|].
  apply bind_post. intros roll s1.
  destruct (Qlt_bool _ roll); [by apply IH|].
  apply bind_post. intros tpl s2.
  apply (bind_post_with (λ memberTypes, ∀ mt : list (option string),
                           memberTypes = Some mt → (1 ≤ length mt)%nat)).
  { intros mt. apply build_memberTypes_size. }
  intros memberTypes s3 Hmt.
  apply (bind_post_with (λ size, (1 ≤ size)%Z)).
  { destruct memberTypes as [mt|].
    - specialize (Hmt mt eq_refl). cbn [fst ret]. lia.
    - pose proof (rng_int_bounds _ _ s3 (proj2 Hsize)) as Hb.
      unfold int. lia. }
  intros size s4 Hs.
  apply (bind_post_with (λ members : list EnemySpawn.t,
                           length members = Z.to_nat size)).
  { apply for_count_length. }
  intros members s5 Hm.
  apply IH.
  rewrite length_app, Hm.
  pose proof (consume_length rest (set_add i used) 1 size).
  pose proof (set_add_length i used). lia.
Qed.

Lemma applyPackDirector_body_covers `{!SeededRandomSpec} packsData spawns pool
    spawnPt exitPt s :
  (1 ≤ typeof_number (Packs.packSizeMin packsData) 3
     ≤ typeof_number (Packs.packSizeMax packsData) 5)%Z →
  (length spawns
   ≤ length (applyPackDirector_body packsData spawns pool spawnPt exitPt s).1)%nat.
Proof.
  intros Hsize. unfold applyPackDirector_body. cbv zeta.
  destruct (_ <? _)%Z; [done|].
  apply bind_post. intros idx s1.
  apply (bind_post_with
           (λ r : list nat * list EnemySpawn.t, (length r.1 ≤ length r.2)%nat)).
  { apply (pack_loop_covers packsData spawns pool spawnPt exitPt Hsize);
      simpl; lia. }
  intros [used out] s2 Hr. cbn [fst snd ret] in *.
  rewrite length_app. pose proof (singles_length spawns used). lia.
Qed.

Lemma pack_loop_closed packsData spawns pool spawnPt exitPt rest used out
    packsMade s :
  (typeof_number (Packs.maxPacksPerZone packsData) 6 ≤ packsMade)%Z →
  (pack_loop packsData spawns pool spawnPt exitPt rest used out packsMade s).1
  = (used, out).
Proof.
  intros Hmax. unfold pack_loop. cbv zeta. destruct rest as [|i rest]; [done|].
  simpl. destruct (packsMade <? _)%Z eqn:E; [|done].
  apply Z.ltb_lt in E. lia.
Qed.

End passes.
End PackFacts.

(** ** Laws of the zone seed *)

Module SeedLaws.
Import JS Binary64 Binary64Facts MapGenerator SeedFacts.

Section generic.
Context {fl : Float}.

(** X11.  [createZoneSeed] returns an unsigned 32-bit number.  Under one
    zone index two act seeds get the same zone seed exactly when they
    agree modulo 2^32; and under one act seed two zone indices between
    [- 2 ^ 53] and [2 ^ 53], where [zoneIndex + 1] is exact, get the
    same zone seed exactly when they agree modulo 2^32. *)
Theorem createZoneSeed_distinct {fls : FloatSpec} actSeed actSeed' zoneIndex
    zoneIndex' :
  (0 ≤ createZoneSeed actSeed zoneIndex < 2 ^ 32)%Z ∧
  (createZoneSeed actSeed zoneIndex = createZoneSeed actSeed' zoneIndex ↔
   actSeed `mod` 2 ^ 32 = actSeed' `mod` 2 ^ 32)%Z ∧
  ((- 2 ^ 53 ≤ zoneIndex < 2 ^ 53)%Z → (- 2 ^ 53 ≤ zoneIndex' < 2 ^ 53)%Z →
   (createZoneSeed actSeed zoneIndex = createZoneSeed actSeed zoneIndex' ↔
    zoneIndex `mod` 2 ^ 32 = zoneIndex' `mod` 2 ^ 32)%Z).
Proof.
  rewrite !createZoneSeed_mod. split; [|split].
  - apply lxor_nonneg_bound; apply Z.mod_pos_bound; lia.
  - split.
    + intros Heq. by apply IndexFrames.lxor_cancel_r in Heq.
    + by intros ->.
  - intros Hz Hz'. rewrite !next_index_exact by done. split.
    + intros Heq. apply lxor_cancel_l, golden_injective in Heq.
      rewrite <-(Z.add_simpl_r zoneIndex 1), <-(Z.add_simpl_r zoneIndex' 1).
      rewrite Zminus_mod, Heq, <-Zminus_mod. done.
    + intros Heq. f_equal.
      rewrite Z.mul_mod, Z.add_mod, Heq, <-Z.add_mod, <-Z.mul_mod by lia. done.
Qed.

End generic.

Lemma createZoneSeed_distinct_witness :
  (0 ≤ createZoneSeed 7 3 < 2 ^ 32)%Z ∧
  (createZoneSeed 7 3 = createZoneSeed (7 + 2 ^ 32) 3 ↔
   7 `mod` 2 ^ 32 = (7 + 2 ^ 32) `mod` 2 ^ 32)%Z ∧
  (createZoneSeed 7 3 = createZoneSeed 7 4 ↔
   3 `mod` 2 ^ 32 = 4 `mod` 2 ^ 32)%Z.
Proof.
  destruct (createZoneSeed_distinct 7 (7 + 2 ^ 32) 3 4) as (Hr & Ha & Hz).
  split; [exact Hr|]. split; [exact Ha|]. apply Hz; by vm_compute.
Defined.

(** From [2 ^ 53] on the addition rounds, and two zone indices that
    differ modulo 2^32 get the same seed. *)
Example createZoneSeed_beyond_exact :
  createZoneSeed 0 (2 ^ 53) = createZoneSeed 0 (2 ^ 53 - 1) ∧
  ((2 ^ 53) `mod` 2 ^ 32 ≠ (2 ^ 53 - 1) `mod` 2 ^ 32)%Z.
Proof. split; [by vm_compute | by vm_compute]. Qed.

End SeedLaws.

(** ** Laws of the generated zone *)

Module ZoneLaws.
Import JS Binary64 MapGenerator Reference MapGeneratorFacts ReferenceFacts
  GenerateSteps ZoneShape PoiFacts NodeFacts ObstacleFacts PlacementFacts
  PackFacts Examples.
Local Open Scope string_scope.
Local Open Scope list_scope.
Local Open Scope Q_scope.

(** Opens [generate] into its passes: one equation per pass, and the
    returned zone field by field. *)
Ltac zone_shape st act seed opts rng0 :=
  destruct (generate_shape st act seed opts rng0)
    as (w0 & s_height & h0 & s_spawn & spawn & parallax & s_par & exit & s_exit
        & enemy0 & s_enemy & enemy1 & s_pack & elites & s_elite & obstacles
        & s_obs & decorations & s_dec & pois & zoneP & s_poi & nodes & zoneR
        & s_res & obj & zoneO & s_obj & branch & s_branch & s_end & Hs);
  cbv zeta in Hs;
  destruct Hs as (Ewidth & Eheight & Espawn & Epar & Eexit & Eenemy & Epack
                  & Eelite & Eobs & Edec & Epoi & Eres & Eobj & Ebranch & Hz).

Section generic.
Context `{SeededRandom} `{JSMath} {fl : Float}.

(** X12.  In a zone more than 200 wide and high an exit is made; the
    spawn point lies on the bottom, left or right margin line and the
    exit on the top, right or left one; and the two are either more
    than half the height less 100 apart in [y], or on opposite side
    margins, the width less 200 apart in [x]. *)
Theorem spawn_exit_apart state actConfig zoneSeed options caller :
  let z := (generate state actConfig zoneSeed options caller).1 in
  let w := Zone.width z in
  let h := Zone.height z in
  200 < w → 200 < h →
  ∃ exit,
    Zone.exit z = Some exit ∧
    (Point.y (Zone.spawn z) = h - 100 ∨ Point.x (Zone.spawn z) = 100 ∨
     Point.x (Zone.spawn z) = w - 100) ∧
    (Point.y exit = 100 ∨ Point.x exit = w - 100 ∨ Point.x exit = 100) ∧
    (h / 2 - 100 < Point.y (Zone.spawn z) - Point.y exit ∨
     Qabs (Point.x (Zone.spawn z) - Point.x exit) == w - 200).
Proof.
  zone_shape state actConfig zoneSeed options caller. rewrite Hz.
  cbn [set_results set_lists Zone.width Zone.height Zone.spawn Zone.exit].
  set (w := scale_dimension _ _ w0) in *.
  set (h := scale_dimension _ _ h0) in *.
  clearbody w h. intros Hw Hh. exists exit. split; [done|].
  pose proof (generateSpawnPoint_line w h s_spawn) as Hline.
  pose proof (generateExitPoint_cases spawn w h s_exit) as Hcases.
  rewrite Espawn in Hline. rewrite Eexit in Hcases. cbn [fst] in Hline, Hcases.
  split; [done|]. split; [tauto|].
  assert (h / 2 == h * (1 # 2)) as Hh2 by field.
  assert (w / 2 == w * (1 # 2)) as Hw2 by field.
  destruct Hcases as [[Hy He]|[(Hy & Hx & He)|(Hy & Hx & He)]].
  - left. rewrite He. lra.
  - right. rewrite He. destruct Hline as [Hl|[Hl|Hl]]; rewrite Hl in *.
    + exfalso. lra.
    + apply Qabs_case; intros; lra.
    + exfalso. lra.
  - right. rewrite He. destruct Hline as [Hl|[Hl|Hl]]; rewrite Hl in *.
    + exfalso. lra.
    + exfalso. lra.
    + apply Qabs_case; intros; lra.
Qed.

(** X13.  When the tuning table sets a positive map scale other than
    1, the zone is at least 600 wide and 600 high, whatever the act's
    ranges give. *)
Theorem scaled_zone_at_least_600 state actConfig zoneSeed options caller m :
  Tune.mapScale (State.exploration state) = Some m → 0 < m → ¬ m == 1 →
  let z := (generate state actConfig zoneSeed options caller).1 in
  600 <= Zone.width z ∧ 600 <= Zone.height z.
Proof.
  intros Hm Hpos Hne.
  zone_shape state actConfig zoneSeed options caller. rewrite Hz.
  cbn [set_results set_lists Zone.width Zone.height].
  rewrite Hm, (proj2 (Qlt_bool_true 0 m) Hpos).
  unfold scale_dimension.
  assert (Qeq_bool m 1.0 = false) as ->.
  { destruct (Qeq_bool m 1.0) eqn:E; [|done].
    apply Qeq_bool_iff in E. exfalso. apply Hne. by rewrite E. }
  unfold Q_of, Math_maxZ. change 600 with (inject_Z 600).
  rewrite <-!Zle_Qle. lia.
Qed.

(** X14.  A star cap of at least 1 bounds the star count of its layer
    by its floor; a cap below 1 is not applied, and the layer has as
    many stars as its density gives for the enlarged zone area, the
    products rounded as the code computes them. *)
Theorem starfield_caps state actConfig zoneSeed options caller :
  let z := (generate state actConfig zoneSeed options caller).1 in
  let tune := State.exploration state in
  let bg := typeof_number (Tune.maxStarsBackground tune) 1800 in
  let mid := typeof_number (Tune.maxStarsMidground tune) 1200 in
  let back := Parallax.background_stars (Zone.parallax z) in
  let middle := Parallax.midground_stars (Zone.parallax z) in
  (1 <= bg → (length back ≤ Z.to_nat (Qfloor bg))%nat) ∧
  (bg < 1 →
   length back = Z.to_nat (Math_floor (Zone.width z ⊗ 1.5 ⊗ (Zone.height z ⊗ 1.5)
                                       ⊗ round 0.0003))) ∧
  (1 <= mid → (length middle ≤ Z.to_nat (Qfloor mid))%nat) ∧
  (mid < 1 →
   length middle =
     Z.to_nat (Math_floor (Zone.width z ⊗ round 1.3 ⊗ (Zone.height z ⊗ round 1.3)
                           ⊗ round 0.0002))).
Proof.
  zone_shape state actConfig zoneSeed options caller. rewrite Hz.
  cbn [set_results set_lists Zone.width Zone.height Zone.parallax].
  set (w := scale_dimension _ _ w0) in *.
  set (h := scale_dimension _ _ h0) in *.
  destruct (generateParallax_layers (State.exploration state) actConfig w h s_par)
    as (s1 & s2 & Hb & Hm & _).
  rewrite Epar in Hb, Hm. cbn [fst] in Hb, Hm. cbv zeta.
  rewrite Hb, Hm, !generateStarfield_length. unfold Math_floor.
  split_and!.
  - intros Hone. rewrite (proj2 (Qle_bool_iff _ _) Hone). lia.
  - intros Hlt. destruct (Qle_bool 1 _) eqn:E; [|done].
    apply Qle_bool_iff in E. exfalso. by apply (Qlt_not_le _ _ Hlt).
  - intros Hone. rewrite (proj2 (Qle_bool_iff _ _) Hone). lia.
  - intros Hlt. destruct (Qle_bool 1 _) eqn:E; [|done].
    apply Qle_bool_iff in E. exfalso. by apply (Qlt_not_le _ _ Hlt).
Qed.

(** X15.  For a depth that is not negative, a zone has between two
    and seven points of interest. *)
Theorem poi_count `{!SeededRandomSpec} state actConfig zoneSeed options caller :
  (0 ≤ depth_or (Options.depth options))%Z →
  let z := (generate state actConfig zoneSeed options caller).1 in
  (2 ≤ length (Zone.pois z) ≤ 7)%nat.
Proof.
  intros Hd.
  zone_shape state actConfig zoneSeed options caller. rewrite Hz.
  cbn [set_results Zone.pois].
  match type of Epoi with
  | generatePOIs ?zone0 _ _ _ = _ =>
      pose proof (generatePOIs_count zone0 actConfig options s_poi Hd) as Hc
  end.
  by rewrite Epoi in Hc.
Qed.

(** X16.  Every point of interest has a type of the tier of the
    zone's depth and lies at least 200 from the left and top border,
    and from the right and bottom one in a zone at least 400 wide and
    high. *)
Theorem pois_typed_and_placed state actConfig zoneSeed options caller :
  let z := (generate state actConfig zoneSeed options caller).1 in
  Forall (λ p,
            POI.type p ∈ _getPOITypesForTier (depth_or (Options.depth options)) ∧
            200 <= POI.x p ∧ 200 <= POI.y p ∧
            (400 <= Zone.width z → POI.x p <= Zone.width z - 200) ∧
            (400 <= Zone.height z → POI.y p <= Zone.height z - 200))
         (Zone.pois z).
Proof.
  zone_shape state actConfig zoneSeed options caller. rewrite Hz.
  cbn [set_results set_lists Zone.pois Zone.width Zone.height].
  match type of Epoi with
  | generatePOIs ?zone0 _ _ _ = _ =>
      pose proof (λ P Hmake, generatePOIs_Forall P zone0 actConfig options
                               s_poi Hmake) as Hall
  end.
  rewrite Epoi in Hall. cbn [fst Zone.width Zone.height] in Hall.
  apply Hall. intros pt ty i s p Hpt Hty Hp.
  apply createPOI_made in Hp as (-> & -> & ->).
  split; [by apply Hty|]. tauto.
Qed.

(** X17.  The obstacles of a zone are those [generateObstacles]
    scatters, followed by the obstacles of the points of interest, the
    resource nodes and the generators of the objective: the later
    passes push their obstacles into the same list.  The scattered
    ones are what [generateObstacles] returns on the generator seeded
    with [zoneSeed], after the passes before it, and are no more than
    the obstacle cap. *)
Theorem zone_obstacles_accounting state actConfig zoneSeed options caller :
  let z := (generate state actConfig zoneSeed options caller).1 in
  let cfg := default GenCfg.empty (ActConfig.generation actConfig) in
  let depth := depth_or (Options.depth options) in
  let mods := arr_or (Options.mods options) [] in
  let diff := str_or (Options.difficulty options) "normal" in
  let tune := State.exploration state in
  let pool := arr_or (ActConfig.pool actConfig) ["grunt"] in
  let w := Zone.width z in
  let h := Zone.height z in
  ∃ w0 s1 h0 s2 s3 parallax s4 s5 placed s6 packed s7 s8 scattered s9,
    pickRange (GenCfg.width cfg) 1500 3000 (rng_new zoneSeed) = (w0, s1) ∧
    pickRange (GenCfg.height cfg) 1500 3000 s1 = (h0, s2) ∧
    generateSpawnPoint w h s2 = (Zone.spawn z, s3) ∧
    generateParallax tune actConfig w h s3 = (parallax, s4) ∧
    generateExitPoint (Zone.spawn z) w h s4 = (exit_of z, s5) ∧
    generateEnemySpawns tune pool (enemyDensity_of tune cfg depth mods diff)
      w h (Zone.spawn z) (exit_of z) s5 = (placed, s6) ∧
    applyPackDirector (State.packs state) placed pool (Zone.spawn z) (exit_of z)
      s6 = (packed, s7) ∧
    generateEliteSpawns tune
      (arr_or (ActConfig.elitePool actConfig) ["commander"])
      (eliteDensity_of tune cfg depth mods diff) w h s7
      = (Zone.eliteSpawns z, s8) ∧
    generateObstacles tune (obstacleDensity_of cfg depth mods diff) w h
      {| Options.depth := Some depth; Options.mods := Some mods;
         Options.difficulty := None |} s8 = (scattered, s9) ∧
    (Z.of_nat (length scattered)
     ≤ Z.max 0 (typeof_number (Tune.maxObstaclesPerZone tune) 1200))%Z ∧
    Zone.obstacles z =
      scattered ++ (Zone.pois z ≫= POI.obstacles) ++ Zone.resourceNodes z
      ++ from_option Objective.generators [] (Zone.objective z).
Proof.
  zone_shape state actConfig zoneSeed options caller. rewrite Hz.
  unfold exit_of.
  cbn [set_results set_lists Zone.obstacles Zone.pois Zone.resourceNodes
       Zone.objective Zone.width Zone.height Zone.spawn Zone.eliteSpawns
       Zone.exit default from_option id].
  exists w0, s_height, h0, s_spawn, s_par, parallax, s_exit, s_enemy, enemy0,
    s_pack, enemy1, s_elite, s_obs, obstacles, s_dec.
  split_and!; try done.
  match type of Eobs with
  | generateObstacles ?tune ?d ?w ?h ?o ?s = _ =>
      pose proof (generateObstacles_length tune d w h o s) as Hl
  end.
  rewrite Eobs in Hl. apply Hl. done.
Qed.

(** X18.  Every obstacle of a regular zone is destructible, has hit
    points, and a type that is one of the seven known ones, or a mine
    under the MINEFIELD modifier. *)
Theorem zone_obstacles_regular state actConfig zoneSeed options caller :
  let z := (generate state actConfig zoneSeed options caller).1 in
  Forall (regular_obstacle (arr_or (Options.mods options) [])) (Zone.obstacles z).
Proof.
  zone_shape state actConfig zoneSeed options caller. rewrite Hz.
  cbn [set_results set_lists Zone.obstacles].
  set (mods := arr_or (Options.mods options) []) in *.
  rewrite !Forall_app. split_and!.
  - match type of Eobs with
    | generateObstacles ?tune ?d ?w ?h _ ?s = _ =>
        pose proof (generateObstacles_kind tune d w h
                      (depth_or (Options.depth options)) mods s) as Hk
    end.
    by rewrite Eobs in Hk.
  - match type of Epoi with
    | generatePOIs ?zone0 _ _ _ = _ =>
        pose proof (λ P Hmake, generatePOIs_Forall P zone0 actConfig options
                                 s_poi Hmake) as Hall
    end.
    rewrite Epoi in Hall. cbn [fst] in Hall.
    apply Forall_forall. intros o Ho.
    apply list_elem_of_bind in Ho as (p & Ho & Hp).
    specialize (Hall (λ p, Forall (regular_obstacle mods) (POI.obstacles p))).
    rewrite Forall_forall in Hall.
    eapply Forall_forall; [|exact Ho]. apply Hall; [|done].
    intros pt ty i s p' _ _. apply createPOI_obstacles.
  - pose proof (generateResourceNodes_Forall (regular_obstacle mods) zoneP
                  actConfig options s_res) as Hn.
    rewrite Eres in Hn. apply Hn. intros s n. apply resource_node_kind.
  - pose proof (generateObjective_generators mods zoneR
                  (depth_or (Options.depth options)) s_obj) as Hg.
    rewrite Eobj in Hg. cbn [fst] in Hg.
    destruct obj as [o|]; [by apply Hg|constructor].
Qed.

(** X19.  The enemy spawns of a zone are what the pack director makes
    of the spawns [generateEnemySpawns] placed, followed by the guards
    of the points of interest.  The placed spawns are what
    [generateEnemySpawns] returns on the generator seeded with
    [zoneSeed], after the draws of the size, the spawn point, the
    parallax layers and the exit; they are no more than the spawn cap,
    and the pack director runs on the state that pass leaves. *)
Theorem zone_enemies_accounting state actConfig zoneSeed options caller :
  let z := (generate state actConfig zoneSeed options caller).1 in
  let cfg := default GenCfg.empty (ActConfig.generation actConfig) in
  let depth := depth_or (Options.depth options) in
  let mods := arr_or (Options.mods options) [] in
  let diff := str_or (Options.difficulty options) "normal" in
  let tune := State.exploration state in
  let pool := arr_or (ActConfig.pool actConfig) ["grunt"] in
  let w := Zone.width z in
  let h := Zone.height z in
  ∃ w0 s1 h0 s2 s3 parallax s4 s5 placed s6,
    pickRange (GenCfg.width cfg) 1500 3000 (rng_new zoneSeed) = (w0, s1) ∧
    pickRange (GenCfg.height cfg) 1500 3000 s1 = (h0, s2) ∧
    generateSpawnPoint w h s2 = (Zone.spawn z, s3) ∧
    generateParallax tune actConfig w h s3 = (parallax, s4) ∧
    generateExitPoint (Zone.spawn z) w h s4 = (exit_of z, s5) ∧
    generateEnemySpawns tune pool (enemyDensity_of tune cfg depth mods diff)
      w h (Zone.spawn z) (exit_of z) s5 = (placed, s6) ∧
    (Z.of_nat (length placed)
     ≤ Z.max 0 (typeof_number (Tune.maxEnemySpawnsPerZone tune) 120))%Z ∧
    Zone.enemySpawns z =
      (applyPackDirector (State.packs state) placed pool (Zone.spawn z)
         (exit_of z) s6).1
      ++ (Zone.pois z ≫= λ p, poi_spawn p <$> POI.enemies p).
Proof.
  zone_shape state actConfig zoneSeed options caller. cbv zeta. rewrite Hz.
  unfold exit_of.
  cbn [set_results set_lists Zone.enemySpawns Zone.pois Zone.spawn Zone.width
       Zone.height Zone.exit default from_option id].
  exists w0, s_height, h0, s_spawn, s_par, parallax, s_exit, s_enemy, enemy0,
    s_pack.
  split_and!; try done.
  - unfold generateEnemySpawns in Eenemy. cbv zeta in Eenemy.
    match type of Eenemy with
    | enemy_spawn_loop ?f ?p ?c ?w ?h ?sp ?ex ?a ?b ?d [] ?s = _ =>
        destruct (enemy_spawn_loop_placed f p c w h sp ex a b d [] s
                    (placed_nil _ _ _ _ _ _)) as [Hlen _]
    end.
    rewrite Eenemy in Hlen. cbn [fst] in Hlen.
    unfold Math_maxZ, Math_minZ in Hlen. lia.
  - by rewrite Epack.
Qed.

(** X20.  For a depth that is not negative there are at most
    [min 6 (3 + depth / 15)] resource nodes; each is an ore or crystal
    node, or a void crystal from depth 30 on, with a radius of 25 to 50
    and 25 to 55 hit points, and in a zone at least 300 wide and high
    it lies 150 or more from every border. *)
Theorem resource_nodes_bounds `{!SeededRandomSpec} state actConfig zoneSeed
    options caller :
  (0 ≤ depth_or (Options.depth options))%Z →
  let depth := depth_or (Options.depth options) in
  let z := (generate state actConfig zoneSeed options caller).1 in
  (Z.of_nat (length (Zone.resourceNodes z)) ≤ Z.min 6 (3 + depth / 15))%Z ∧
  Forall (λ n,
            (Obstacle.type n = Some "ore_rich" ∨
             Obstacle.type n = Some "crystal_node" ∨
             ((30 ≤ depth)%Z ∧ Obstacle.type n = Some "void_crystal")) ∧
            (∃ r, Obstacle.radius n = Q_of r ∧ (25 ≤ r ≤ 50)%Z) ∧
            (∃ hp, Obstacle.hp n = Some (Q_of hp) ∧ (25 ≤ hp ≤ 55)%Z) ∧
            (300 <= Zone.width z → 300 <= Zone.height z →
             150 <= Obstacle.x n <= Zone.width z - 150 ∧
             150 <= Obstacle.y n <= Zone.height z - 150))
         (Zone.resourceNodes z).
Proof.
  intros Hd.
  zone_shape state actConfig zoneSeed options caller. rewrite Hz.
  cbn [set_results set_lists Zone.resourceNodes Zone.width Zone.height].
  pose proof (generateResourceNodes_count zoneP actConfig options s_res Hd) as Hc.
  rewrite Eres in Hc. split; [done|].
  pose proof (λ P, generateResourceNodes_Forall P zoneP actConfig options s_res)
    as Hall.
  rewrite Eres in Hall. cbn [fst] in Hall.
  rewrite (generatePOIs_shape _ _ _ _ _ _ _ Epoi) in Hall.
  cbn [set_lists Zone.width Zone.height Zone.spawn exit_of Zone.exit] in Hall.
  apply Hall. intros s n Hn.
  apply resource_node_made in Hn as ((nt & Hnt & Hty) & _ & Hr & Hhp & Hpos).
  split_and!; try done.
  unfold nodeTypes in Hnt. rewrite fmap_app, elem_of_app in Hnt.
  rewrite Hty. destruct (30 <=? _)%Z eqn:E30; cbn in Hnt;
    rewrite !elem_of_cons, ?elem_of_nil in Hnt.
  - apply Z.leb_le in E30. intuition (subst; auto).
  - intuition (subst; auto).
Qed.


(** X22.  An objective starts with no progress and incomplete.  An
    exterminate objective locks the exit and asks for 80 percent of the
    enemy and elite spawns, rounded down, and at least five; a lockdown
    objective locks the exit, asks for three and has three generators,
    each of them among the obstacles of the zone. *)
Theorem objective_quota state actConfig zoneSeed options caller o :
  let z := (generate state actConfig zoneSeed options caller).1 in
  let total := Z.of_nat (length (Zone.enemySpawns z)
                         + length (Zone.eliteSpawns z)) in
  Zone.objective z = Some o →
  Objective.progress o = 0 ∧ Objective.complete o = false ∧
  (Objective.type o = "exterminate" →
   Objective.exitLocked o = true ∧
   Objective.target o = Q_of (Z.max 5 (Qfloor (Q_of total * 0.8)))) ∧
  (Objective.type o = "lockdown" →
   Objective.exitLocked o = true ∧ Objective.target o = 3 ∧
   length (Objective.generators o) = 3%nat ∧
   ∀ g, g ∈ Objective.generators o → g ∈ Zone.obstacles z).
Proof.
  zone_shape state actConfig zoneSeed options caller. rewrite Hz.
  cbn [set_results set_lists Zone.objective Zone.enemySpawns Zone.eliteSpawns
       Zone.obstacles].
  intros ->.
  pose proof (generateObjective_quota zoneR (depth_or (Options.depth options))
                s_obj o) as Hq.
  rewrite Eobj in Hq. specialize (Hq eq_refl).
  destruct Hq as (Hp & Hc & Hext & Hlock).
  rewrite (generateResourceNodes_shape _ _ _ _ _ _ _ Eres) in Hext.
  rewrite (generatePOIs_shape _ _ _ _ _ _ _ Epoi) in Hext.
  cbn [set_lists Zone.enemySpawns Zone.eliteSpawns] in Hext.
  split_and!; try done.
  intros Hty. destruct (Hlock Hty) as (? & ? & ?). split_and!; try done.
  intros g Hg. cbn [from_option]. rewrite !elem_of_app. auto.
Qed.

(** X23.  In a zone at least 400 wide and high every elite spawn lies
    200 or more from every border, has a type of the elite pool, and
    is neither active nor killed. *)
Theorem elites_inside `{!SeededRandomSpec} state actConfig zoneSeed options
    caller :
  let z := (generate state actConfig zoneSeed options caller).1 in
  400 <= Zone.width z → 400 <= Zone.height z →
  Forall (λ e,
            (200 <= EliteSpawn.x e <= Zone.width z - 200 ∧
             200 <= EliteSpawn.y e <= Zone.height z - 200) ∧
            (∀ t, EliteSpawn.type e = Some t →
                  t ∈ arr_or (ActConfig.elitePool actConfig) ["commander"]) ∧
            EliteSpawn.active e = false ∧ EliteSpawn.killed e = false)
         (Zone.eliteSpawns z).
Proof.
  zone_shape state actConfig zoneSeed options caller. rewrite Hz.
  cbn [set_results set_lists Zone.eliteSpawns Zone.width Zone.height].
  intros Hw Hh.
  match type of Eelite with
  | generateEliteSpawns ?tune ?p ?d ?w ?h ?s = _ =>
      pose proof (generateEliteSpawns_inside tune p d w h s Hw Hh) as He
  end.
  by rewrite Eelite in He.
Qed.

(** X24.  In a zone at least 200 wide and high every spawn that
    [generateEnemySpawns] places lies 100 or more from every border,
    has a type of the pool, a patrol radius of 50 to 150, is neither
    active nor killed, and belongs to no pack and no point of
    interest. *)
Theorem enemy_spawns_inside `{!SeededRandomSpec} tune pool density w h spawn
    exit s :
  200 <= w → 200 <= h →
  Forall (λ e,
            (100 <= EnemySpawn.x e <= w - 100 ∧
             100 <= EnemySpawn.y e <= h - 100) ∧
            (∀ t, EnemySpawn.type e = Some t → t ∈ pool) ∧
            (∃ r, EnemySpawn.patrolRadius e = Some (Q_of r) ∧ (50 ≤ r ≤ 150)%Z) ∧
            EnemySpawn.active e = false ∧ EnemySpawn.killed e = false ∧
            EnemySpawn.packId e = None ∧ EnemySpawn.poiId e = None)
         (generateEnemySpawns tune pool density w h spawn exit s).1.
Proof.
  intros Hw Hh. unfold generateEnemySpawns. cbv zeta.
  by apply (enemy_spawn_loop_inside _ pool _ w h spawn exit _ _ _ [] s Hw Hh).
Qed.

(** X25.  With pack sizes [1 <= min <= max], the pack director never
    returns fewer spawns than it was given. *)
Theorem pack_director_never_shrinks `{!SeededRandomSpec} packsData spawns pool
    spawnPt exitPt s :
  (∀ packs, packsData = Some packs →
     (1 ≤ typeof_number (Packs.packSizeMin packs) 3
        ≤ typeof_number (Packs.packSizeMax packs) 5)%Z) →
  (length spawns
   ≤ length (applyPackDirector packsData spawns pool spawnPt exitPt s).1)%nat.
Proof.
  intros Hsize. unfold applyPackDirector.
  destruct packsData as [packs|]; [|done].
  destruct (Packs.templates packs); [done|].
  by apply applyPackDirector_body_covers, Hsize.
Qed.

(** X26.  Without pack data, without templates, or with fewer spawns
    than the smallest pack, the pack director returns the spawns and
    the generator untouched; with a pack budget of zero or less it
    returns the same spawns. *)
Theorem pack_director_idle packsData spawns pool spawnPt exitPt s :
  (packsData = None ∨
   (∃ packs, packsData = Some packs ∧
      (Packs.templates packs = [] ∨
       (Z.of_nat (length spawns) < typeof_number (Packs.packSizeMin packs) 3)%Z)) →
   applyPackDirector packsData spawns pool spawnPt exitPt s = (spawns, s)) ∧
  (∀ packs, packsData = Some packs →
     (typeof_number (Packs.maxPacksPerZone packs) 6 ≤ 0)%Z →
     (applyPackDirector packsData spawns pool spawnPt exitPt s).1 = spawns).
Proof.
  unfold applyPackDirector. split.
  - intros [->|(packs & -> & [Ht|Hlt])]; [done| |].
    + by rewrite Ht.
    + destruct (Packs.templates packs); [done|].
      unfold applyPackDirector_body. cbv zeta.
      by rewrite (proj2 (Z.ltb_lt _ _) Hlt).
  - intros packs -> Hmax. destruct (Packs.templates packs); [done|].
    unfold applyPackDirector_body. cbv zeta.
    destruct (_ <? _)%Z; [done|].
    apply bind_post. intros idx s1.
    apply (bind_post_with (λ r, r = ([], []))).
    { by apply pack_loop_closed. }
    intros r s2 ->. cbn [fst ret app].
    rewrite <-(omap_lookup_seq spawns) at 2. done.
Qed.

(** X27.  A boss zone leaves the caller's generator untouched, has
    the arena's size, the spawn point at the bottom centre and the boss
    at the top centre, no exit, no enemy or elite spawns, decorations,
    points of interest or objective, and two to four pillars of radius
    40 that cannot be destroyed. *)
Theorem boss_zone_shape `{!SeededRandomSpec} state actConfig zoneSeed options
    caller :
  let z := (generateBossZone state actConfig zoneSeed options caller).1 in
  let w := num_or (ActConfig.boss actConfig ≫= BossCfg.arenaWidth) 1200 in
  let h := num_or (ActConfig.boss actConfig ≫= BossCfg.arenaHeight) 1000 in
  (generateBossZone state actConfig zoneSeed options caller).2 = caller ∧
  Zone.isBossZone z = true ∧ Zone.width z = w ∧ Zone.height z = h ∧
  Zone.spawn z = {| Point.x := w / 2; Point.y := h - 100 |} ∧
  Zone.exit z = None ∧
  (∃ type, Zone.bossSpawn z =
             Some {| BossSpawn.x := w / 2; BossSpawn.y := 200;
                     BossSpawn.type := type |} ∧
           (no_type (ActConfig.boss actConfig ≫= BossCfg.type) = false →
            type = ActConfig.boss actConfig ≫= BossCfg.type)) ∧
  Zone.enemySpawns z = [] ∧ Zone.eliteSpawns z = [] ∧
  Zone.decorations z = [] ∧ Zone.pois z = [] ∧ Zone.objective z = None ∧
  (2 ≤ length (Zone.obstacles z) ≤ 4)%nat ∧
  Forall (λ o, Obstacle.type o = Some "pillar" ∧ Obstacle.radius o = 40 ∧
               Obstacle.destructible o = false ∧ Obstacle.hp o = None)
         (Zone.obstacles z).
Proof.
  unfold generateBossZone. cbv zeta.
  set (w := num_or _ 1200). set (h := num_or _ 1000).
  match goal with
  | |- context [bind ?m ?k (rng_new zoneSeed)] =>
      destruct (bind m k (rng_new zoneSeed)) as [z s'] eqn:E
  end.
  cbn [fst snd].
  apply bind_run in E as (type & s1 & Et & E).
  apply bind_run in E as (obstacles & s2 & Eo & E).
  apply bind_run in E as (parallax & s3 & _ & E).
  injection E as <- _.
  destruct (generateBossArenaObstacles_pillars w h s1) as [Hlen Hall].
  rewrite Eo in Hlen, Hall. cbn [fst] in Hlen, Hall.
  cbn. split_and!; try done; try lia.
  exists type. split; [done|]. intros Hno. rewrite Hno in Et.
  by injection Et as <- _.
Qed.

End generic.

(** *** On the reference instances *)

Lemma spawn_exit_apart_witness :
  let z := (generate (state_of few_stars) (act 1000 1000) 1 (at_depth 1) idle).1 in
  ∃ exit,
    Zone.exit z = Some exit ∧
    (Point.y (Zone.spawn z) = Zone.height z - 100 ∨ Point.x (Zone.spawn z) = 100 ∨
     Point.x (Zone.spawn z) = Zone.width z - 100) ∧
    (Point.y exit = 100 ∨ Point.x exit = Zone.width z - 100 ∨ Point.x exit = 100) ∧
    (Zone.height z / 2 - 100 < Point.y (Zone.spawn z) - Point.y exit ∨
     Qabs (Point.x (Zone.spawn z) - Point.x exit) == Zone.width z - 200).
Proof.
  assert (let z := (generate (state_of few_stars) (act 1000 1000) 1 (at_depth 1)
                      idle).1 in
          200 < Zone.width z ∧ 200 < Zone.height z) as [Hw Hh].
  { by vm_compute. }
  exact (spawn_exit_apart (state_of few_stars) (act 1000 1000) 1 (at_depth 1) idle
           Hw Hh).
Defined.

Lemma scaled_zone_at_least_600_witness :
  let z := (generate (state_of scaled_twice) (act 250 250) 1 (at_depth 1) idle).1 in
  600 <= Zone.width z ∧ 600 <= Zone.height z.
Proof.
  apply (scaled_zone_at_least_600 (state_of scaled_twice) (act 250 250) 1
           (at_depth 1) idle 2).
  - reflexivity.
  - reflexivity.
  - intros Hc. vm_compute in Hc. discriminate.
Defined.

Lemma poi_count_witness :
  let z := (generate (state_of few_stars) (act 1000 1000) 1 (at_depth 1) idle).1 in
  (2 ≤ length (Zone.pois z) ≤ 7)%nat.
Proof.
  apply (poi_count (state_of few_stars) (act 1000 1000) 1 (at_depth 1) idle).
  by vm_compute.
Defined.

Lemma resource_nodes_bounds_witness :
  let depth := depth_or (Options.depth (at_depth 30)) in
  let z := (generate (state_of few_stars) (act 1000 1000) 1 (at_depth 30) idle).1 in
  (Z.of_nat (length (Zone.resourceNodes z)) ≤ Z.min 6 (3 + depth / 15))%Z ∧
  Forall (λ n,
            (Obstacle.type n = Some "ore_rich" ∨
             Obstacle.type n = Some "crystal_node" ∨
             ((30 ≤ depth)%Z ∧ Obstacle.type n = Some "void_crystal")) ∧
            (∃ r, Obstacle.radius n = Q_of r ∧ (25 ≤ r ≤ 50)%Z) ∧
            (∃ hp, Obstacle.hp n = Some (Q_of hp) ∧ (25 ≤ hp ≤ 55)%Z) ∧
            (300 <= Zone.width z → 300 <= Zone.height z →
             150 <= Obstacle.x n <= Zone.width z - 150 ∧
             150 <= Obstacle.y n <= Zone.height z - 150))
         (Zone.resourceNodes z).
Proof.
  apply (resource_nodes_bounds (state_of few_stars) (act 1000 1000) 1
           (at_depth 30) idle).
  by vm_compute.
Defined.

Lemma objective_quota_witness :
  let z := (generate (state_of few_stars) (act 1000 1000) 1 (at_depth 3) idle).1 in
  let total := Z.of_nat (length (Zone.enemySpawns z)
                         + length (Zone.eliteSpawns z)) in
  ∃ o,
    Zone.objective z = Some o ∧
    Objective.progress o = 0 ∧ Objective.complete o = false ∧
    (Objective.type o = "exterminate" →
     Objective.exitLocked o = true ∧
     Objective.target o = Q_of (Z.max 5 (Qfloor (Q_of total * 0.8)))) ∧
    (Objective.type o = "lockdown" →
     Objective.exitLocked o = true ∧ Objective.target o = 3 ∧
     length (Objective.generators o) = 3%nat ∧
     ∀ g, g ∈ Objective.generators o → g ∈ Zone.obstacles z).
Proof.
  pose proof (objective_quota (state_of few_stars) (act 1000 1000) 1 (at_depth 3)
                idle) as Hq.
  cbv zeta in *.
  set (z := (generate _ _ _ _ _).1) in *.
  assert (is_Some (Zone.objective z)) as [o Ho].
  { subst z. vm_compute. by eexists. }
  clearbody z. exists o. split; [exact Ho|]. exact (Hq o Ho).
Defined.

Lemma elites_inside_witness :
  let z := (generate (state_of few_stars) (act 1000 1000) 1 (at_depth 1) idle).1 in
  Forall (λ e,
            (200 <= EliteSpawn.x e <= Zone.width z - 200 ∧
             200 <= EliteSpawn.y e <= Zone.height z - 200) ∧
            (∀ t, EliteSpawn.type e = Some t →
                  t ∈ arr_or (ActConfig.elitePool (act 1000 1000)) ["commander"]) ∧
            EliteSpawn.active e = false ∧ EliteSpawn.killed e = false)
         (Zone.eliteSpawns z).
Proof.
  assert (let z := (generate (state_of few_stars) (act 1000 1000) 1 (at_depth 1)
                      idle).1 in
          400 <= Zone.width z ∧ 400 <= Zone.height z) as [Hw Hh].
  { by vm_compute. }
  exact (elites_inside (state_of few_stars) (act 1000 1000) 1 (at_depth 1) idle
           Hw Hh).
Defined.

Lemma enemy_spawns_inside_witness :
  Forall (λ e,
            (100 <= EnemySpawn.x e <= 2000 - 100 ∧
             100 <= EnemySpawn.y e <= 2000 - 100) ∧
            (∀ t, EnemySpawn.type e = Some t → t ∈ ["grunt"]) ∧
            (∃ r, EnemySpawn.patrolRadius e = Some (Q_of r) ∧ (50 ≤ r ≤ 150)%Z) ∧
            EnemySpawn.active e = false ∧ EnemySpawn.killed e = false ∧
            EnemySpawn.packId e = None ∧ EnemySpawn.poiId e = None)
         (generateEnemySpawns few_stars ["grunt"] 0.0005 2000 2000 corner top
            started).1.
Proof.
  apply (enemy_spawns_inside few_stars ["grunt"] 0.0005 2000 2000 corner top
           started); discriminate.
Defined.

Lemma pack_director_never_shrinks_witness :
  (length three_spawns
   ≤ length (applyPackDirector (Some squad_of_five) three_spawns ["grunt"]
               corner top started).1)%nat.
Proof.
  apply (pack_director_never_shrinks (Some squad_of_five) three_spawns ["grunt"]
           corner top started).
  intros packs [= <-]. by vm_compute.
Defined.

Lemma boss_zone_shape_witness :
  let boss := generateBossZone (state_of few_stars) (act 1000 1000) 1
                (at_depth 5) started in
  let z := boss.1 in
  let w := num_or (ActConfig.boss (act 1000 1000) ≫= BossCfg.arenaWidth) 1200 in
  let h := num_or (ActConfig.boss (act 1000 1000) ≫= BossCfg.arenaHeight) 1000 in
  boss.2 = started ∧
  Zone.isBossZone z = true ∧ Zone.width z = w ∧ Zone.height z = h ∧
  Zone.spawn z = {| Point.x := w / 2; Point.y := h - 100 |} ∧
  Zone.exit z = None ∧
  (∃ type, Zone.bossSpawn z =
             Some {| BossSpawn.x := w / 2; BossSpawn.y := 200;
                     BossSpawn.type := type |} ∧
           (no_type (ActConfig.boss (act 1000 1000) ≫= BossCfg.type) = false →
            type = ActConfig.boss (act 1000 1000) ≫= BossCfg.type)) ∧
  Zone.enemySpawns z = [] ∧ Zone.eliteSpawns z = [] ∧
  Zone.decorations z = [] ∧ Zone.pois z = [] ∧ Zone.objective z = None ∧
  (2 ≤ length (Zone.obstacles z) ≤ 4)%nat ∧
  Forall (λ o, Obstacle.type o = Some "pillar" ∧ Obstacle.radius o = 40 ∧
               Obstacle.destructible o = false ∧ Obstacle.hp o = None)
         (Zone.obstacles z).
Proof.
  apply (boss_zone_shape (state_of few_stars) (act 1000 1000) 1 (at_depth 5)
           started).
Defined.

End ZoneLaws.

